(** * Data-access layer of the chat client: a shallow embedding

    The development follows [src/lib/supabase/queries.ts].  It has three
    layers:

    - the pure helpers the file relies on (base64, UUID syntax, SHA-256,
      UTF-8), written out because the source calls them as platform
      built-ins ([btoa], [uuidv4], [crypto.subtle.digest], [TextEncoder]);
    - a model of the remote store the functions talk to: tables as lists
      of rows, every call answering with a [{data, error}] pair, and an
      environment that may fail a call or let another client write
      between two calls;
    - the repository functions themselves, in a state-and-exception monad
      over that store, one definition per source function. *)

From Stdlib Require Import List String Ascii NArith ZArith Lia Bool.
From Stdlib.Strings Require Import Byte.
Import ListNotations.

Set Implicit Arguments.

Local Open Scope string_scope.
Local Open Scope list_scope.

(** ** Bytes and characters *)

Module Text.

(** A byte as the number JavaScript sees in a [Uint8Array]. *)
Definition u8 (b : byte) : N := Byte.to_N b.

(** The byte holding the low eight bits of [n]. *)
Definition byte_of (n : N) : byte :=
  match Byte.of_N (n mod 256) with
  | Some b => b
  | None => x00
  end.

(** [s.replace(/c/g, by)] for a one-character pattern. *)
Fixpoint replace_all (c : ascii) (by_ : string) (s : string) : string :=
  match s with
  | EmptyString => EmptyString
  | String d rest =>
      if Ascii.eqb d c then by_ ++ replace_all c by_ rest
      else String d (replace_all c by_ rest)
  end.

Fixpoint forall_chars (p : ascii -> bool) (s : string) : bool :=
  match s with
  | EmptyString => true
  | String c rest => p c && forall_chars p rest
  end.

Definition in_range (lo hi c : ascii) : bool :=
  ((nat_of_ascii lo <=? nat_of_ascii c) && (nat_of_ascii c <=? nat_of_ascii hi))%nat.

Definition is_digit (c : ascii) : bool := in_range "0" "9" c.
Definition is_upper (c : ascii) : bool := in_range "A" "Z" c.
Definition is_lower (c : ascii) : bool := in_range "a" "z" c.
Definition is_alnum (c : ascii) : bool := is_digit c || is_upper c || is_lower c.

End Text.

(** ** Base64, as [btoa] computes it *)

Module Base64.
Import Text.

Definition alphabet : string :=
  "ABCDEFGHIJKLMNOPQRSTUVWXYZabcdefghijklmnopqrstuvwxyz0123456789+/".

Definition pad : ascii := "="%char.

(** The character of a six-bit group. *)
Definition b64char (n : N) : ascii :=
  match String.get (N.to_nat n) alphabet with
  | Some c => c
  | None => pad
  end.

(** [btoa(String.fromCharCode(...bytes))]: every three bytes give four
    characters; one or two trailing bytes give two or three characters
    and the rest of the group is padding. *)
Fixpoint btoa (bs : list byte) : string :=
  match bs with
  | [] => ""
  | [a] =>
      String (b64char (u8 a / 4))
        (String (b64char ((u8 a mod 4) * 16))
           (String pad (String pad "")))
  | [a; b] =>
      String (b64char (u8 a / 4))
        (String (b64char ((u8 a mod 4) * 16 + u8 b / 16))
           (String (b64char ((u8 b mod 16) * 4))
              (String pad "")))
  | a :: b :: c :: rest =>
      String (b64char (u8 a / 4))
        (String (b64char ((u8 a mod 4) * 16 + u8 b / 16))
           (String (b64char ((u8 b mod 16) * 4 + u8 c / 64))
              (String (b64char (u8 c mod 64))
                 (btoa rest))))
  end%N.

(** The standard and the URL-safe alphabets as predicates. *)
Definition is_b64 (c : ascii) : bool :=
  is_alnum c || Ascii.eqb c "+" || Ascii.eqb c "/".

Definition is_b64url (c : ascii) : bool :=
  is_alnum c || Ascii.eqb c "-" || Ascii.eqb c "_".

(** The position of a character in the base64 alphabet. *)
Fixpoint index_in (c : ascii) (s : string) : N :=
  match s with
  | EmptyString => 0%N
  | String d rest => if Ascii.eqb c d then 0%N else (1 + index_in c rest)%N
  end.

Definition b64index (c : ascii) : N := index_in c alphabet.

(** The three replacements of [generateShareToken], one after the other. *)
Definition url_safe (s : string) : string :=
  replace_all "=" "" (replace_all "/" "_" (replace_all "+" "-" s)).

(** What they make of one base64 character. *)
Definition url_char (c : ascii) : ascii :=
  if Ascii.eqb c "+" then "-"%char
  else if Ascii.eqb c "/" then "_"%char
  else c.

Definition unsafe_char (c : ascii) : bool :=
  Ascii.eqb c "+" || Ascii.eqb c "/" || Ascii.eqb c "=".

Definition token_char (c : ascii) : bool := is_b64url c && negb (unsafe_char c).

End Base64.

(** ** UUIDs: the syntax check of [createMessage] and [uuidv4] *)

Module Uuid.
Import Text.

(** [[0-9a-f]] under the [i] flag. Code units above 127 never match, so
    looking at bytes is enough. *)
Definition is_hex (c : ascii) : bool :=
  is_digit c || in_range "a" "f" c || in_range "A" "F" c.

Definition is_dash (c : ascii) : bool := Ascii.eqb c "-".

(** [n] characters of class [p], then the rest of the pattern. *)
Fixpoint run_of (n : nat) (p : ascii -> bool) (k : string -> bool) (s : string) : bool :=
  match n with
  | O => k s
  | S n' =>
      match s with
      | EmptyString => false
      | String c rest => p c && run_of n' p k rest
      end
  end.

Definition at_end (s : string) : bool :=
  match s with EmptyString => true | _ => false end.

(** [/^[0-9a-f]{8}-[0-9a-f]{4}-[0-9a-f]{4}-[0-9a-f]{4}-[0-9a-f]{12}$/i] *)
Definition is_uuid : string -> bool :=
  run_of 8 is_hex (run_of 1 is_dash
    (run_of 4 is_hex (run_of 1 is_dash
      (run_of 4 is_hex (run_of 1 is_dash
        (run_of 4 is_hex (run_of 1 is_dash
          (run_of 12 is_hex at_end)))))))).

Definition hexdigit (n : N) : ascii :=
  match String.get (N.to_nat n) "0123456789abcdef" with
  | Some c => c
  | None => "0"%char
  end.

Definition hex2 (b : byte) : string :=
  String (hexdigit (u8 b / 16)) (String (hexdigit (u8 b mod 16)) "").

Fixpoint hex_of (bs : list byte) : string :=
  match bs with
  | [] => ""
  | b :: rest => hex2 b ++ hex_of rest
  end.

(** The [uuid] package's [v4]: sixteen random bytes, the version nibble
    forced to 4 and the variant bits to 10, printed 8-4-4-4-12. *)
Definition stamp (rnds : list byte) : list byte :=
  match rnds with
  | b0 :: b1 :: b2 :: b3 :: b4 :: b5 :: b6 :: b7 :: b8 :: rest =>
      b0 :: b1 :: b2 :: b3 :: b4 :: b5
        :: byte_of (N.lor (N.land (u8 b6) 15) 64) :: b7
        :: byte_of (N.lor (N.land (u8 b8) 63) 128) :: rest
  | _ => rnds
  end.

Definition stringify (bs : list byte) : string :=
  hex_of (firstn 4 bs) ++ "-" ++
  hex_of (firstn 2 (skipn 4 bs)) ++ "-" ++
  hex_of (firstn 2 (skipn 6 bs)) ++ "-" ++
  hex_of (firstn 2 (skipn 8 bs)) ++ "-" ++
  hex_of (firstn 6 (skipn 10 bs)).

Definition v4_of (rnds : list byte) : string := stringify (stamp rnds).

End Uuid.

(** ** SHA-256, the digest behind [crypto.subtle.digest("SHA-256", _)] *)

Module Sha256.
Import Text.
Local Open Scope N_scope.

Definition mask32 : N := 0xFFFFFFFF.
Definition w32 (x : N) : N := N.land x mask32.
Definition add32 (x y : N) : N := w32 (x + y).
Definition rotr (n x : N) : N := w32 (N.lor (N.shiftr x n) (N.shiftl x (32 - n))).
Definition shr (n x : N) : N := N.shiftr x n.

Definition Ch (x y z : N) : N := N.lxor (N.land x y) (N.land (N.lxor x mask32) z).
Definition Maj (x y z : N) : N := N.lxor (N.lxor (N.land x y) (N.land x z)) (N.land y z).
Definition bsig0 (x : N) : N := N.lxor (N.lxor (rotr 2 x) (rotr 13 x)) (rotr 22 x).
Definition bsig1 (x : N) : N := N.lxor (N.lxor (rotr 6 x) (rotr 11 x)) (rotr 25 x).
Definition ssig0 (x : N) : N := N.lxor (N.lxor (rotr 7 x) (rotr 18 x)) (shr 3 x).
Definition ssig1 (x : N) : N := N.lxor (N.lxor (rotr 17 x) (rotr 19 x)) (shr 10 x).

(** The constants are fixed by the standard through the first primes:
    the first 32 bits of the fractional parts of their cube roots (round
    constants) and of their square roots (initial hash value). *)
Definition is_prime (n : N) : bool :=
  (1 <? n) && forallb (fun d => negb (n mod d =? 0))
                      (map N.of_nat (seq 2 (N.to_nat n - 2))).

Definition first_primes (count : nat) : list N :=
  firstn count (filter is_prime (map N.of_nat (seq 2 320))).

(** The integer cube root, bit by bit from [2^bits] down. *)
Fixpoint cube_root_from (bits : nat) (x r : N) : N :=
  match bits with
  | O => r
  | S bits' =>
      let candidate := r + N.shiftl 1 (N.of_nat bits') in
      cube_root_from bits' x
        (if candidate * candidate * candidate <=? x then candidate else r)
  end.

Definition cube_root (x : N) : N := cube_root_from 40 x 0.

Definition K : list N :=
  Eval vm_compute in
    map (fun p => w32 (cube_root (N.shiftl p 96))) (first_primes 64).

(** The eight working words. *)
Record Regs : Type := mkRegs
  { ra : N; rb : N; rc : N; rd : N; re : N; rf : N; rg : N; rh : N }.

Definition H0 : Regs :=
  Eval vm_compute in
    match map (fun p => w32 (N.sqrt (N.shiftl p 64))) (first_primes 8) with
    | [a; b; c; d; e; f; g; h] => mkRegs a b c d e f g h
    | _ => mkRegs 0 0 0 0 0 0 0 0
    end.

(** Big-endian bytes of a number, [n] of them. *)
Fixpoint be_bytes (n : nat) (x : N) : list N :=
  match n with
  | O => []
  | S n' => (N.shiftr x (8 * N.of_nat n')) mod 256 :: be_bytes n' x
  end.

Definition pad_message (msg : list N) : list N :=
  let len := N.of_nat (List.length msg) in
  let zeros := (119 - len mod 64) mod 64 in
  msg ++ [128] ++ repeat 0 (N.to_nat zeros) ++ be_bytes 8 (8 * len).

Fixpoint words_of (n : nat) (bs : list N) : list N :=
  match n with
  | O => []
  | S n' =>
      match bs with
      | b0 :: b1 :: b2 :: b3 :: rest =>
          (b0 * 16777216 + b1 * 65536 + b2 * 256 + b3) :: words_of n' rest
      | _ => []
      end
  end.

(** The message schedule, extended by [n] words. *)
Fixpoint expand (n : nat) (w : list N) : list N :=
  match n with
  | O => w
  | S n' =>
      let t := List.length w in
      let at_ (k : nat) := nth (t - k) w 0 in
      expand n' (w ++ [add32 (add32 (ssig1 (at_ 2%nat)) (at_ 7%nat))
                             (add32 (ssig0 (at_ 15%nat)) (at_ 16%nat))])
  end.

Definition round (s : Regs) (kw : N * N) : Regs :=
  let t1 := add32 (add32 (add32 (rh s) (bsig1 (re s))) (add32 (Ch (re s) (rf s) (rg s)) (fst kw))) (snd kw) in
  let t2 := add32 (bsig0 (ra s)) (Maj (ra s) (rb s) (rc s)) in
  mkRegs (add32 t1 t2) (ra s) (rb s) (rc s) (add32 (rd s) t1) (re s) (rf s) (rg s).

Definition compress (h : Regs) (block : list N) : Regs :=
  let w := expand 48 (words_of 16 block) in
  let s := fold_left round (combine K w) h in
  mkRegs (add32 (ra h) (ra s)) (add32 (rb h) (rb s)) (add32 (rc h) (rc s)) (add32 (rd h) (rd s))
         (add32 (re h) (re s)) (add32 (rf h) (rf s)) (add32 (rg h) (rg s)) (add32 (rh h) (rh s)).

(** Fold [compress] over the 64-byte blocks; [n] bounds their number. *)
Fixpoint blocks (n : nat) (h : Regs) (bs : list N) : Regs :=
  match n with
  | O => h
  | S n' =>
      match bs with
      | [] => h
      | _ => blocks n' (compress h (firstn 64 bs)) (skipn 64 bs)
      end
  end.

Definition digest_words (h : Regs) : list N :=
  [ra h; rb h; rc h; rd h; re h; rf h; rg h; rh h].

Definition sha256 (msg : list byte) : list byte :=
  let padded := pad_message (map u8 msg) in
  let h := blocks (List.length padded) H0 padded in
  map byte_of (flat_map (be_bytes 4) (digest_words h)).

End Sha256.

(** ** JavaScript strings and [TextEncoder] *)

Module Js.
Import Text.
Local Open Scope N_scope.

(** A JavaScript string is a sequence of UTF-16 code units. *)
Definition jsstring : Type := list N.

Definition is_high (u : N) : bool := (0xD800 <=? u) && (u <=? 0xDBFF).
Definition is_low (u : N) : bool := (0xDC00 <=? u) && (u <=? 0xDFFF).

(** UTF-8 bytes of one code point. *)
Definition utf8_of_point (c : N) : list byte :=
  if c <? 0x80 then [byte_of c]
  else if c <? 0x800 then
    [byte_of (0xC0 + c / 64); byte_of (0x80 + c mod 64)]
  else if c <? 0x10000 then
    [byte_of (0xE0 + c / 4096); byte_of (0x80 + (c / 64) mod 64); byte_of (0x80 + c mod 64)]
  else
    [byte_of (0xF0 + c / 262144); byte_of (0x80 + (c / 4096) mod 64);
     byte_of (0x80 + (c / 64) mod 64); byte_of (0x80 + c mod 64)].

(** [new TextEncoder().encode(s)]: surrogate pairs are joined, and a
    surrogate without its partner is encoded as U+FFFD. *)
Fixpoint encode (s : jsstring) : list byte :=
  match s with
  | [] => []
  | u :: rest =>
      if is_high u then
        match rest with
        | v :: rest' =>
            if is_low v
            then utf8_of_point (0x10000 + (u - 0xD800) * 1024 + (v - 0xDC00)) ++ encode rest'
            else utf8_of_point 0xFFFD ++ encode rest
        | [] => utf8_of_point 0xFFFD
        end
      else if is_low u then utf8_of_point 0xFFFD ++ encode rest
      else utf8_of_point u ++ encode rest
  end.

(** The code units of an ASCII literal. *)
Fixpoint of_string (s : string) : jsstring :=
  match s with
  | EmptyString => []
  | String c rest => N_of_ascii c :: of_string rest
  end.

End Js.

(** ** Helper functions of the source file (lines 7-27) *)

(** [generateShareToken] after the random bytes are drawn. *)
Definition shareTokenOf (array : list byte) : string :=
  Text.replace_all "=" ""
    (Text.replace_all "/" "_"
       (Text.replace_all "+" "-" (Base64.btoa array))).

Definition hashPassword (password : Js.jsstring) : string :=
  let data := Js.encode password in
  let hash := Sha256.sha256 data in
  Base64.btoa hash.

Definition verifyPassword (password : Js.jsstring) (hash : string) : bool :=
  let hashedPassword := hashPassword password in
  String.eqb hashedPassword hash.

(** A list of bytes read as a number, lowest byte first. *)
Fixpoint number_of (bs : list byte) : nat :=
  match bs with
  | [] => 0
  | b :: rest => N.to_nat (Text.u8 b) + 256 * number_of rest
  end.

(** The password made of [n] letters a. *)
Definition letters (n : nat) : Js.jsstring := repeat 97%N n.

(** ** The remote store *)

(** The database client is a collaborator of the source, not part of it.
    What the functions rely on is modelled here: tables as lists of rows,
    equality filters, single-row mode, insert, upsert on [id], update and
    delete, each call answering with data or an error. *)

Module Store.

Record PgError : Type := mkError { code : string; message : string }.

Record Response (A : Type) : Type := mkResponse
  { data : option A; error : option PgError }.

Arguments mkResponse {A} _ _.
Arguments data {A} _.
Arguments error {A} _.

Definition answered {A} (a : A) : Response A := mkResponse (Some a) None.
Definition done {A} : Response A := mkResponse None None.
Definition failed {A} (e : PgError) : Response A := mkResponse None (Some e).

(** The errors the store itself raises. *)
Definition not_found : PgError :=
  mkError "PGRST116" "JSON object requested, multiple (or no) rows returned".
Definition duplicate_key : PgError :=
  mkError "23505" "duplicate key value violates unique constraint".
Definition undefined_table : PgError :=
  mkError "42P01" "relation does not exist".

(** *** Rows *)

(** Modelled from the spec: the schema of the tables, which the
    repository declares outside this file. Section 3 names the entities;
    the columns kept are those the functions write or filter on. The
    [id] of a thread, of a message and of a file attachment is a key of
    its table; a thread persona is unique per thread and user
    (section 3). *)
Record ThreadRow : Type := mkThread
  { th_id : string;
    th_title : string;
    th_user_id : string;
    th_last_message_at : option Z }.

(** One attachment as it is copied into a message's parts. *)
Record AttachmentPart : Type := mkAttachmentPart
  { ap_id : option string;
    ap_fileName : string;
    ap_fileType : option string;
    ap_fileSize : Z;
    ap_fileUrl : option string;
    ap_thumbnailUrl : option string;
    ap_content : option string;
    ap_extractedText : option string }.

(** A fragment of a message: the [file_attachments] fragment the source
    builds, or any other fragment, kept as its type tag and body. *)
Inductive Part : Type :=
| OtherPart (type body : string)
| FileAttachmentsPart (attachments : list AttachmentPart).

Record MessageRow : Type := mkMessage
  { m_id : string;
    m_thread_id : string;
    m_user_id : string;
    m_parts : list Part;
    m_role : string;
    m_content : string;
    m_created_at : Z;
    m_updated_at : option Z }.

Record FileAttachmentRow : Type := mkFileAttachment
  { fa_id : string;
    fa_message_id : string;
    fa_thread_id : string;
    fa_user_id : string;
    fa_file_name : string;
    fa_file_type : string;
    fa_file_size : Z;
    fa_file_url : string;
    fa_thumbnail_url : option string;
    fa_created_at : Z }.

Record ThreadPersonaRow : Type := mkThreadPersona
  { tp_thread_id : string;
    tp_persona_id : string;
    tp_user_id : string }.

Record PinnedMessageRow : Type := mkPinnedMessage
  { pin_id : string;
    pin_user_id : string;
    pin_thread_id : string;
    pin_message_id : string }.

(** A preferences row: its owner and the remaining columns as one value. *)
Record UserPreferencesRow : Type := mkUserPreferences
  { pref_user_id : string;
    pref_settings : string }.

(** The tables. [user_preferences] may not have been created yet. *)
Record DB : Type := mkDB
  { threads : list ThreadRow;
    messages : list MessageRow;
    file_attachments : list FileAttachmentRow;
    thread_personas : list ThreadPersonaRow;
    pinned_messages : list PinnedMessageRow;
    user_preferences : option (list UserPreferencesRow) }.

Definition with_threads (l : list ThreadRow) (d : DB) : DB :=
  mkDB l (messages d) (file_attachments d) (thread_personas d)
       (pinned_messages d) (user_preferences d).
Definition with_messages (l : list MessageRow) (d : DB) : DB :=
  mkDB (threads d) l (file_attachments d) (thread_personas d)
       (pinned_messages d) (user_preferences d).
Definition with_file_attachments (l : list FileAttachmentRow) (d : DB) : DB :=
  mkDB (threads d) (messages d) l (thread_personas d)
       (pinned_messages d) (user_preferences d).
Definition with_thread_personas (l : list ThreadPersonaRow) (d : DB) : DB :=
  mkDB (threads d) (messages d) (file_attachments d) l
       (pinned_messages d) (user_preferences d).

(** *** Queries *)

(** [.single()]: exactly one row, or the "not found" error. *)
Definition single {A} (rows : list A) : Response A :=
  match rows with
  | [r] => answered r
  | _ => failed not_found
  end.

Definition Query (A : Type) : Type := DB -> Response A * DB.

(** [from(t).select(..).eq(..).single()] *)
Definition select_single {A} (table : DB -> list A) (p : A -> bool) : Query A :=
  fun d => (single (filter p (table d)), d).

(** [from("threads").insert(row)]; [id] is the primary key. *)
Definition insert_thread (row : ThreadRow) : Query unit :=
  fun d =>
    if existsb (fun t => th_id t =? th_id row) (threads d)
    then (failed duplicate_key, d)
    else (done, with_threads (threads d ++ [row]) d).

(** The columns an upsert of a message supplies. On a conflict the row
    with that [id] takes them and keeps what is not supplied. *)
Definition overwrite (new old : MessageRow) : MessageRow :=
  mkMessage (m_id new) (m_thread_id new) (m_user_id new) (m_parts new)
            (m_role new) (m_content new) (m_created_at new) (m_updated_at old).

(** The rows of a table after an upsert on [id]. *)
Definition upsert_rows (row : MessageRow) (rows : list MessageRow) : list MessageRow :=
  if existsb (fun m => m_id m =? m_id row) rows
  then map (fun m => if m_id m =? m_id row then overwrite row m else m) rows
  else rows ++ [row].

(** [from("messages").upsert(row, {onConflict: 'id', ignoreDuplicates: false})] *)
Definition upsert_message (row : MessageRow) : Query unit :=
  fun d => (done, with_messages (upsert_rows row (messages d)) d).

Fixpoint distinct (ids : list string) : bool :=
  match ids with
  | [] => true
  | i :: rest => negb (existsb (String.eqb i) rest) && distinct rest
  end.

(** [from("file_attachments").insert(rows)]: all rows or none. *)
Definition insert_file_attachments (rows : list FileAttachmentRow) : Query unit :=
  fun d =>
    if distinct (map fa_id (file_attachments d ++ rows))
    then (done, with_file_attachments (file_attachments d ++ rows) d)
    else (failed duplicate_key, d).

(** [from("threads").update({last_message_at}).eq("id", id)] *)
Definition touch_thread (id : string) (at_ : Z) : Query unit :=
  fun d =>
    (done, with_threads
             (map (fun t => if th_id t =? id
                            then mkThread (th_id t) (th_title t) (th_user_id t) (Some at_)
                            else t)
                  (threads d)) d).

(** [from("messages").update({content, updated_at}).eq(..).select()]:
    the rows that matched, as they are after the update. *)
Definition rewrite (content : string) (at_ : Z) (m : MessageRow) : MessageRow :=
  mkMessage (m_id m) (m_thread_id m) (m_user_id m) (m_parts m)
            (m_role m) content (m_created_at m) (Some at_).

Definition update_messages (p : MessageRow -> bool) (content : string) (at_ : Z)
  : Query (list MessageRow) :=
  fun d =>
    (answered (map (rewrite content at_) (filter p (messages d))),
     with_messages (map (fun m => if p m then rewrite content at_ m else m) (messages d)) d).

(** [from("thread_personas").delete().eq(..).eq(..)] *)
Definition delete_thread_personas (p : ThreadPersonaRow -> bool) : Query unit :=
  fun d =>
    (done, with_thread_personas (filter (fun r => negb (p r)) (thread_personas d)) d).

(** [from("thread_personas").insert(row).select().single()]. The source
    inserts without a conflict target; the table refuses a second row
    for the thread and user of a row it holds, with the duplicate-key
    error (a thread persona is unique per thread and user). *)
Definition insert_thread_persona (row : ThreadPersonaRow) : Query ThreadPersonaRow :=
  fun d =>
    if existsb (fun r => (tp_thread_id r =? tp_thread_id row)
                         && (tp_user_id r =? tp_user_id row))
               (thread_personas d)
    then (failed duplicate_key, d)
    else (answered row, with_thread_personas (thread_personas d ++ [row]) d).

(** [from("user_preferences").select("*").eq("user_id", u).single()] *)
Definition select_user_preferences (user : string) : Query UserPreferencesRow :=
  fun d =>
    match user_preferences d with
    | None => (failed undefined_table, d)
    | Some rows => (single (filter (fun r => pref_user_id r =? user) rows), d)
    end.

End Store.

(** ** The world a repository function runs in *)

Module World.
Import Store.

(** What [supabase.auth.getUser()] answers: the user's id, if any. *)
Record Auth : Type := mkAuth
  { auth_user : option string; auth_error : option PgError }.

(** What may happen to one store call: the call comes back with an error
    and has no effect, or another client's writes land before the call is
    served, or nothing. *)
Inductive Disturbance : Type :=
| Calm
| Fails (e : PgError)
| Raced (others : DB -> DB).

Inductive Table : Type :=
| Threads | Messages | FileAttachments | ThreadPersonas | PinnedMessages | UserPreferences.

Inductive Verb : Type :=
| Select | Insert | Upsert | Update | Delete.

Inductive Level : Type := Log | Warn | Error.

Record World : Type := mkWorld
  { session : Auth;
    db : DB;
    now : Z;                           (* what [new Date()] reads *)
    entropy : nat -> byte;             (* the random source *)
    drawn : nat;                       (* bytes drawn from it so far *)
    weather : list Disturbance;        (* one per store call to come; none left means calm *)
    calls : list (Table * Verb);       (* store calls issued, oldest first *)
    console : list (Level * string) }.

Definition is_race (d : Disturbance) : bool :=
  match d with Raced _ => true | _ => false end.

(** No other client writes while the function runs. *)
Definition alone (w : World) : bool := forallb (fun d => negb (is_race d)) (weather w).

Definition same_table (a b : Table) : bool :=
  match a, b with
  | Threads, Threads | Messages, Messages | FileAttachments, FileAttachments
  | ThreadPersonas, ThreadPersonas | PinnedMessages, PinnedMessages
  | UserPreferences, UserPreferences => true
  | _, _ => false
  end.

Definition same_verb (a b : Verb) : bool :=
  match a, b with
  | Select, Select | Insert, Insert | Upsert, Upsert
  | Update, Update | Delete, Delete => true
  | _, _ => false
  end.

Definition same_call (c d : Table * Verb) : bool :=
  same_table (fst c) (fst d) && same_verb (snd c) (snd d).

Definition count_calls (c : Table * Verb) (l : list (Table * Verb)) : nat :=
  List.length (filter (same_call c) l).

Definition is_warning (entry : Level * string) : bool :=
  match fst entry with Warn => true | _ => false end.

End World.

(** ** Effects: state, exceptions, store calls *)

Module Eff.
Import Store World.

Inductive Thrown : Type :=
| StoreError (e : PgError)       (* an error object of the store, thrown as it is *)
| JsError (msg : string).        (* [new Error(msg)] *)

Inductive Outcome (A : Type) : Type :=
| Returned (a : A)
| Threw (t : Thrown).

Arguments Returned {A} _.
Arguments Threw {A} _.

Definition M (A : Type) : Type := World -> Outcome A * World.

Definition ret {A} (a : A) : M A := fun w => (Returned a, w).

Definition bind {A B} (m : M A) (k : A -> M B) : M B :=
  fun w =>
    match m w with
    | (Returned a, w') => k a w'
    | (Threw t, w') => (Threw t, w')
    end.

Definition throw {A} (t : Thrown) : M A := fun w => (Threw t, w).

(** [try { body } catch (error) { handler }] *)
Definition try_catch {A} (body : M A) (handler : Thrown -> M A) : M A :=
  fun w =>
    match body w with
    | (Returned a, w') => (Returned a, w')
    | (Threw t, w') => handler t w'
    end.

Definition result {A} (m : M A) (w : World) : Outcome A := fst (m w).
Definition after {A} (m : M A) (w : World) : World := snd (m w).

(** What the store makes of a query under one disturbance. *)
Definition serve {A} (d : Disturbance) (q : Query A) (base : DB) : Response A * DB :=
  match d with
  | Calm => q base
  | Fails e => (failed e, base)
  | Raced others => q (others base)
  end.

Definition next_disturbance (w : World) : Disturbance :=
  match weather w with
  | [] => Calm
  | d :: _ => d
  end.

(** The answer the next store call gets, if it is this query. *)
Definition answer {A} (q : Query A) (w : World) : Response A :=
  fst (serve (next_disturbance w) q (db w)).

(** [await supabase.from(t)...]: one round trip. *)
Definition from {A} (t : Table) (v : Verb) (q : Query A) : M (Response A) :=
  fun w =>
    let r := serve (next_disturbance w) q (db w) in
    (Returned (fst r),
     mkWorld (session w) (snd r) (now w) (entropy w) (drawn w)
             (tl (weather w)) (calls w ++ [(t, v)]) (console w)).

(** [await supabase.auth.getUser()] *)
Definition auth_getUser : M Auth := fun w => (Returned (session w), w).

(** [new Date()]: the clock as it stands when the function is called;
    the time the awaited calls take is not counted. *)
Definition new_Date : M Z := fun w => (Returned (now w), w).

(** [crypto.getRandomValues(new Uint8Array(n))] *)
Definition getRandomValues (n : nat) : M (list byte) :=
  fun w =>
    (Returned (map (entropy w) (seq (drawn w) n)),
     mkWorld (session w) (db w) (now w) (entropy w) (drawn w + n)
             (weather w) (calls w) (console w)).

(** [console.log], [console.warn], [console.error]; the text is kept
    without its pictograph and without the object printed after it. *)
Definition say (l : Level) (text : string) : M unit :=
  fun w =>
    (Returned tt,
     mkWorld (session w) (db w) (now w) (entropy w) (drawn w)
             (weather w) (calls w) (console w ++ [(l, text)])).

(** [uuidv4()] *)
Definition uuidv4 : M string :=
  bind (getRandomValues 16) (fun rnds => ret (Uuid.v4_of rnds)).

End Eff.

Declare Scope eff_scope.
Delimit Scope eff_scope with eff.
Notation "x <- m ;; k" := (Eff.bind m (fun x => k))
  (at level 61, m at next level, right associativity) : eff_scope.
Notation "m ;; k" := (Eff.bind m (fun _ => k))
  (at level 61, right associativity) : eff_scope.

(** ** The repository functions *)

Module Queries.
Import Store World Eff.
Local Open Scope eff_scope.

(** *** Values the functions receive *)

(** The message of the chat library, as far as the functions read it. *)
Record UIMessage : Type := mkUIMessage
  { ui_id : option string;
    ui_role : string;
    ui_content : string;
    ui_parts : option (list Part);
    ui_createdAt : option Z }.

(** Modelled from the spec: the type of an upload result, which is
    declared in [./file-upload] and missing here (section 4.3: the
    optional list of newly uploaded file results). The fields are those
    [createMessage] reads, each possibly absent. *)
Record FileUploadResult : Type := mkFileUploadResult
  { fu_id : option string;
    fu_fileName : string;
    fu_fileType : option string;
    fu_size : option Z;
    fu_fileSize : option Z;
    fu_url : option string;
    fu_fileUrl : option string;
    fu_thumbnailUrl : option string;
    fu_content : option string;
    fu_extractedText : option string }.

(** JavaScript truthiness of a string that may be missing. *)
Definition truthy (s : option string) : bool :=
  match s with
  | Some t => negb (t =? "")
  | None => false
  end.

(** [a || b] on such strings. *)
Definition or_else (a b : option string) : option string :=
  if truthy a then a else b.

(** [s || d] with a string default. *)
Definition or_string (a : option string) (d : string) : string :=
  match or_else a (Some d) with Some t => t | None => d end.

(** [s || null] *)
Definition or_null (a : option string) : option string :=
  if truthy a then a else None.

(** [n || 0] *)
Definition or_zero (n : option Z) : Z :=
  match n with Some z => z | None => 0%Z end.

(** *** [generateShareToken] (lines 7-15) *)

Definition generateShareToken : M string :=
  array <- getRandomValues 16 ;;
  ret (shareTokenOf array).

(** *** [createMessage] (lines 207-393) *)

(** [.eq("id", threadId).eq("user_id", user.id)] on threads. *)
Definition thread_owned (threadId user : string) (t : ThreadRow) : bool :=
  (th_id t =? threadId) && (th_user_id t =? user).

(** Lines 221-254: make sure the thread row is there. *)
Definition ensureThreadExists (threadId user : string) : M unit :=
  try_catch
    (existing <- from Threads Select
        (select_single threads (thread_owned threadId user)) ;;
     match error existing with
     | Some threadCheckError =>
         if code threadCheckError =? "PGRST116" then
           say Log "Thread doesn't exist, creating it before message..." ;;
           created <- from Threads Insert
             (insert_thread (mkThread threadId "New Chat" user None)) ;;
           match error created with
           | Some createError =>
               say Error "Failed to create thread:" ;;
               throw (StoreError createError)
           | None => say Log "Thread created successfully"
           end
         else
           say Error "Thread check failed:" ;;
           throw (StoreError threadCheckError)
     | None => say Log "Thread already exists"
     end)
    (fun error =>
       say Error "Error ensuring thread exists:" ;;
       throw error).

Definition has_uploads (fileAttachments : option (list FileUploadResult)) : bool :=
  match fileAttachments with
  | Some (_ :: _) => true
  | _ => false
  end.

Definition uploads (fileAttachments : option (list FileUploadResult)) : list FileUploadResult :=
  match fileAttachments with
  | Some l => l
  | None => []
  end.

(** Lines 256-274: the parts, with the uploads appended as one fragment. *)
Definition updatedParts (message : UIMessage)
    (fileAttachments : option (list FileUploadResult)) : list Part :=
  let parts := match ui_parts message with Some p => p | None => [] end in
  if has_uploads fileAttachments then
    parts ++
      [FileAttachmentsPart
         (map (fun attachment =>
                 mkAttachmentPart (fu_id attachment) (fu_fileName attachment)
                   (fu_fileType attachment) (or_zero (fu_size attachment))
                   (fu_url attachment) (fu_thumbnailUrl attachment)
                   (fu_content attachment) (fu_extractedText attachment))
              (uploads fileAttachments))]
  else parts.

(** Lines 276-279: the id of the row. *)
Definition resolveMessageId (message : UIMessage) : M string :=
  match ui_id message with
  | Some id => if truthy (Some id) && Uuid.is_uuid id then ret id else uuidv4
  | None => uuidv4
  end.

(** [(message.createdAt || new Date())] *)
Definition createdAt_or_now (message : UIMessage) : M Z :=
  match ui_createdAt message with
  | Some d => ret d
  | None => new_Date
  end.

Definition has_url (attachment : FileUploadResult) : bool :=
  truthy (fu_fileUrl attachment) || truthy (fu_url attachment).

(** The callback of [filter] at lines 332-339. *)
Definition keepAttachment (attachment : FileUploadResult) : M bool :=
  if negb (truthy (fu_fileUrl attachment)) && negb (truthy (fu_url attachment)) then
    say Warn ("Skipping attachment without URL: " ++ fu_fileName attachment) ;;
    ret false
  else ret true.

Fixpoint filterM {A} (keep : A -> M bool) (l : list A) : M (list A) :=
  match l with
  | [] => ret []
  | a :: rest =>
      k <- keep a ;;
      kept <- filterM keep rest ;;
      ret (if k then a :: kept else kept)
  end.

Fixpoint mapM {A B} (f : A -> M B) (l : list A) : M (list B) :=
  match l with
  | [] => ret []
  | a :: rest =>
      b <- f a ;;
      bs <- mapM f rest ;;
      ret (b :: bs)
  end.

(** The callback of [map] at lines 340-357. *)
Definition attachmentRow (threadId user messageId : string)
    (attachment : FileUploadResult) : M FileAttachmentRow :=
  attachmentId <- match fu_id attachment with
                  | Some id => if truthy (Some id) then ret id else uuidv4
                  | None => uuidv4
                  end ;;
  created_at <- new_Date ;;
  ret (mkFileAttachment attachmentId messageId threadId user
         (fu_fileName attachment)
         (or_string (fu_fileType attachment) "text/plain")
         (or_zero (fu_fileSize attachment))
         (or_string (or_else (fu_fileUrl attachment) (fu_url attachment)) "")
         (or_null (fu_thumbnailUrl attachment))
         created_at).

(** Lines 317-378: the attachment rows. *)
Definition insertFileAttachments (threadId user messageId : string)
    (fileAttachments : option (list FileUploadResult)) : M unit :=
  if has_uploads fileAttachments then
    say Log "File attachments to insert:" ;;
    try_catch
      (kept <- filterM keepAttachment (uploads fileAttachments) ;;
       attachmentsToInsert <- mapM (attachmentRow threadId user messageId) kept ;;
       match attachmentsToInsert with
       | _ :: _ =>
           say Log "Inserting file attachments:" ;;
           inserted <- from FileAttachments Insert
             (insert_file_attachments attachmentsToInsert) ;;
           match error inserted with
           | Some attachmentsError =>
               say Error "Failed to create file attachments:" ;;
               throw (StoreError attachmentsError)
           | None => say Log "File attachments created successfully"
           end
       | [] => say Log "No valid file attachments to insert"
       end)
      (fun _ => say Error "Error processing file attachments:")
  else ret tt.

(** Lines 380-392: the thread's last activity. *)
Definition touchThread (threadId : string) (message : UIMessage) : M unit :=
  last_message_at <- createdAt_or_now message ;;
  updated <- from Threads Update (touch_thread threadId last_message_at) ;;
  match error updated with
  | Some threadError =>
      say Error "Failed to update thread:" ;;
      throw (StoreError threadError)
  | None => say Log "Thread updated successfully"
  end.

(** Lines 256-393: the message row, its attachments, the thread's
    last activity. *)
Definition persistMessage (threadId user : string) (message : UIMessage)
    (fileAttachments : option (list FileUploadResult)) : M unit :=
  let parts := updatedParts message fileAttachments in
  messageId <- resolveMessageId message ;;
  say Log "Message ID validation:" ;;
  created_at <- createdAt_or_now message ;;
  upserted <- from Messages Upsert
    (upsert_message
       (mkMessage messageId threadId user parts
          (ui_role message) (ui_content message) created_at None)) ;;
  match error upserted with
  | Some messageError =>
      say Error "Failed to create message:" ;;
      say Error "Message creation error details:" ;;
      throw (StoreError messageError)
  | None =>
      say Log "Message created successfully" ;;
      insertFileAttachments threadId user messageId fileAttachments ;;
      touchThread threadId message
  end.

Definition createMessage (threadId : string) (message : UIMessage)
    (fileAttachments : option (list FileUploadResult)) : M unit :=
  auth <- auth_getUser ;;
  match auth_user auth with
  | None => throw (JsError "User not authenticated")
  | Some user =>
      say Log "Creating message:" ;;
      ensureThreadExists threadId user ;;
      persistMessage threadId user message fileAttachments
  end.

(** *** [isPinned] (lines 999-1015) *)

(** The three filters of the lookup. *)
Definition pin_of (user threadId messageId : string) (r : PinnedMessageRow) : bool :=
  (pin_user_id r =? user) && (pin_thread_id r =? threadId)
  && (pin_message_id r =? messageId).

Definition isPinned (threadId messageId : string) : M bool :=
  auth <- auth_getUser ;;
  match auth_user auth with
  | None => ret false
  | Some user =>
      found <- from PinnedMessages Select
        (select_single pinned_messages (pin_of user threadId messageId)) ;;
      match error found with
      | Some e =>
          if negb (code e =? "PGRST116") then throw (StoreError e)
          else ret (match data found with Some _ => true | None => false end)
      | None => ret (match data found with Some _ => true | None => false end)
      end
  end.

(** *** [setThreadPersona] (lines 1018-1067) *)

(** [.eq("thread_id", threadId).eq("user_id", user.id)] on thread personas. *)
Definition persona_of (threadId user : string) (r : ThreadPersonaRow) : bool :=
  (tp_thread_id r =? threadId) && (tp_user_id r =? user).

Definition setThreadPersona (threadId personaId : string) : M (option ThreadPersonaRow) :=
  auth <- auth_getUser ;;
  match auth_user auth with
  | None => throw (JsError "User not authenticated")
  | Some user =>
      existing <- from Threads Select
        (select_single threads (thread_owned threadId user)) ;;
      match error existing with
      | Some threadCheckError =>
          if code threadCheckError =? "PGRST116" then
            say Log "Thread doesn't exist, creating it before setting persona..." ;;
            created <- from Threads Insert
              (insert_thread (mkThread threadId "New Chat" user None)) ;;
            match error created with
            | Some createError =>
                say Error "Failed to create thread:" ;;
                throw (StoreError createError)
            | None => say Log "Thread created successfully"
            end
          else throw (StoreError threadCheckError)
      | None => ret tt
      end ;;
      (* the answer of the delete is not looked at *)
      from ThreadPersonas Delete
        (delete_thread_personas (persona_of threadId user)) ;;
      inserted <- from ThreadPersonas Insert
        (insert_thread_persona (mkThreadPersona threadId personaId user)) ;;
      match error inserted with
      | Some e => throw (StoreError e)
      | None => ret (data inserted)
      end
  end.

(** *** [updateMessageInDatabase] (lines 1167-1316) *)

(** Lines 1264-1311: what is made of the answer to the update, and the
    second read of the row. *)
Definition verifyUpdate (messageId newContent : string)
    (updateResult : Response (list MessageRow)) : M bool :=
  match error updateResult with
  | Some updateError =>
      say Error "Failed to update message:" ;;
      say Error "Update error details:" ;;
      ret false
  | None =>
      match data updateResult with
      | None | Some [] =>
          say Error "No rows were updated - this might indicate a permission issue" ;;
          ret false
      | Some (_ :: _) =>
          say Log "Message updated successfully:" ;;
          verified <- from Messages Select
            (select_single messages (fun m => m_id m =? messageId)) ;;
          match error verified, data verified with
          | Some verifyError, _ =>
              say Error "Failed to verify update:" ;;
              ret false
          | None, None =>
              (* reading a field of [null] throws *)
              throw (JsError "Cannot read properties of null")
          | None, Some verifyData =>
              if m_content verifyData =? newContent then
                say Log "Update verified - content matches expected value" ;;
                ret true
              else
                say Error "Update verification failed - content doesn't match:" ;;
                ret false
          end
      end
  end.

(** Lines 1206-1311: the update, scoped by who may make it. *)
Definition applyUpdate (messageId newContent user : string)
    (messageCheck : MessageRow) : M bool :=
  let isUserMessage := m_user_id messageCheck =? user in
  let isAssistantMessage := m_role messageCheck =? "assistant" in
  say Log "Message type analysis:" ;;
  if isUserMessage then
    say Log "Updating user message..." ;;
    updated_at <- new_Date ;;
    updateResult <- from Messages Update
      (update_messages
         (fun m => (m_id m =? messageId) && (m_user_id m =? user))
         newContent updated_at) ;;
    verifyUpdate messageId newContent updateResult
  else if isAssistantMessage then
    say Log "Updating assistant message..." ;;
    threadCheck <- from Threads Select
      (select_single threads (thread_owned (m_thread_id messageCheck) user)) ;;
    match error threadCheck, data threadCheck with
    | Some threadError, _ =>
        say Error "Thread verification failed:" ;;
        ret false
    | None, None => throw (JsError "Cannot read properties of null")
    | None, Some _ =>
        say Log "Thread verified, belongs to user:" ;;
        updated_at <- new_Date ;;
        updateResult <- from Messages Update
          (update_messages
             (fun m => (m_id m =? messageId)
                       && (m_thread_id m =? m_thread_id messageCheck))
             newContent updated_at) ;;
        verifyUpdate messageId newContent updateResult
    end
  else
    say Error "Unknown message type or permission denied" ;;
    ret false.

(** Lines 1183-1204: the row to update, read before anything is
    written. *)
Definition checkRow (messageId newContent user : string) : M bool :=
  say Log "User authenticated:" ;;
  checked <- from Messages Select
    (select_single messages (fun m => m_id m =? messageId)) ;;
  match error checked, data checked with
  | Some checkError, _ =>
      say Error "Failed to check message:" ;;
      ret false
  | None, None =>
      (* reading a field of [null] throws *)
      throw (JsError "Cannot read properties of null")
  | None, Some messageCheck =>
      say Log "Message to update:" ;;
      applyUpdate messageId newContent user messageCheck
  end.

(** Lines 1172-1181: who calls. *)
Definition checkAndUpdate (messageId newContent : string) : M bool :=
  auth <- auth_getUser ;;
  match auth_error auth, auth_user auth with
  | None, Some user => checkRow messageId newContent user
  | _, _ =>
      say Error "User not authenticated:" ;;
      ret false
  end.

(** Lines 1167-1171 and 1312-1315: the handler around it all. *)
Definition updateMessageInDatabase (messageId newContent : string) : M bool :=
  say Log "updateMessageInDatabase called for message:" ;;
  say Log "New content preview:" ;;
  try_catch
    (checkAndUpdate messageId newContent)
    (fun error =>
       say Error "Unexpected error in updateMessageInDatabase:" ;;
       ret false).

(** *** [getUserPreferences] (lines 1319-1346) *)

Definition getUserPreferences : M (option UserPreferencesRow) :=
  auth <- auth_getUser ;;
  match auth_user auth with
  | None => throw (JsError "User not authenticated")
  | Some user =>
      try_catch
        (found <- from UserPreferences Select (select_user_preferences user) ;;
         match error found with
         | Some e =>
             if negb (code e =? "PGRST116") then
               if code e =? "42P01" then
                 say Warn "user_preferences table does not exist yet, falling back to localStorage" ;;
                 ret None
               else throw (StoreError e)
             else ret (data found)
         | None => ret (data found)
         end)
        (fun error =>
           say Warn "Failed to query user_preferences table:" ;;
           ret None)
  end.

(** *** Vocabulary of the statements *)

(** The id [uuidv4()] returns when called in world [w]. *)
Definition nextUuid (w : World) : string :=
  Uuid.v4_of (map (entropy w) (seq (drawn w) 16)).

(** The message rows with a given id. *)
Definition rows_with_id (id : string) (rows : list MessageRow) : list MessageRow :=
  filter (fun m => m_id m =? id) rows.

(** An attachment row is the row of an upload of a message: every
    column but the id and the time of creation. *)
Definition stored_for (threadId user messageId : string)
    (row : FileAttachmentRow) (attachment : FileUploadResult) : Prop :=
  fa_message_id row = messageId /\
  fa_thread_id row = threadId /\
  fa_user_id row = user /\
  fa_file_name row = fu_fileName attachment /\
  Some (fa_file_url row) = or_else (fu_fileUrl attachment) (fu_url attachment) /\
  fa_file_type row = or_string (fu_fileType attachment) "text/plain" /\
  fa_file_size row = or_zero (fu_fileSize attachment) /\
  fa_thumbnail_url row = or_null (fu_thumbnailUrl attachment).

(** The ids of the rows prepared for the uploads that are kept, in
    order: the id the upload carries, or else the id generated from the
    next sixteen bytes of the random source. *)
Fixpoint attachmentIds (entropy : nat -> byte) (drawn : nat)
    (kept : list FileUploadResult) : list string :=
  match kept with
  | [] => []
  | attachment :: rest =>
      match fu_id attachment with
      | Some id =>
          if truthy (Some id) then id :: attachmentIds entropy drawn rest
          else Uuid.v4_of (map entropy (seq drawn 16))
               :: attachmentIds entropy (drawn + 16) rest
      | None =>
          Uuid.v4_of (map entropy (seq drawn 16))
          :: attachmentIds entropy (drawn + 16) rest
      end
  end.

(** The rows prepared for the uploads that are kept, when [drawn] bytes
    of the random source were used before: one row for each upload, in
    order, with its id and its columns. *)
Definition prepared (threadId user messageId : string) (entropy : nat -> byte)
    (drawn : nat) (rows : list FileAttachmentRow) (kept : list FileUploadResult) : Prop :=
  Forall2 (stored_for threadId user messageId) rows kept /\
  map fa_id rows = attachmentIds entropy drawn kept.

(** The bytes of the random source used once the id of the message is
    there: sixteen more when the id is generated. *)
Definition drawnForId (message : UIMessage) (w : World) : nat :=
  match ui_id message with
  | Some id => if Uuid.is_uuid id then drawn w else drawn w + 16
  | None => drawn w + 16
  end.

(** The console line for an upload without URL. *)
Definition skipped (attachment : FileUploadResult) : Level * string :=
  (Warn, ("Skipping attachment without URL: " ++ fu_fileName attachment)%string).



(** The time [createMessage] stamps the message and the thread with. *)
Definition createdAtOf (message : UIMessage) (w : World) : Z :=
  match ui_createdAt message with
  | Some d => d
  | None => now w
  end.

(** The id [createMessage] stores the message under. *)
Definition messageIdOf (message : UIMessage) (w : World) : string :=
  match ui_id message with
  | Some id => if Uuid.is_uuid id then id else nextUuid w
  | None => nextUuid w
  end.

(** A thread row after [createMessage] has stamped the thread. *)
Definition stamped (threadId : string) (at_ : Z) (t : ThreadRow) : ThreadRow :=
  if th_id t =? threadId
  then mkThread (th_id t) (th_title t) (th_user_id t) (Some at_)
  else t.

(** The row [createMessage] upserts when called in world [w]. *)
Definition messageRowOf (threadId user : string) (message : UIMessage)
    (fileAttachments : option (list FileUploadResult)) (w : World) : MessageRow :=
  mkMessage (messageIdOf message w) threadId user
    (updatedParts message fileAttachments)
    (ui_role message) (ui_content message) (createdAtOf message w) None.

End Queries.

(** ** Further calls on the store *)

(** The calls of the functions below: ordered reads, reads of the first
    row, deletes. *)

Module MoreStore.
Import Store.

(** [.order(column, {ascending})]: the rows by their key. Rows with
    equal keys come in table order here; the store promises no order
    among them, and no statement below relies on one. *)
Fixpoint place {A} (before : A -> A -> bool) (a : A) (rows : list A) : list A :=
  match rows with
  | [] => [a]
  | b :: rest => if before a b then a :: rows else b :: place before a rest
  end.

Definition in_order (ascending : bool) (x y : Z) : bool :=
  if ascending then (x <=? y)%Z else (y <=? x)%Z.

Definition ordered {A} (key : A -> Z) (ascending : bool) (rows : list A) : list A :=
  fold_right (place (fun a b => in_order ascending (key a) (key b))) [] rows.

(** [from(t).select("*").eq(..).order("created_at", {ascending})] *)
Definition select_ordered {A} (table : DB -> list A) (p : A -> bool)
    (key : A -> Z) (ascending : bool) : Query (list A) :=
  fun d => (answered (ordered key ascending (filter p (table d))), d).

(** [from(t).select(..).eq(..)] *)
Definition select_rows {A} (table : DB -> list A) (p : A -> bool) : Query (list A) :=
  fun d => (answered (filter p (table d)), d).

(** [from(t).select(..).eq(..).order(..).limit(1).single()] *)
Definition select_first {A} (table : DB -> list A) (p : A -> bool)
    (key : A -> Z) (ascending : bool) : Query A :=
  fun d => (single (firstn 1 (ordered key ascending (filter p (table d)))), d).

(** [from("messages").delete().eq(..).gte(..)] *)
Definition delete_messages (p : MessageRow -> bool) : Query unit :=
  fun d => (done, with_messages (filter (fun m => negb (p m)) (messages d)) d).

Definition with_pinned_messages (l : list PinnedMessageRow) (d : DB) : DB :=
  mkDB (threads d) (messages d) (file_attachments d) (thread_personas d)
       l (user_preferences d).

(** [from("pinned_messages").delete().eq(..).eq(..).eq(..)] *)
Definition delete_pinned_messages (p : PinnedMessageRow -> bool) : Query unit :=
  fun d =>
    (done, with_pinned_messages (filter (fun r => negb (p r)) (pinned_messages d)) d).

Definition with_user_preferences (l : option (list UserPreferencesRow)) (d : DB) : DB :=
  mkDB (threads d) (messages d) (file_attachments d) (thread_personas d)
       (pinned_messages d) l.

(** [from("user_preferences").delete().eq("user_id", u)] *)
Definition delete_user_preferences (user : string) : Query unit :=
  fun d =>
    match user_preferences d with
    | None => (failed undefined_table, d)
    | Some rows =>
        (done,
         with_user_preferences
           (Some (filter (fun r => negb (pref_user_id r =? user)) rows)) d)
    end.

End MoreStore.

(** ** More of the repository functions *)

Module MoreQueries.
Import Store World Eff Queries MoreStore.
Local Open Scope eff_scope.

(** [array.forEach(f)] with an effect per element. *)
Fixpoint each {A} (f : A -> M unit) (l : list A) : M unit :=
  match l with
  | [] => ret tt
  | a :: rest => f a ;; each f rest
  end.

(** [data || []] *)
Definition or_empty {A} (rows : option (list A)) : list A :=
  match rows with
  | Some l => l
  | None => []
  end.

(** *** [getFileAttachmentsByMessageId], [getFileAttachmentsByThreadId]
    (lines 185-205) *)

Definition getFileAttachmentsByMessageId (messageId : string) : M (list FileAttachmentRow) :=
  found <- from FileAttachments Select
    (select_ordered file_attachments (fun f => fa_message_id f =? messageId)
       fa_created_at true) ;;
  match error found with
  | Some e => throw (StoreError e)
  | None => ret (or_empty (data found))
  end.

Definition getFileAttachmentsByThreadId (threadId : string) : M (list FileAttachmentRow) :=
  found <- from FileAttachments Select
    (select_ordered file_attachments (fun f => fa_thread_id f =? threadId)
       fa_created_at true) ;;
  match error found with
  | Some e => throw (StoreError e)
  | None => ret (or_empty (data found))
  end.

(** *** [deleteTrailingMessages] (lines 395-404) *)

(** A [Date]: a time, kept as its milliseconds, or the Invalid Date. *)
Inductive JsDate : Type :=
| ValidDate (ms : Z)
| InvalidDate.

(** [date.toISOString()]: the text of a valid date, kept as the time it
    denotes; on the Invalid Date it throws a RangeError, kept by its
    message. *)
Definition toISOString (date : JsDate) : M Z :=
  match date with
  | ValidDate ms => ret ms
  | InvalidDate => throw (JsError "Invalid time value")
  end.

(** The two filters of the delete; [gte] is absent when the caller
    leaves it out. *)
Definition trailing (threadId : string) (createdAt : Z) (gte : option bool)
    (m : MessageRow) : bool :=
  let gte := match gte with Some b => b | None => true end in
  (m_thread_id m =? threadId)
  && (if gte then (createdAt <=? m_created_at m)%Z else (createdAt <? m_created_at m)%Z).

(** The text of the date is computed while the query is built, before
    the call is made. *)
Definition deleteTrailingMessages (threadId : string) (createdAt : JsDate)
    (gte : option bool) : M unit :=
  iso <- toISOString createdAt ;;
  deleted <- from Messages Delete
    (delete_messages (trailing threadId iso gte)) ;;
  match error deleted with
  | Some e => throw (StoreError e)
  | None => ret tt
  end.

(** *** [getFirstUserMessage] (lines 439-457) *)

(** The three columns the lookup selects. *)
Record FirstMessage : Type := mkFirstMessage
  { fm_id : string; fm_content : string; fm_created_at : Z }.

Definition first_columns (m : MessageRow) : FirstMessage :=
  mkFirstMessage (m_id m) (m_content m) (m_created_at m).

Definition user_message_of (threadId : string) (m : MessageRow) : bool :=
  (m_thread_id m =? threadId) && (m_role m =? "user").

Definition getFirstUserMessage (threadId : string) : M (option FirstMessage) :=
  found <- from Messages Select
    (select_first messages (user_message_of threadId) m_created_at true) ;;
  match error found with
  | Some e =>
      if code e =? "PGRST116" then ret None
      else throw (StoreError e)
  | None => ret (option_map first_columns (data found))
  end.

(** *** [unpinMessage] (lines 905-919) *)

Definition unpinMessage (threadId messageId : string) : M unit :=
  auth <- auth_getUser ;;
  match auth_user auth with
  | None => throw (JsError "User not authenticated")
  | Some user =>
      deleted <- from PinnedMessages Delete
        (delete_pinned_messages (pin_of user threadId messageId)) ;;
      match error deleted with
      | Some e => throw (StoreError e)
      | None => ret tt
      end
  end.

(** *** [removeThreadPersona] (lines 1098-1107) *)

Definition removeThreadPersona (threadId : string) : M unit :=
  auth <- auth_getUser ;;
  match auth_user auth with
  | None => throw (JsError "User not authenticated")
  | Some user =>
      deleted <- from ThreadPersonas Delete
        (delete_thread_personas (persona_of threadId user)) ;;
      match error deleted with
      | Some e => throw (StoreError e)
      | None => ret tt
      end
  end.

(** *** [deleteUserPreferences] (lines 1412-1421) *)

Definition deleteUserPreferences : M unit :=
  auth <- auth_getUser ;;
  match auth_user auth with
  | None => throw (JsError "User not authenticated")
  | Some user =>
      deleted <- from UserPreferences Delete (delete_user_preferences user) ;;
      match error deleted with
      | Some e => throw (StoreError e)
      | None => ret tt
      end
  end.

(** *** [getAllFileAttachments] (lines 1424-1458) *)

(** [threadTitles] is a plain object used as a map. Reading a key finds
    the object's own property, or one inherited from [Object.prototype],
    or nothing. *)
Inductive Looked : Type :=
| Own (title : string)
| Inherited
| Missing.

(** The property names every plain object inherits. *)
Definition inherited_names : list string :=
  ["constructor"; "__defineGetter__"; "__defineSetter__"; "hasOwnProperty";
   "__lookupGetter__"; "__lookupSetter__"; "isPrototypeOf";
   "propertyIsEnumerable"; "toString"; "valueOf"; "__proto__";
   "toLocaleString"].

Definition inherited (key : string) : bool :=
  existsb (String.eqb key) inherited_names.

(** [threadTitles[id] = title]: a new own property, shadowing an
    inherited one; assigning a string to [__proto__] does nothing. *)
Definition assign (id title : string) (titles : list (string * string))
  : list (string * string) :=
  if id =? "__proto__" then titles else (id, title) :: titles.

(** [threads?.forEach(thread => { threadTitles[thread.id] = thread.title })] *)
Definition threadTitlesOf (rows : option (list ThreadRow)) : list (string * string) :=
  fold_left (fun titles thread => assign (th_id thread) (th_title thread) titles)
            (or_empty rows) [].

Fixpoint own (key : string) (titles : list (string * string)) : option string :=
  match titles with
  | [] => None
  | (k, v) :: rest => if k =? key then Some v else own key rest
  end.

(** [threadTitles[key]] *)
Definition look (titles : list (string * string)) (key : string) : Looked :=
  match own key titles with
  | Some title => Own title
  | None => if inherited key then Inherited else Missing
  end.

(** What [thread_title] is set to: a text, or the inherited value found
    under the key, which is an object and so stands before the [||]. *)
Inductive ThreadTitle : Type :=
| Title (text : string)
| InheritedValue (key : string).

(** [threadTitles[file.thread_id] || "Unknown Thread"] *)
Definition thread_title (titles : list (string * string)) (key : string) : ThreadTitle :=
  match look titles key with
  | Own title => Title (or_string (Some title) "Unknown Thread")
  | Inherited => InheritedValue key
  | Missing => Title "Unknown Thread"
  end.

Definition getAllFileAttachments : M (list (FileAttachmentRow * ThreadTitle)) :=
  auth <- auth_getUser ;;
  match auth_user auth with
  | None => throw (JsError "User not authenticated")
  | Some user =>
      threads <- from Threads Select
        (select_rows threads (fun t => th_user_id t =? user)) ;;
      match error threads with
      | Some threadsError => throw (StoreError threadsError)
      | None =>
          let threadTitles := threadTitlesOf (data threads) in
          found <- from FileAttachments Select
            (select_ordered file_attachments (fun f => fa_user_id f =? user)
               fa_created_at false) ;;
          match error found with
          | Some e => throw (StoreError e)
          | None =>
              ret (map (fun file => (file, thread_title threadTitles (fa_thread_id file)))
                       (or_empty (data found)))
          end
      end
  end.

(** *** [getMessagesByThreadId] (lines 112-183) *)

(** What [fetch(url)] comes to: the promise is rejected (so is the one
    of [response.text()] when the body cannot be read), or a response
    arrives with its [ok] flag and its text. *)
Inductive Fetched : Type :=
| Rejected
| Responded (ok : bool) (text : string).

Section Network.

(** The network, as what it answers for each address: an address asked
    twice within one call is answered the same way. *)
Variable fetch : string -> Fetched.

(** [attachment.content || attachment.extractedText] *)
Definition has_content (attachment : AttachmentPart) : bool :=
  truthy (ap_content attachment) || truthy (ap_extractedText attachment).

(** [{...attachment, content, extractedText: content}] *)
Definition filled (content : string) (attachment : AttachmentPart) : AttachmentPart :=
  mkAttachmentPart (ap_id attachment) (ap_fileName attachment) (ap_fileType attachment)
    (ap_fileSize attachment) (ap_fileUrl attachment) (ap_thumbnailUrl attachment)
    (Some content) (Some content).

(** The attachments of a message's parts, in the order of the parts. *)
Definition attachments_of (parts : list Part) : list AttachmentPart :=
  flat_map (fun part => match part with
                        | FileAttachmentsPart attachments => attachments
                        | OtherPart _ _ => []
                        end) parts.

(** The callbacks of the three [Promise.all] run interleaved: each one
    runs up to its [await fetch(..)] before any answer arrives, so the
    announcements of all attachments come first, in the order of the
    rows; the answers arrive in an order the network decides. The
    console is written as in the run where they arrive in the order of
    the rows. The texts are kept up to the file name. *)
Definition announce (attachment : AttachmentPart) : M unit :=
  if negb (has_content attachment) && truthy (ap_fileUrl attachment) then
    say Log ("Fetching content for file: " ++ ap_fileName attachment)
  else ret tt.

(** Lines 131-160: one attachment, once its answer is there. *)
Definition withContent (attachment : AttachmentPart) : M AttachmentPart :=
  if has_content attachment then ret attachment
  else
    match ap_fileUrl attachment with
    | Some fileUrl =>
        if truthy (Some fileUrl) then
          match fetch fileUrl with
          | Responded true content =>
              say Log ("Fetched content for " ++ ap_fileName attachment) ;;
              ret (filled content attachment)
          | Responded false _ =>
              say Warn ("Failed to fetch content for " ++ ap_fileName attachment) ;;
              ret attachment
          | Rejected =>
              say Error ("Error fetching content for " ++ ap_fileName attachment) ;;
              ret attachment
          end
        else ret attachment
    | None => ret attachment
    end.

(** Lines 127-168: one part. *)
Definition partWithContent (part : Part) : M Part :=
  match part with
  | FileAttachmentsPart attachments =>
      attachmentsWithContent <- mapM withContent attachments ;;
      ret (FileAttachmentsPart attachmentsWithContent)
  | OtherPart _ _ => ret part
  end.

(** Lines 123-178: one message. *)
Definition messageWithContent (message : MessageRow) : M MessageRow :=
  updatedParts <- mapM partWithContent (m_parts message) ;;
  ret (mkMessage (m_id message) (m_thread_id message) (m_user_id message)
         updatedParts (m_role message) (m_content message)
         (m_created_at message) (m_updated_at message)).

Definition getMessagesByThreadId (threadId : string) : M (list MessageRow) :=
  found <- from Messages Select
    (select_ordered messages (fun m => m_thread_id m =? threadId)
       m_created_at true) ;;
  match error found with
  | Some e => throw (StoreError e)
  | None =>
      let rows := or_empty (data found) in
      each announce (flat_map (fun m => attachments_of (m_parts m)) rows) ;;
      mapM messageWithContent rows
  end.

(** *** [getFileAttachmentsWithContent] (lines 826-881) *)

(** An attachment row as the function hands it on. *)
Record AttachmentWithContent : Type := mkAttachmentWithContent
  { awc_id : string;
    awc_fileName : string;
    awc_fileType : string;
    awc_fileSize : Z;
    awc_fileUrl : string;
    awc_thumbnailUrl : option string;
    awc_content : option string;
    awc_extractedText : option string }.

Definition handedOn (attachment : FileAttachmentRow) (content : option string)
  : AttachmentWithContent :=
  mkAttachmentWithContent (fa_id attachment) (fa_file_name attachment)
    (fa_file_type attachment) (fa_file_size attachment) (fa_file_url attachment)
    (fa_thumbnail_url attachment) content content.

(** Lines 837-876: one row. *)
Definition rowWithContent (attachment : FileAttachmentRow) : M AttachmentWithContent :=
  if truthy (Some (fa_file_url attachment)) then
    match fetch (fa_file_url attachment) with
    | Responded true content => ret (handedOn attachment (Some content))
    | Responded false _ => ret (handedOn attachment None)
    | Rejected =>
        say Error "Error fetching file content:" ;;
        ret (handedOn attachment None)
    end
  else ret (handedOn attachment None).

Definition getFileAttachmentsWithContent (messageId : string)
  : M (list AttachmentWithContent) :=
  found <- from FileAttachments Select
    (select_ordered file_attachments (fun f => fa_message_id f =? messageId)
       fa_created_at true) ;;
  match error found with
  | Some e => throw (StoreError e)
  | None => mapM rowWithContent (or_empty (data found))
  end.

End Network.

(** *** Vocabulary of the statements *)

(** The base64 character a character of a share token stands for. *)
Definition plain_char (c : ascii) : ascii :=
  if Ascii.eqb c "-" then "+"%char
  else if Ascii.eqb c "_" then "/"%char
  else c.

(** A list is in the order of a key. *)
Fixpoint rising {A} (key : A -> Z) (l : list A) : Prop :=
  match l with
  | [] => True
  | a :: rest => (forall b, In b rest -> (key a <= key b)%Z) /\ rising key rest
  end.

Fixpoint falling {A} (key : A -> Z) (l : list A) : Prop :=
  match l with
  | [] => True
  | a :: rest => (forall b, In b rest -> (key b <= key a)%Z) /\ falling key rest
  end.

(** The content [getFileAttachmentsWithContent] finds for a row. *)
Definition content_of (fetch : string -> Fetched) (attachment : FileAttachmentRow)
  : option string :=
  if truthy (Some (fa_file_url attachment)) then
    match fetch (fa_file_url attachment) with
    | Responded true content => Some content
    | _ => None
    end
  else None.

(** How the function hands on a stored attachment: as it is, or filled
    with the text fetched from its address. *)
Inductive handed (fetch : string -> Fetched) : AttachmentPart -> AttachmentPart -> Prop :=
| handed_as_stored attachment :
    (has_content attachment = true \/ truthy (ap_fileUrl attachment) = false \/
     (forall url text, ap_fileUrl attachment = Some url ->
                       fetch url <> Responded true text)) ->
    handed fetch attachment attachment
| handed_filled attachment url text :
    has_content attachment = false ->
    ap_fileUrl attachment = Some url -> url <> "" ->
    fetch url = Responded true text ->
    handed fetch attachment (filled text attachment).

(** The same for a part and for a message: nothing but the attachments
    changes. *)
Inductive handed_part (fetch : string -> Fetched) : Part -> Part -> Prop :=
| handed_other type body : handed_part fetch (OtherPart type body) (OtherPart type body)
| handed_attachments l l' :
    Forall2 (handed fetch) l l' ->
    handed_part fetch (FileAttachmentsPart l) (FileAttachmentsPart l').

Definition handed_message (fetch : string -> Fetched) (m m' : MessageRow) : Prop :=
  m_id m' = m_id m /\ m_thread_id m' = m_thread_id m /\ m_user_id m' = m_user_id m /\
  m_role m' = m_role m /\ m_content m' = m_content m /\
  m_created_at m' = m_created_at m /\ m_updated_at m' = m_updated_at m /\
  Forall2 (handed_part fetch) (m_parts m) (m_parts m').

End MoreQueries.


(** ** Relations between the world before and after a run *)

Module Relations.
Import Store World Eff Queries.

(** Every run of [m] relates the world before to the world after. *)
Definition keeps (R : World -> World -> Prop) {A} (m : M A) : Prop :=
  forall w, R w (after m w).

(** The store calls of a run are all of an allowed kind. *)
Definition issues (allowed : Table * Verb -> bool) (w w' : World) : Prop :=
  exists l, calls w' = calls w ++ l /\ forallb allowed l = true.

(** When nobody else writes, the run leaves one part of the store as it
    was; and a calm world stays calm. *)
Definition leaves {X} (part : DB -> X) (w w' : World) : Prop :=
  alone w = true ->
  alone w' = true /\ part (db w') = part (db w) /\ (weather w = [] -> weather w' = []).

(** The run touches neither the store nor what is still to come from
    it; it may draw random bytes and write to the console. *)
Definition same_store (w w' : World) : Prop :=
  db w' = db w /\ weather w' = weather w /\ calls w' = calls w /\
  now w' = now w /\ session w' = session w /\ entropy w' = entropy w.

(** The run reads the same clock, session and random bytes after as
    before. *)
Definition same_inputs (w w' : World) : Prop :=
  now w' = now w /\ session w' = session w /\
  entropy w' = entropy w /\ drawn w' = drawn w.

(** [createMessage] does not change who is signed in, leaves a calm
    world calm, and does not let other writers in. *)
Definition settled (w w' : World) : Prop :=
  session w' = session w /\
  (weather w = [] -> weather w' = []) /\
  (alone w = true -> alone w' = true).

(** The calls of the part of [createMessage] that follows the thread
    check. *)
Definition after_thread_check (c : Table * Verb) : bool :=
  same_call (Messages, Upsert) c || same_call (FileAttachments, Insert) c
  || same_call (Threads, Update) c.

End Relations.

(** ** Worlds and inputs the statements are tried on *)

Module Scenarios.
Import Store World Eff Queries.

(** Two passwords that differ, each a surrogate without its partner.
    [TextEncoder] turns both into the bytes of U+FFFD. *)
Definition lone_d800 : Js.jsstring := [0xD800%N].
Definition lone_d801 : Js.jsstring := [0xD801%N].

Definition alice : string := "alice".
Definition bob : string := "bob".
Definition thread1 : string := "thread-1".

(** A store with the tables created and no rows. *)
Definition empty_store : DB := mkDB [] [] [] [] [] (Some []).

(** A fixed sequence standing for the random source. *)
Definition dice (n : nat) : byte := Text.byte_of (N.of_nat (37 * n + 11)).

(** A world with a signed-in user (or none), a store and the
    disturbances to come. *)
Definition world_of (user : option string) (d : DB) (sky : list Disturbance) : World :=
  mkWorld (mkAuth user None) d 1700000000000%Z dice 0 sky [] [].

Definition outage : PgError := mkError "503" "Service Unavailable".

Definition hello_id : string := "123e4567-e89b-42d3-a456-426614174000".

(** A user message with a well-formed id, and an assistant message whose
    id is not a UUID. *)
Definition hello : UIMessage :=
  mkUIMessage (Some hello_id) "user" "hello" None None.
Definition reply : UIMessage :=
  mkUIMessage (Some "msg-42") "assistant" "hi there" None None.

(** An upload with a URL and one without. *)
Definition notes : FileUploadResult :=
  mkFileUploadResult (Some "file-1") "notes.txt" (Some "text/plain") (Some 12%Z) None
    (Some "https://files.example/notes.txt") None None None None.
Definition ghost : FileUploadResult :=
  mkFileUploadResult (Some "file-2") "ghost.txt" None None None None None None None None.

(** A store where thread 1 belongs to alice. *)
Definition alice_store : DB :=
  mkDB [mkThread thread1 "Plans" alice None] [] [] [] [] (Some []).

(** The disturbances of a run of [createMessage] whose fourth store
    call, the insert of the attachment rows, fails. *)
Definition attachments_refused : list Disturbance := [Calm; Calm; Calm; Fails outage].

(** A store where alice has set preferences. *)
Definition alice_preferences : DB :=
  mkDB [] [] [] [] [] (Some [mkUserPreferences alice "font=mono"]).

(** A store whose preferences table was never created. *)
Definition no_preferences_table : DB := mkDB [] [] [] [] [] None.

(** Alice's thread with her first message in it. *)
Definition alice_chat : DB :=
  mkDB [mkThread thread1 "Plans" alice None]
       [mkMessage hello_id thread1 alice [] "user" "hello" 1699999999000%Z None]
       [] [] [] (Some []).



(** Alice's thread with a persona set. *)
Definition old_persona : ThreadPersonaRow := mkThreadPersona thread1 "persona-old" alice.
Definition new_persona : ThreadPersonaRow := mkThreadPersona thread1 "persona-new" alice.

Definition alice_persona_store : DB :=
  mkDB [mkThread thread1 "Plans" alice None] [] [] [old_persona] [] (Some []).

(** The disturbances of a run of [setThreadPersona] on an existing
    thread whose second store call, the delete, fails. *)
Definition delete_refused : list Disturbance := [Calm; Fails outage].

End Scenarios.

Module MoreScenarios.
Import Store World Eff Queries MoreStore MoreQueries Scenarios.

(** Alice's thread with four messages, stored newest first, and a
    message of bob's in another thread. *)
Definition second_at : Z := 1699999993000%Z.

Definition greeting_message : MessageRow :=
  mkMessage "m-0" thread1 alice [] "assistant" "How can I help?" 1699999991000%Z None.
Definition first_message : MessageRow :=
  mkMessage "m-1" thread1 alice [] "user" "plan a trip" 1699999992000%Z None.
Definition second_message : MessageRow :=
  mkMessage "m-2" thread1 alice [] "user" "to Lisbon" second_at None.
Definition third_message : MessageRow :=
  mkMessage "m-3" thread1 alice [] "assistant" "In May?" 1699999994000%Z None.
Definition elsewhere_message : MessageRow :=
  mkMessage "m-9" "thread-2" bob [] "user" "hi" 1699999990000%Z None.

Definition long_chat : DB :=
  mkDB [mkThread thread1 "Plans" alice None; mkThread "thread-2" "Bob's" bob None]
       [third_message; second_message; first_message; greeting_message;
        elsewhere_message]
       [] [] [] (Some []).

(** Alice has pinned two messages of her thread, bob one of them too. *)
Definition bobs_pin : PinnedMessageRow := mkPinnedMessage "pin-3" bob thread1 "m-1".

Definition pinned_store : DB :=
  mkDB [mkThread thread1 "Plans" alice None] [] [] []
       [mkPinnedMessage "pin-1" alice thread1 "m-1";
        mkPinnedMessage "pin-2" alice thread1 "m-2";
        bobs_pin]
       (Some []).

(** Alice and bob have each set a persona for the same thread. *)
Definition bobs_persona : ThreadPersonaRow := mkThreadPersona thread1 "persona-b" bob.

Definition shared_personas : DB :=
  mkDB [mkThread thread1 "Plans" alice None] [] [] [old_persona; bobs_persona] []
       (Some []).

(** Alice has pinned the same message twice. *)
Definition pinned_twice : DB :=
  mkDB [mkThread thread1 "Plans" alice None] [] [] []
       [mkPinnedMessage "pin-1" alice thread1 "m-1";
        mkPinnedMessage "pin-4" alice thread1 "m-1"]
       (Some []).

(** Alice and bob have both set preferences. *)
Definition shared_preferences : DB :=
  mkDB [] [] [] [] []
       (Some [mkUserPreferences alice "font=mono"; mkUserPreferences bob "font=serif"]).

(** Alice's thread, active a moment ago, and a message dated years
    before. *)
Definition active_store : DB :=
  mkDB [mkThread thread1 "Plans" alice (Some 1699999999000%Z)] [] [] [] [] (Some []).

Definition backdated : UIMessage :=
  mkUIMessage (Some hello_id) "user" "hello" None (Some 1600000000000%Z).

(** A thread of bob's that holds an assistant's message stored under
    another user's id. *)
Definition assisted_chat : DB :=
  mkDB [mkThread thread1 "Plans" bob None] [third_message] [] [] [] (Some []).

(** Two attachment rows of alice's first message, the later one stored
    first, and a row of another message. *)
Definition early_file : FileAttachmentRow :=
  mkFileAttachment "file-1" hello_id thread1 alice "notes.txt" "text/plain" 12%Z
    "https://files.example/notes.txt" None 1699999999100%Z.
Definition late_file : FileAttachmentRow :=
  mkFileAttachment "file-2" hello_id thread1 alice "map.png" "image/png" 2048%Z
    "https://files.example/map.png" None 1699999999200%Z.
Definition other_file : FileAttachmentRow :=
  mkFileAttachment "file-3" "m-9" "thread-2" bob "todo.txt" "text/plain" 5%Z
    "" None 1699999999000%Z.

Definition filed_store : DB :=
  mkDB [mkThread thread1 "Plans" alice None; mkThread "thread-2" "" bob None]
       [mkMessage hello_id thread1 alice [] "user" "hello" 1699999999000%Z None]
       [late_file; other_file; early_file] [] [] (Some []).

(** A message that lists a file without its content. *)
Definition listed_file : AttachmentPart :=
  mkAttachmentPart (Some "file-1") "notes.txt" (Some "text/plain") 12%Z
    (Some "https://files.example/notes.txt") None None None.

Definition attached_message : MessageRow :=
  mkMessage hello_id thread1 alice [OtherPart "text" "see file"; FileAttachmentsPart [listed_file]]
    "user" "see file" 1699999999000%Z None.

Definition attached_message_filled : MessageRow :=
  mkMessage hello_id thread1 alice
    [OtherPart "text" "see file"; FileAttachmentsPart [filled "buy milk" listed_file]]
    "user" "see file" 1699999999000%Z None.

Definition attached_chat : DB :=
  mkDB [mkThread thread1 "Plans" alice None] [attached_message] [] [] [] (Some []).

(** A network that serves the notes and nothing else, and one that is
    down. *)
Definition serving (url : string) : Fetched :=
  if url =? "https://files.example/notes.txt" then Responded true "buy milk"
  else Responded false "Not Found".

Definition unreachable (url : string) : Fetched := Rejected.

End MoreScenarios.

(** * Properties *)

Unset Implicit Arguments.

(** ** Bytes, base64 and UUID syntax *)

Module Facts.
Import Text Base64 Uuid.
Local Open Scope N_scope.

(** Quotient and remainder by a constant, named so that what is left is
    linear. *)
Lemma split_at k x :
  k <> 0 -> exists q r, x = k * q + r /\ r < k /\ x / k = q /\ x mod k = r.
Proof.
  intros Hk. exists (x / k), (x mod k). repeat split.
  - apply N.div_mod'.
  - now apply N.mod_lt.
Qed.

Ltac cut_at x k :=
  let q := fresh "q" in let r := fresh "r" in
  let E := fresh "E" in let L := fresh "L" in
  let Q := fresh "Q" in let R := fresh "R" in
  destruct (split_at k x ltac:(discriminate)) as (q & r & E & L & Q & R);
  rewrite ?Q, ?R in *; clear Q R.

Lemma u8_bound (b : byte) : u8 b < 256.
Proof. destruct b; reflexivity. Qed.

Lemma u8_inj (a b : byte) : u8 a = u8 b -> a = b.
Proof.
  unfold u8; intros E.
  assert (S : Some a = Some b) by (rewrite <- !Byte.of_to_N, E; reflexivity).
  now inversion S.
Qed.

(** A boolean property checked on 0..n-1 holds below n. *)
Lemma below (k : nat) (p : N -> bool) :
  forallb p (map N.of_nat (seq 0 k)) = true ->
  forall n, n < N.of_nat k -> p n = true.
Proof.
  intros H n Hn. rewrite forallb_forall in H. apply H.
  rewrite in_map_iff. exists (N.to_nat n). split.
  - apply N2Nat.id.
  - apply in_seq. lia.
Qed.

Lemma b64index_b64char n : n < 64 -> b64index (b64char n) = n.
Proof.
  intros Hn. apply N.eqb_eq.
  exact (below 64 (fun n => b64index (b64char n) =? n) eq_refl n Hn).
Qed.

Lemma b64char_inj n m : n < 64 -> m < 64 -> b64char n = b64char m -> n = m.
Proof.
  intros Hn Hm E.
  rewrite <- (b64index_b64char n Hn), <- (b64index_b64char m Hm), E. reflexivity.
Qed.

Lemma b64char_is_b64 n : n < 64 -> is_b64 (b64char n) = true.
Proof. exact (below 64 (fun n => is_b64 (b64char n)) eq_refl n). Qed.

Lemma is_b64_not_pad c : is_b64 c = true -> c <> pad.
Proof. intros H E; subst c. discriminate H. Qed.

Lemma b64char_not_pad n : n < 64 -> b64char n <> pad.
Proof. intros Hn. apply is_b64_not_pad, b64char_is_b64, Hn. Qed.

(** The six-bit groups of one, two or three bytes. *)
Lemma sextet_1 a : u8 a / 4 < 64.
Proof. pose proof (u8_bound a). cut_at (u8 a) 4. lia. Qed.

Lemma sextet_2 a b : (u8 a mod 4) * 16 + u8 b / 16 < 64.
Proof.
  pose proof (u8_bound a). pose proof (u8_bound b).
  cut_at (u8 a) 4. cut_at (u8 b) 16. lia.
Qed.

Lemma sextet_2' a : (u8 a mod 4) * 16 < 64.
Proof. cut_at (u8 a) 4. lia. Qed.

Lemma sextet_3 b c : (u8 b mod 16) * 4 + u8 c / 64 < 64.
Proof.
  pose proof (u8_bound b). pose proof (u8_bound c).
  cut_at (u8 b) 16. cut_at (u8 c) 64. lia.
Qed.

Lemma sextet_3' b : (u8 b mod 16) * 4 < 64.
Proof. cut_at (u8 b) 16. lia. Qed.

Lemma sextet_4 c : u8 c mod 64 < 64.
Proof. cut_at (u8 c) 64. lia. Qed.

Create HintDb sextets.
#[local] Hint Resolve sextet_1 sextet_2 sextet_2' sextet_3 sextet_3' sextet_4 : sextets.

(** Lists three elements at a time. *)
Lemma list_ind3 {A} (P : list A -> Prop) :
  P [] -> (forall a, P [a]) -> (forall a b, P [a; b]) ->
  (forall a b c l, P l -> P (a :: b :: c :: l)) ->
  forall l, P l.
Proof.
  intros H0 H1 H2 H3.
  assert (G : forall l, P l /\ (forall a, P (a :: l)) /\ (forall a b, P (a :: b :: l))).
  { induction l as [|x l [IH0 [IH1 IH2]]].
    - repeat split; auto.
    - repeat split; auto. }
  intros l. apply G.
Qed.

(** [btoa] loses nothing: equal texts come from equal bytes. *)
Lemma string_cons_inj a b s t : String a s = String b t -> a = b /\ s = t.
Proof. intros E; injection E; auto. Qed.

Ltac split_text :=
  repeat match goal with
  | H : String _ _ = String _ _ |- _ => apply string_cons_inj in H; destruct H
  end.

Ltac pad_clash :=
  match goal with
  | H : b64char _ = pad |- _ =>
      exfalso; revert H; apply b64char_not_pad; auto with sextets
  | H : pad = b64char _ |- _ =>
      exfalso; symmetry in H; revert H; apply b64char_not_pad; auto with sextets
  end.

Ltac sextets_equal :=
  repeat match goal with
  | H : b64char _ = b64char _ |- _ => apply b64char_inj in H; [| auto with sextets ..]
  end.

(** Bytes are recovered from their six-bit groups. *)
Lemma group_1 a a' :
  a < 256 -> a' < 256 ->
  a / 4 = a' / 4 -> (a mod 4) * 16 = (a' mod 4) * 16 -> a = a'.
Proof. intros. cut_at a 4. cut_at a' 4. lia. Qed.

Lemma group_2 a b a' b' :
  a < 256 -> a' < 256 -> b < 256 -> b' < 256 ->
  a / 4 = a' / 4 ->
  (a mod 4) * 16 + b / 16 = (a' mod 4) * 16 + b' / 16 ->
  (b mod 16) * 4 = (b' mod 16) * 4 ->
  a = a' /\ b = b'.
Proof. intros. cut_at a 4. cut_at a' 4. cut_at b 16. cut_at b' 16. lia. Qed.

Lemma group_3 a b c a' b' c' :
  a < 256 -> a' < 256 -> b < 256 -> b' < 256 -> c < 256 -> c' < 256 ->
  a / 4 = a' / 4 ->
  (a mod 4) * 16 + b / 16 = (a' mod 4) * 16 + b' / 16 ->
  (b mod 16) * 4 + c / 64 = (b' mod 16) * 4 + c' / 64 ->
  c mod 64 = c' mod 64 ->
  a = a' /\ b = b' /\ c = c'.
Proof.
  intros.
  cut_at a 4. cut_at a' 4. cut_at b 16. cut_at b' 16. cut_at c 64. cut_at c' 64.
  lia.
Qed.

Lemma btoa_inj : forall xs ys, btoa xs = btoa ys -> xs = ys.
Proof.
  induction xs as [|a|a b|a b c xs IH] using list_ind3;
    intros ys E;
    destruct ys as [|a' [|b' [|c' ys]]]; cbn [btoa] in E;
    try discriminate E; split_text; try pad_clash; sextets_equal.
  - reflexivity.
  - f_equal. apply u8_inj. apply group_1; auto using u8_bound.
  - destruct (group_2 (u8 a) (u8 b) (u8 a') (u8 b')) as [Ea Eb];
      auto using u8_bound.
    f_equal; [|f_equal]; now apply u8_inj.
  - destruct (group_3 (u8 a) (u8 b) (u8 c) (u8 a') (u8 b') (u8 c')) as [Ea [Eb Ec]];
      auto using u8_bound.
    f_equal; [|f_equal; [|f_equal]]; try now apply u8_inj.
    now apply IH.
Qed.

(** *** The share token *)

Lemma url_safe_b64char n s :
  n < 64 -> url_safe (String (b64char n) s) = String (url_char (b64char n)) (url_safe s).
Proof.
  intros Hn. pose proof (b64char_is_b64 n Hn) as Hc.
  unfold url_safe, url_char. cbn [replace_all].
  destruct (Ascii.eqb_spec (b64char n) "+") as [E1 | N1]; [reflexivity |].
  cbn [replace_all].
  destruct (Ascii.eqb_spec (b64char n) "/") as [E2 | N2]; [reflexivity |].
  cbn [replace_all].
  destruct (Ascii.eqb_spec (b64char n) "=") as [E | N3]; [| reflexivity].
  rewrite E in Hc. discriminate Hc.
Qed.

Lemma token_char_b64char n : n < 64 -> token_char (url_char (b64char n)) = true.
Proof. exact (below 64 (fun n => token_char (url_char (b64char n))) eq_refl n). Qed.

Lemma forall_chars_impl (p q : ascii -> bool) s :
  (forall c, p c = true -> q c = true) ->
  forall_chars p s = true -> forall_chars q s = true.
Proof.
  intros I. induction s as [|c s IH]; cbn; [reflexivity |].
  rewrite !andb_true_iff. intros [Hc Hs]. auto.
Qed.

Lemma shareTokenOf_url_safe array : shareTokenOf array = url_safe (btoa array).
Proof. reflexivity. Qed.

Lemma url_safe_padding : url_safe (String pad (String pad "")) = "".
Proof. reflexivity. Qed.

Lemma shareTokenOf_16 (array : list byte) :
  List.length array = 16%nat ->
  String.length (shareTokenOf array) = 22%nat /\
  forall_chars token_char (shareTokenOf array) = true.
Proof.
  intros L.
  do 16 (destruct array as [|? array]; [discriminate L |]).
  destruct array; [| discriminate L].
  rewrite shareTokenOf_url_safe.
  cbn [btoa].
  rewrite !url_safe_b64char by auto with sextets.
  rewrite url_safe_padding.
  split; [reflexivity |].
  cbn [forall_chars].
  rewrite !token_char_b64char by auto with sextets.
  reflexivity.
Qed.

(** *** Generated ids *)

Lemma hexdigit_hex n : n < 16 -> is_hex (hexdigit n) = true.
Proof. exact (below 16 (fun n => is_hex (hexdigit n)) eq_refl n). Qed.

Lemma high_nibble b : u8 b / 16 < 16.
Proof. pose proof (u8_bound b). cut_at (u8 b) 16. lia. Qed.

Lemma low_nibble b : u8 b mod 16 < 16.
Proof. cut_at (u8 b) 16. lia. Qed.

Lemma v4_of_is_uuid (rnds : list byte) :
  List.length rnds = 16%nat -> is_uuid (v4_of rnds) = true.
Proof.
  intros L.
  do 16 (destruct rnds as [|? rnds]; [discriminate L |]).
  destruct rnds; [| discriminate L].
  unfold v4_of, stamp, stringify.
  cbn [firstn skipn hex_of hex2 append].
  unfold is_uuid. cbn [run_of at_end].
  rewrite !hexdigit_hex by (apply high_nibble || apply low_nibble).
  reflexivity.
Qed.

End Facts.

(** ** Share tokens *)

Module ShareToken.
Import Text Base64 Facts Store World Eff Queries.

(** C6. Whatever the random source gives, [generateShareToken] returns a
    text of exactly 22 characters, all of them letters, digits, [-] or
    [_], none of them [+], [/] or [=]: the base64url form of the sixteen
    bytes it drew, without padding. *)
Theorem generateShareToken_format :
  forall w : World,
  exists token : string,
    result generateShareToken w = Returned token /\
    token = shareTokenOf (map (entropy w) (seq (drawn w) 16)) /\
    String.length token = 22%nat /\
    forall_chars is_b64url token = true /\
    forall_chars (fun c => negb (unsafe_char c)) token = true.
Proof.
  intros w.
  exists (shareTokenOf (map (entropy w) (seq (drawn w) 16))).
  destruct (shareTokenOf_16 (map (entropy w) (seq (drawn w) 16))) as [Hlen Hchars].
  { rewrite length_map, length_seq. reflexivity. }
  repeat split; auto.
  - revert Hchars. apply forall_chars_impl.
    unfold token_char. intros c H. apply andb_true_iff in H. tauto.
  - revert Hchars. apply forall_chars_impl.
    unfold token_char. intros c H. apply andb_true_iff in H. tauto.
Qed.

End ShareToken.

(** ** Share passwords *)

Module Passwords.
Import Facts Scenarios.

(** C7, as stated, fails: the second of two different passwords passes
    the check against the hash of the first. *)
Lemma distinct_passwords_verify :
  lone_d801 <> lone_d800 /\
  verifyPassword lone_d801 (hashPassword lone_d800) = true.
Proof.
  split.
  - intros E. discriminate E.
  - vm_compute. reflexivity.
Qed.

(** *** More passwords than digests *)

Lemma sha256_length msg : List.length (Sha256.sha256 msg) = 32%nat.
Proof.
  unfold Sha256.sha256. rewrite length_map.
  unfold Sha256.digest_words. cbn [flat_map].
  rewrite !length_app. reflexivity.
Qed.

Lemma number_of_bound bs : (number_of bs < 256 ^ List.length bs)%nat.
Proof.
  induction bs as [| b bs IH]; cbn [number_of List.length].
  - cbn. lia.
  - rewrite Nat.pow_succ_r'.
    pose proof (u8_bound b) as Hb.
    assert (N.to_nat (Text.u8 b) < 256)%nat by lia.
    set (P := (256 ^ List.length bs)%nat) in *. lia.
Qed.

Lemma number_of_inj : forall xs ys,
  List.length xs = List.length ys -> number_of xs = number_of ys -> xs = ys.
Proof.
  induction xs as [| x xs IH]; intros [| y ys] L E; try discriminate L; [reflexivity |].
  cbn [number_of] in E.
  pose proof (u8_bound x) as Hx. pose proof (u8_bound y) as Hy.
  assert (Hx' : (N.to_nat (Text.u8 x) < 256)%nat) by lia.
  assert (Hy' : (N.to_nat (Text.u8 y) < 256)%nat) by lia.
  assert (E1 : N.to_nat (Text.u8 x) = N.to_nat (Text.u8 y)) by lia.
  assert (E2 : number_of xs = number_of ys) by lia.
  f_equal.
  - apply u8_inj. lia.
  - apply IH; [now injection L | exact E2].
Qed.

(** Among distinct inputs, two have the same image or all images are
    distinct. *)
Lemma collide {A} (g : A -> nat) (l : list A) :
  NoDup l ->
  (exists x y, In x l /\ In y l /\ x <> y /\ g x = g y) \/ NoDup (map g l).
Proof.
  induction l as [| a l IH]; intros Hl; [right; constructor |].
  inversion Hl as [| ? ? Ha Hl']; subst.
  destruct (IH Hl') as [(x & y & Hx & Hy & Hxy & E) | Hnd].
  - left. exists x, y. repeat split; auto; now right.
  - destruct (in_dec Nat.eq_dec (g a) (map g l)) as [Hin | Hout].
    + left. apply in_map_iff in Hin as (y & E & Hy).
      exists a, y. repeat split; [now left | now right | | now symmetry].
      intros ->. contradiction.
    + right. cbn. now constructor.
Qed.

(** More distinct inputs than values: two inputs share a value. *)
Lemma crowded {A} (g : A -> nat) (bound : nat) (l : list A) :
  NoDup l ->
  (forall x, In x l -> (g x < bound)%nat) ->
  (bound < List.length l)%nat ->
  exists x y, In x l /\ In y l /\ x <> y /\ g x = g y.
Proof.
  intros Hl Hg Hmany.
  destruct (collide g l Hl) as [H | Hnd]; [exact H | exfalso].
  assert (Hincl : incl (map g l) (seq 0 bound)).
  { intros n Hn. apply in_map_iff in Hn as (x & <- & Hx).
    apply in_seq. specialize (Hg x Hx). lia. }
  pose proof (NoDup_incl_length Hnd Hincl) as Hle.
  rewrite length_map, length_seq in Hle. lia.
Qed.

Lemma letters_inj n m : letters n = letters m -> n = m.
Proof.
  intros E. apply (f_equal (@List.length N)) in E.
  unfold letters in E. now rewrite !repeat_length in E.
Qed.

(** [hashPassword] is not one-to-one even on the passwords a, aa, aaa
    and so on: there are more of them than digests. *)
Theorem hashPassword_collides :
  exists n m, n <> m /\ hashPassword (letters n) = hashPassword (letters m).
Proof.
  pose (digests := (256 ^ 32)%nat).
  destruct (crowded (fun n => number_of (Sha256.sha256 (Js.encode (letters n))))
              digests (seq 0 (S digests))) as (n & m & _ & _ & Hnm & E).
  - apply seq_NoDup.
  - intros n _. pose proof (number_of_bound (Sha256.sha256 (Js.encode (letters n)))) as H.
    rewrite sha256_length in H. exact H.
  - rewrite length_seq. apply Nat.lt_succ_diag_r.
  - exists n, m. split; [exact Hnm |].
    unfold hashPassword. f_equal.
    apply number_of_inj; [now rewrite !sha256_length | exact E].
Qed.

(** C7, amended. [hashPassword] is a function of its argument; a password
    passes the check against its own hash; and a password passes the
    check against the hash of another exactly when the SHA-256 digests of
    their UTF-8 encodings are equal, so it is rejected whenever the two
    digests differ. *)
Theorem verifyPassword_compares_digests :
  (forall p q, p = q -> hashPassword p = hashPassword q) /\
  (forall p, verifyPassword p (hashPassword p) = true) /\
  (forall p p2,
     Sha256.sha256 (Js.encode p2) <> Sha256.sha256 (Js.encode p) ->
     verifyPassword p2 (hashPassword p) = false) /\
  (forall p p2,
     Sha256.sha256 (Js.encode p2) = Sha256.sha256 (Js.encode p) ->
     verifyPassword p2 (hashPassword p) = true).
Proof.
  repeat split.
  - intros p q E. now rewrite E.
  - intros p. unfold verifyPassword. apply String.eqb_refl.
  - intros p p2 D. unfold verifyPassword.
    apply String.eqb_neq. intros E. apply D.
    unfold hashPassword in E. now apply btoa_inj in E.
  - intros p p2 E. unfold verifyPassword, hashPassword.
    rewrite E. apply String.eqb_refl.
Qed.

(** The amended statement at two ordinary passwords and at the two
    surrogates. *)
Lemma verifyPassword_compares_digests_witness :
  verifyPassword (Js.of_string "hunter3") (hashPassword (Js.of_string "hunter2")) = false /\
  verifyPassword lone_d801 (hashPassword lone_d800) = true.
Proof.
  destruct verifyPassword_compares_digests as (_ & _ & Hdiff & Hsame).
  split.
  - apply Hdiff. vm_compute. intros E. discriminate E.
  - apply Hsame. vm_compute. reflexivity.
Defined.

End Passwords.

(** ** Reasoning about runs *)

Module Reasoning.
Import Store World Eff Queries Relations.

Lemma bind_returned {A B} (m : M A) (k : A -> M B) w a w1 :
  m w = (Returned a, w1) -> bind m k w = k a w1.
Proof. unfold bind. now intros ->. Qed.

Lemma bind_threw {A B} (m : M A) (k : A -> M B) w t w1 :
  m w = (Threw t, w1) -> bind m k w = (Threw t, w1).
Proof. unfold bind. now intros ->. Qed.

Lemma run_eta {A} (m : M A) w : m w = (result m w, after m w).
Proof. unfold result, after. now destruct (m w). Qed.

(** A sequence stops at the first exception. *)
Lemma bind_cases {A B} (m : M A) (k : A -> M B) w :
  (exists a, result m w = Returned a /\ bind m k w = k a (after m w)) \/
  (exists t, result m w = Threw t /\ bind m k w = (Threw t, after m w)).
Proof.
  unfold bind. rewrite (run_eta m w).
  destruct (result m w) as [a | t]; [left | right]; eauto.
Qed.

(** *** Relations between the world before and after a run

    A reflexive and transitive relation that every primitive step keeps
    is kept by whole functions, whatever the store answers. *)

Section Kept.
Variable R : World -> World -> Prop.
Hypothesis R_refl : forall w, R w w.
Hypothesis R_trans : forall a b c, R a b -> R b c -> R a c.

Lemma keeps_ret {A} (a : A) : keeps R (ret a).
Proof. intros w. apply R_refl. Qed.

Lemma keeps_throw {A} t : keeps R (@throw A t).
Proof. intros w. apply R_refl. Qed.

Lemma keeps_auth_getUser : keeps R auth_getUser.
Proof. intros w. apply R_refl. Qed.

Lemma keeps_new_Date : keeps R new_Date.
Proof. intros w. apply R_refl. Qed.

Lemma keeps_bind {A B} (m : M A) (k : A -> M B) :
  keeps R m -> (forall a, keeps R (k a)) -> keeps R (bind m k).
Proof.
  intros Hm Hk w. unfold after, bind.
  specialize (Hm w). unfold after in Hm.
  destruct (m w) as [[a | t] w1]; cbn in *; [| exact Hm].
  eapply R_trans; [exact Hm | apply Hk].
Qed.

Lemma keeps_try_catch {A} (body : M A) (handler : Thrown -> M A) :
  keeps R body -> (forall t, keeps R (handler t)) -> keeps R (try_catch body handler).
Proof.
  intros Hm Hk w. unfold after, try_catch.
  specialize (Hm w). unfold after in Hm.
  destruct (body w) as [[a | t] w1]; cbn in *; [exact Hm |].
  eapply R_trans; [exact Hm | apply Hk].
Qed.

Lemma keeps_filterM {A} (keep : A -> M bool) l :
  (forall a, keeps R (keep a)) -> keeps R (filterM keep l).
Proof.
  intros Hk. induction l as [| a l IH]; cbn [filterM].
  - apply keeps_ret.
  - apply keeps_bind; [apply Hk | intros k].
    apply keeps_bind; [apply IH | intros kept]. apply keeps_ret.
Qed.

Lemma keeps_mapM {A B} (f : A -> M B) l :
  (forall a, keeps R (f a)) -> keeps R (mapM f l).
Proof.
  intros Hf. induction l as [| a l IH]; cbn [mapM].
  - apply keeps_ret.
  - apply keeps_bind; [apply Hf | intros b].
    apply keeps_bind; [apply IH | intros bs]. apply keeps_ret.
Qed.
End Kept.

Lemma issues_refl allowed w : issues allowed w w.
Proof. exists []. split; [now rewrite app_nil_r | reflexivity]. Qed.

Lemma issues_trans allowed a b c :
  issues allowed a b -> issues allowed b c -> issues allowed a c.
Proof.
  intros (l1 & E1 & F1) (l2 & E2 & F2). exists (l1 ++ l2). split.
  - now rewrite E2, E1, app_assoc.
  - now rewrite forallb_app, F1, F2.
Qed.

Lemma leaves_refl {X} (part : DB -> X) w : leaves part w w.
Proof. intros H. now repeat split. Qed.

Lemma leaves_trans {X} (part : DB -> X) a b c :
  leaves part a b -> leaves part b c -> leaves part a c.
Proof.
  intros H1 H2 Ha. destruct (H1 Ha) as (Hb & E1 & C1). destruct (H2 Hb) as (Hc & E2 & C2).
  split; [exact Hc | split; [now rewrite E2 | auto]].
Qed.

Lemma alone_tl w d rest : weather w = d :: rest -> alone w = true ->
  is_race d = false /\ forallb (fun d => negb (is_race d)) rest = true.
Proof.
  unfold alone. intros ->. cbn. rewrite andb_true_iff, negb_true_iff. tauto.
Qed.

(** What a call does to the store when nobody else writes. *)
Lemma serve_alone {A} (q : Query A) w :
  alone w = true ->
  serve (next_disturbance w) q (db w) = q (db w) \/
  exists e, next_disturbance w = Fails e /\
            serve (next_disturbance w) q (db w) = (failed e, db w).
Proof.
  unfold alone, next_disturbance. destruct (weather w) as [| [| e | f] rest]; cbn.
  - now left.
  - now left.
  - right. now exists e.
  - discriminate.
Qed.

(** Alone, the next call is served as it is or fails. *)
Lemma alone_cases w :
  alone w = true ->
  weather w = [] \/ (exists rest, weather w = Calm :: rest)
  \/ (exists e rest, weather w = Fails e :: rest).
Proof.
  unfold alone. destruct (weather w) as [| [| e | f] rest]; cbn; eauto.
  discriminate.
Qed.

Lemma alone_after_from {A} t v (q : Query A) w :
  alone w = true -> alone (after (from t v q) w) = true.
Proof.
  unfold alone. cbn. destruct (weather w) as [| d rest]; cbn; [reflexivity |].
  rewrite andb_true_iff. tauto.
Qed.

Section Steps.
Variable allowed : Table * Verb -> bool.

Lemma from_issues {A} t v (q : Query A) :
  allowed (t, v) = true -> keeps (issues allowed) (from t v q).
Proof.
  intros H w. exists [(t, v)]. split; [reflexivity |]. cbn. now rewrite H.
Qed.

Lemma say_issues l text : keeps (issues allowed) (say l text).
Proof. intros w. exists []. cbn. now rewrite app_nil_r. Qed.

Lemma getRandomValues_issues n : keeps (issues allowed) (getRandomValues n).
Proof. intros w. exists []. cbn. now rewrite app_nil_r. Qed.
End Steps.

Section Frames.
Context {X : Type} (part : DB -> X).

Lemma from_leaves {A} t v (q : Query A) :
  (forall d, part (snd (q d)) = part d) -> keeps (leaves part) (from t v q).
Proof.
  intros H w Hw. split; [apply alone_after_from; exact Hw |]. split.
  - cbn. destruct (@serve_alone _ q w Hw) as [-> | (e & _ & ->)]; [apply H | reflexivity].
  - cbn. now intros ->.
Qed.

Lemma say_leaves l text : keeps (leaves part) (say l text).
Proof. intros w Hw. now repeat split. Qed.

Lemma getRandomValues_leaves n : keeps (leaves part) (getRandomValues n).
Proof. intros w Hw. now repeat split. Qed.
End Frames.

Lemma same_store_refl w : same_store w w.
Proof. repeat split. Qed.

Lemma same_store_trans a b c : same_store a b -> same_store b c -> same_store a c.
Proof.
  unfold same_store. intros (?&?&?&?&?&?) (?&?&?&?&?&?).
  repeat split; congruence.
Qed.

Lemma say_same_store l text : keeps same_store (say l text).
Proof. intros w. repeat split. Qed.

Lemma getRandomValues_same_store n : keeps same_store (getRandomValues n).
Proof. intros w. repeat split. Qed.

Lemma same_store_ret {A} (a : A) : keeps same_store (ret a).
Proof. apply keeps_ret, same_store_refl. Qed.

Lemma same_store_new_Date : keeps same_store new_Date.
Proof. apply keeps_new_Date, same_store_refl. Qed.

Lemma same_store_bind {A B} (m : M A) (k : A -> M B) :
  keeps same_store m -> (forall a, keeps same_store (k a)) -> keeps same_store (bind m k).
Proof. apply keeps_bind, same_store_trans. Qed.

Lemma same_store_mapM {A B} (f : A -> M B) l :
  (forall a, keeps same_store (f a)) -> keeps same_store (mapM f l).
Proof. apply keeps_mapM; [apply same_store_refl | apply same_store_trans]. Qed.

Lemma same_store_filterM {A} (keep : A -> M bool) l :
  (forall a, keeps same_store (keep a)) -> keeps same_store (filterM keep l).
Proof. apply keeps_filterM; [apply same_store_refl | apply same_store_trans]. Qed.

Lemma same_inputs_refl w : same_inputs w w.
Proof. repeat split. Qed.

Lemma same_inputs_trans a b c : same_inputs a b -> same_inputs b c -> same_inputs a c.
Proof.
  unfold same_inputs. intros (?&?&?&?) (?&?&?&?). repeat split; congruence.
Qed.

Lemma say_same_inputs l text : keeps same_inputs (say l text).
Proof. intros w. repeat split. Qed.

Lemma from_same_inputs {A} t v (q : Query A) : keeps same_inputs (from t v q).
Proof. intros w. repeat split. Qed.

(** The rules at the two relations. *)
Section IssuesRules.
Variable allowed : Table * Verb -> bool.

Lemma issues_ret {A} (a : A) : keeps (issues allowed) (ret a).
Proof. apply keeps_ret, issues_refl. Qed.

Lemma issues_throw {A} t : keeps (issues allowed) (@throw A t).
Proof. apply keeps_throw, issues_refl. Qed.

Lemma issues_auth_getUser : keeps (issues allowed) auth_getUser.
Proof. apply keeps_auth_getUser, issues_refl. Qed.

Lemma issues_new_Date : keeps (issues allowed) new_Date.
Proof. apply keeps_new_Date, issues_refl. Qed.

Lemma issues_bind {A B} (m : M A) (k : A -> M B) :
  keeps (issues allowed) m -> (forall a, keeps (issues allowed) (k a)) ->
  keeps (issues allowed) (bind m k).
Proof. apply keeps_bind, issues_trans. Qed.

Lemma issues_try_catch {A} (body : M A) (handler : Thrown -> M A) :
  keeps (issues allowed) body -> (forall t, keeps (issues allowed) (handler t)) ->
  keeps (issues allowed) (try_catch body handler).
Proof. apply keeps_try_catch, issues_trans. Qed.

Lemma issues_filterM {A} (keep : A -> M bool) l :
  (forall a, keeps (issues allowed) (keep a)) -> keeps (issues allowed) (filterM keep l).
Proof. apply keeps_filterM; [apply issues_refl | apply issues_trans]. Qed.

Lemma issues_mapM {A B} (f : A -> M B) l :
  (forall a, keeps (issues allowed) (f a)) -> keeps (issues allowed) (mapM f l).
Proof. apply keeps_mapM; [apply issues_refl | apply issues_trans]. Qed.
End IssuesRules.

Section LeavesRules.
Context {X : Type} (part : DB -> X).

Lemma leaves_ret {A} (a : A) : keeps (leaves part) (ret a).
Proof. apply keeps_ret, leaves_refl. Qed.

Lemma leaves_throw {A} t : keeps (leaves part) (@throw A t).
Proof. apply keeps_throw, leaves_refl. Qed.

Lemma leaves_auth_getUser : keeps (leaves part) auth_getUser.
Proof. apply keeps_auth_getUser, leaves_refl. Qed.

Lemma leaves_new_Date : keeps (leaves part) new_Date.
Proof. apply keeps_new_Date, leaves_refl. Qed.

Lemma leaves_bind {A B} (m : M A) (k : A -> M B) :
  keeps (leaves part) m -> (forall a, keeps (leaves part) (k a)) ->
  keeps (leaves part) (bind m k).
Proof. apply keeps_bind, leaves_trans. Qed.

Lemma leaves_try_catch {A} (body : M A) (handler : Thrown -> M A) :
  keeps (leaves part) body -> (forall t, keeps (leaves part) (handler t)) ->
  keeps (leaves part) (try_catch body handler).
Proof. apply keeps_try_catch, leaves_trans. Qed.

Lemma leaves_filterM {A} (keep : A -> M bool) l :
  (forall a, keeps (leaves part) (keep a)) -> keeps (leaves part) (filterM keep l).
Proof. apply keeps_filterM; [apply leaves_refl | apply leaves_trans]. Qed.

Lemma leaves_mapM {A B} (f : A -> M B) l :
  (forall a, keeps (leaves part) (f a)) -> keeps (leaves part) (mapM f l).
Proof. apply keeps_mapM; [apply leaves_refl | apply leaves_trans]. Qed.
End LeavesRules.

Create HintDb kept.
Create HintDb frames.

(** Single-row mode fails in one way only. *)
Lemma single_error {A} (rows : list A) e : error (single rows) = Some e -> e = not_found.
Proof. destruct rows as [| r [| r' l]]; cbn; congruence. Qed.

Lemma single_no_error {A} (rows : list A) :
  error (single rows) = None -> exists r, rows = [r] /\ single rows = answered r.
Proof. destruct rows as [| r [| r' l]]; cbn; try discriminate. eauto. Qed.


(** What each query leaves alone. *)
Lemma select_single_part {A X} (part : DB -> X) (table : DB -> list A) p d :
  part (snd (select_single table p d)) = part d.
Proof. reflexivity. Qed.

Lemma insert_thread_messages row d : messages (snd (insert_thread row d)) = messages d.
Proof. unfold insert_thread. now destruct (existsb _ _). Qed.

Lemma insert_thread_file_attachments row d :
  file_attachments (snd (insert_thread row d)) = file_attachments d.
Proof. unfold insert_thread. now destruct (existsb _ _). Qed.

Lemma insert_thread_thread_personas row d :
  thread_personas (snd (insert_thread row d)) = thread_personas d.
Proof. unfold insert_thread. now destruct (existsb _ _). Qed.

Lemma upsert_message_threads row d : threads (snd (upsert_message row d)) = threads d.
Proof. reflexivity. Qed.

Lemma upsert_message_file_attachments row d :
  file_attachments (snd (upsert_message row d)) = file_attachments d.
Proof. reflexivity. Qed.

Lemma insert_file_attachments_messages rows d :
  messages (snd (insert_file_attachments rows d)) = messages d.
Proof. unfold insert_file_attachments. now destruct (distinct _). Qed.

Lemma insert_file_attachments_threads rows d :
  threads (snd (insert_file_attachments rows d)) = threads d.
Proof. unfold insert_file_attachments. now destruct (distinct _). Qed.

Lemma touch_thread_messages id at_ d : messages (snd (touch_thread id at_ d)) = messages d.
Proof. reflexivity. Qed.

Lemma touch_thread_file_attachments id at_ d :
  file_attachments (snd (touch_thread id at_ d)) = file_attachments d.
Proof. reflexivity. Qed.

#[export] Hint Resolve select_single_part insert_thread_messages
  insert_thread_file_attachments insert_thread_thread_personas
  upsert_message_threads upsert_message_file_attachments
  insert_file_attachments_messages insert_file_attachments_threads
  touch_thread_messages touch_thread_file_attachments : frames.

(** One structural step of a proof that a function keeps a relation. *)
Ltac kept_step :=
  match goal with
  | |- keeps _ (bind _ _) =>
      first [apply issues_bind | apply leaves_bind | apply same_store_bind]; [| intros ?]
  | |- keeps _ (try_catch _ _) =>
      first [apply issues_try_catch | apply leaves_try_catch]; [| intros ?]
  | |- keeps _ (ret _) => first [apply issues_ret | apply leaves_ret | apply same_store_ret]
  | |- keeps _ (throw _) => first [apply issues_throw | apply leaves_throw]
  | |- keeps _ auth_getUser => first [apply issues_auth_getUser | apply leaves_auth_getUser]
  | |- keeps _ new_Date =>
      first [apply issues_new_Date | apply leaves_new_Date | apply same_store_new_Date]
  | |- keeps _ (say _ _) => first [apply say_issues | apply say_leaves | apply say_same_store]
  | |- keeps _ (getRandomValues _) =>
      first [apply getRandomValues_issues | apply getRandomValues_leaves
            | apply getRandomValues_same_store]
  | |- keeps _ (from _ _ _) =>
      first [apply from_issues; reflexivity
            | apply from_leaves; intros ?; solve [auto with frames]]
  | |- keeps _ (filterM _ _) =>
      first [apply issues_filterM | apply leaves_filterM | apply same_store_filterM]; intros ?
  | |- keeps _ (mapM _ _) =>
      first [apply issues_mapM | apply leaves_mapM | apply same_store_mapM]; intros ?
  | |- keeps _ (match ?x with _ => _ end) => destruct x
  | |- keeps _ (if ?x then _ else _) => destruct x
  | |- keeps _ _ => solve [auto with kept]
  end.

Ltac kept := repeat kept_step.

(** Running a function on a world: unfold the operators of the monad and
    compute; then decide the innermost open case first. *)
Ltac run :=
  unfold try_catch, bind, from, say, throw, ret, auth_getUser, new_Date,
    getRandomValues, uuidv4, next_disturbance, answer, result, after in *;
  cbn in *.

Ltac innermost_case :=
  match goal with
  | |- context [serve ?d _ _] => is_var d; destruct d
  | |- context [match ?x with _ => _ end] =>
      lazymatch x with
      | context [match _ with _ => _ end] => fail
      | _ => destruct x eqn:?
      end
  end.

Ltac cases := repeat (innermost_case; cbn in *).

End Reasoning.

(** ** Creating a message *)

Module MessageCreation.
Import Text Store World Eff Queries Relations Reasoning Facts Scenarios.

Lemma uuidv4_issues allowed : keeps (issues allowed) uuidv4.
Proof. unfold uuidv4. kept. Qed.

Lemma uuidv4_leaves {X} (part : DB -> X) : keeps (leaves part) uuidv4.
Proof. unfold uuidv4. kept. Qed.

#[local] Hint Resolve uuidv4_issues uuidv4_leaves : kept.

Lemma resolveMessageId_issues allowed message :
  keeps (issues allowed) (resolveMessageId message).
Proof. unfold resolveMessageId. kept. Qed.

Lemma createdAt_or_now_issues allowed message :
  keeps (issues allowed) (createdAt_or_now message).
Proof. unfold createdAt_or_now. kept. Qed.

#[local] Hint Resolve resolveMessageId_issues createdAt_or_now_issues : kept.

Lemma insertFileAttachments_issues threadId user messageId fileAttachments :
  keeps (issues after_thread_check)
        (insertFileAttachments threadId user messageId fileAttachments).
Proof. unfold insertFileAttachments, keepAttachment, attachmentRow. kept. Qed.

Lemma touchThread_issues threadId message :
  keeps (issues after_thread_check) (touchThread threadId message).
Proof. unfold touchThread. kept. Qed.

#[local] Hint Resolve insertFileAttachments_issues touchThread_issues : kept.

Lemma persistMessage_issues threadId user message fileAttachments :
  keeps (issues after_thread_check)
        (persistMessage threadId user message fileAttachments).
Proof. unfold persistMessage. kept. Qed.

(** *** The thread check (lines 221-254) *)

Lemma ensureThreadExists_leaves_messages threadId user :
  keeps (leaves messages) (ensureThreadExists threadId user).
Proof. unfold ensureThreadExists. kept. Qed.

(** Its outcome and its calls, by the answer to the lookup. *)
Lemma ensureThreadExists_run threadId user w :
  let run := ensureThreadExists threadId user in
  match error (answer (select_single threads (thread_owned threadId user)) w) with
  | None =>
      result run w = Returned tt /\
      calls (after run w) = calls w ++ [(Threads, Select)]
  | Some e =>
      if code e =? "PGRST116" then
        calls (after run w) = calls w ++ [(Threads, Select); (Threads, Insert)]
      else
        result run w = Threw (StoreError e) /\
        calls (after run w) = calls w ++ [(Threads, Select)] /\
        db (after run w) = db w
  end.
Proof.
  destruct w as [ses d t ent dr wea cl con].
  unfold ensureThreadExists, insert_thread, select_single. run.
  destruct wea as [| [| e | f] rest]; cbn.
  all: cases.
  all: rewrite <- ?app_assoc; cbn; auto.
  apply single_error in Heqo. subst p. discriminate.
Qed.

Lemma ensureThreadExists_same_inputs threadId user :
  keeps same_inputs (ensureThreadExists threadId user).
Proof.
  unfold ensureThreadExists.
  repeat first
    [ apply (keeps_bind _ same_inputs_trans); [| intros ?]
    | apply (keeps_try_catch _ same_inputs_trans); [| intros ?]
    | apply say_same_inputs
    | apply from_same_inputs
    | apply (keeps_throw _ same_inputs_refl)
    | match goal with |- keeps _ (match ?x with _ => _ end) => destruct x end ].
Qed.

Lemma ensureThreadExists_leaves_file_attachments threadId user :
  keeps (leaves file_attachments) (ensureThreadExists threadId user).
Proof. unfold ensureThreadExists. kept. Qed.

(** The thread rows after the check, when it went through and nobody
    else wrote: the thread was there, or it was added at the end. *)
Lemma ensureThreadExists_threads threadId user w :
  alone w = true ->
  result (ensureThreadExists threadId user) w = Returned tt ->
  (exists r, filter (thread_owned threadId user) (threads (db w)) = [r] /\
             error (answer (select_single threads (thread_owned threadId user)) w) = None /\
             threads (db (after (ensureThreadExists threadId user) w)) = threads (db w))
  \/
  (existsb (fun t => th_id t =? threadId) (threads (db w)) = false /\
   (exists e, error (answer (select_single threads (thread_owned threadId user)) w) = Some e
              /\ code e = "PGRST116") /\
   threads (db (after (ensureThreadExists threadId user) w))
   = threads (db w) ++ [mkThread threadId "New Chat" user None]).
Proof.
  intros Ha.
  destruct w as [ses d t ent dr wea cl con].
  unfold ensureThreadExists, insert_thread, select_single. run.
  unfold alone in Ha. cbn in Ha.
  destruct wea as [| [| e | f] rest]; cbn in *; try discriminate Ha.
  all: cases; try discriminate.
  all: intros _.
  all: try match goal with
       | H : error (single ?l) = None |- _ =>
           destruct (single_no_error l H) as (r & Hr & _); left; exists r; now rewrite Hr
       end.
  all: right; split; [first [assumption | reflexivity] |];
    split; [eexists; split; [reflexivity | now apply String.eqb_eq] | reflexivity].
Qed.

(** *** The id of the row (lines 276-279) *)

Lemma nextUuid_is_uuid w : Uuid.is_uuid (nextUuid w) = true.
Proof.
  unfold nextUuid. apply v4_of_is_uuid. now rewrite length_map, length_seq.
Qed.

Lemma messageIdOf_is_uuid message w : Uuid.is_uuid (messageIdOf message w) = true.
Proof.
  unfold messageIdOf. destruct (ui_id message) as [id |].
  - destruct (Uuid.is_uuid id) eqn:E; [exact E | apply nextUuid_is_uuid].
  - apply nextUuid_is_uuid.
Qed.

Lemma is_uuid_truthy id : Uuid.is_uuid id = true -> truthy (Some id) = true.
Proof. destruct id; [discriminate | reflexivity]. Qed.

Lemma resolveMessageId_result message w :
  result (resolveMessageId message) w = Returned (messageIdOf message w).
Proof.
  unfold resolveMessageId, messageIdOf.
  destruct (ui_id message) as [id |]; [| reflexivity].
  destruct (Uuid.is_uuid id) eqn:E.
  - now rewrite (is_uuid_truthy _ E).
  - rewrite andb_false_r. reflexivity.
Qed.

Lemma resolveMessageId_same_store message : keeps same_store (resolveMessageId message).
Proof. unfold resolveMessageId, uuidv4. kept. Qed.

(** *** The attachment rows (lines 317-378) *)

Lemma keepAttachment_run a w :
  keepAttachment a w =
  (Returned (has_url a),
   mkWorld (session w) (db w) (now w) (entropy w) (drawn w) (weather w) (calls w)
           (console w ++ (if has_url a then [] else [skipped a]))).
Proof.
  unfold keepAttachment, has_url, skipped.
  destruct (truthy (fu_fileUrl a)), (truthy (fu_url a)); cbn;
    rewrite ?app_nil_r; destruct w; reflexivity.
Qed.

Lemma filterM_keepAttachment l : forall w,
  filterM keepAttachment l w =
  (Returned (filter has_url l),
   mkWorld (session w) (db w) (now w) (entropy w) (drawn w) (weather w) (calls w)
           (console w ++ map skipped (filter (fun a => negb (has_url a)) l))).
Proof.
  induction l as [| a l IH]; intros w; cbn [filterM filter map].
  - unfold ret. rewrite app_nil_r. destruct w; reflexivity.
  - unfold bind at 1. rewrite keepAttachment_run.
    unfold bind at 1. rewrite IH. unfold ret. cbn.
    destruct (has_url a); cbn; rewrite <- ?app_assoc, ?app_nil_r; reflexivity.
Qed.

Lemma has_url_or_else a :
  has_url a = true ->
  Some (or_string (or_else (fu_fileUrl a) (fu_url a)) "") =
  or_else (fu_fileUrl a) (fu_url a).
Proof.
  unfold has_url, or_string, or_else.
  destruct (truthy (fu_fileUrl a)) eqn:E1; cbn.
  - rewrite E1. destruct (fu_fileUrl a); [reflexivity | discriminate].
  - intros E2. rewrite E2. destruct (fu_url a); [reflexivity | discriminate].
Qed.

Lemma attachmentRow_run threadId user messageId a w :
  has_url a = true ->
  exists row,
    result (attachmentRow threadId user messageId a) w = Returned row /\
    stored_for threadId user messageId row a /\
    forall rest,
      attachmentIds (entropy w) (drawn w) (a :: rest)
      = fa_id row
        :: attachmentIds (entropy (after (attachmentRow threadId user messageId a) w))
             (drawn (after (attachmentRow threadId user messageId a) w)) rest.
Proof.
  intros Ha. unfold attachmentRow, stored_for. cbn [attachmentIds].
  destruct (fu_id a) as [id |]; [destruct (truthy (Some id)) |]; run;
    eexists; (split; [reflexivity |]); cbn;
    (split; [| reflexivity]); repeat split;
    now apply has_url_or_else.
Qed.

Lemma attachmentRow_same_store threadId user messageId a :
  keeps same_store (attachmentRow threadId user messageId a).
Proof. unfold attachmentRow, uuidv4. kept. Qed.

Lemma attachmentRow_console threadId user messageId a w :
  console (after (attachmentRow threadId user messageId a) w) = console w.
Proof.
  unfold attachmentRow.
  destruct (fu_id a) as [id |]; [destruct (truthy (Some id)) |]; run; reflexivity.
Qed.

Lemma mapM_attachmentRow threadId user messageId l : forall w,
  Forall (fun a => has_url a = true) l ->
  exists rows,
    result (mapM (attachmentRow threadId user messageId) l) w = Returned rows /\
    prepared threadId user messageId (entropy w) (drawn w) rows l /\
    same_store w (after (mapM (attachmentRow threadId user messageId) l) w) /\
    console (after (mapM (attachmentRow threadId user messageId) l) w) = console w.
Proof.
  induction l as [| a l IH]; intros w Hl.
  - exists []. cbn. repeat split. constructor.
  - inversion Hl as [| ? ? Ha Hl']; subst.
    destruct (attachmentRow_run threadId user messageId a w Ha) as (row & Hrow & Hfor & Hids).
    pose proof (attachmentRow_same_store threadId user messageId a w) as Hs.
    pose proof (attachmentRow_console threadId user messageId a w) as Hc.
    set (w1 := after (attachmentRow threadId user messageId a) w) in *.
    destruct (IH w1 Hl') as (rows & Hrows & (Hall & Hrest) & Hs' & Hc').
    assert (E : mapM (attachmentRow threadId user messageId) (a :: l) w =
                (Returned (row :: rows),
                 after (mapM (attachmentRow threadId user messageId) l) w1)).
    { cbn [mapM]. unfold bind at 1.
      rewrite (run_eta (attachmentRow threadId user messageId a) w), Hrow.
      fold w1. unfold bind at 1.
      rewrite (run_eta (mapM (attachmentRow threadId user messageId) l) w1), Hrows.
      reflexivity. }
    exists (row :: rows). unfold result, after. rewrite E. cbn [fst snd].
    split; [| split; [| split]].
    + reflexivity.
    + split; [now constructor |]. rewrite (Hids l). cbn [map]. now rewrite Hrest.
    + eapply same_store_trans; eauto.
    + etransitivity; [exact Hc' | exact Hc].
Qed.

Lemma insertFileAttachments_leaves_messages threadId user messageId fs :
  keeps (leaves messages) (insertFileAttachments threadId user messageId fs).
Proof. unfold insertFileAttachments, keepAttachment, attachmentRow. kept. Qed.

Lemma insertFileAttachments_leaves_threads threadId user messageId fs :
  keeps (leaves threads) (insertFileAttachments threadId user messageId fs).
Proof. unfold insertFileAttachments, keepAttachment, attachmentRow. kept. Qed.

Lemma filter_has_url_all l : Forall (fun a => has_url a = true) (filter has_url l).
Proof. apply Forall_forall. intros a Ha. now apply filter_In in Ha. Qed.

Lemma warnings_of_skipped l : filter is_warning (map skipped l) = map skipped l.
Proof. induction l as [| a l IH]; cbn; [reflexivity | now rewrite IH]. Qed.

(** The rows handed to the insert: one for each upload with a URL. *)
Lemma prepared_rows threadId user messageId l
    (k : list FileAttachmentRow -> M unit) h w0 :
  exists rows w3,
    prepared threadId user messageId (entropy w0) (drawn w0) rows (filter has_url l) /\
    db w3 = db w0 /\ weather w3 = weather w0 /\ calls w3 = calls w0 /\
    console w3 = console w0 ++ map skipped (filter (fun a => negb (has_url a)) l) /\
    try_catch
      (bind (filterM keepAttachment l)
         (fun kept => bind (mapM (attachmentRow threadId user messageId) kept) k))
      h w0
    = try_catch (k rows) h w3.
Proof.
  pose proof (filterM_keepAttachment l w0) as Hf.
  match type of Hf with _ = (_, ?x) => set (w2 := x) in * end.
  destruct (mapM_attachmentRow threadId user messageId (filter has_url l) w2
              (filter_has_url_all l)) as (rows & Hrows & Hall & Hs & Hc).
  set (w3 := after (mapM (attachmentRow threadId user messageId) (filter has_url l)) w2) in *.
  destruct Hs as (Hdb & Hwea & Hcalls & _).
  exists rows, w3. split; [exact Hall |]. repeat split; try assumption.
  unfold try_catch, bind. rewrite Hf.
  rewrite (run_eta (mapM (attachmentRow threadId user messageId) (filter has_url l)) w2), Hrows.
  reflexivity.
Qed.

Lemma insertFileAttachments_run threadId user messageId fs w :
  let run := insertFileAttachments threadId user messageId fs in
  let given := uploads fs in
  result run w = Returned tt /\
  (exists entries,
     console (after run w) = console w ++ entries /\
     filter is_warning entries = map skipped (filter (fun a => negb (has_url a)) given)) /\
  (exists rows,
     prepared threadId user messageId (entropy w) (drawn w) rows (filter has_url given) /\
     (alone w = true ->
      file_attachments (db (after run w)) = file_attachments (db w) ++ rows \/
      file_attachments (db (after run w)) = file_attachments (db w)) /\
     (weather w = [] ->
      distinct (map fa_id (file_attachments (db w) ++ rows)) = true ->
      file_attachments (db (after run w)) = file_attachments (db w) ++ rows)).
Proof.
  intros run given. subst run given. unfold insertFileAttachments.
  destruct (has_uploads fs) eqn:Hup.
  2:{ assert (uploads fs = []) as -> by (destruct fs as [[| ? ?] |]; cbn in *; congruence).
      cbn. split; [reflexivity |]. split.
      - exists []. now rewrite app_nil_r.
      - exists []. split; [split; [constructor | reflexivity] |]. rewrite app_nil_r. auto. }
  set (l := uploads fs).
  match goal with
  | |- context [bind (say ?lv ?t) (fun _ => try_catch (bind _ (fun kept => bind _ ?k)) ?h)] =>
      destruct (prepared_rows threadId user messageId l k h (after (say lv t) w))
        as (rows & w3 & Hall & Hdb & Hwea & Hcalls & Hcon & E);
      unfold result, after;
      change (bind (say lv t) (fun _ => try_catch (bind (filterM keepAttachment l)
                (fun kept => bind (mapM (attachmentRow threadId user messageId) kept) k)) h) w)
        with (try_catch (bind (filterM keepAttachment l)
                (fun kept => bind (mapM (attachmentRow threadId user messageId) kept) k)) h
                (after (say lv t) w));
      rewrite E
  end.
  cbn in Hdb, Hwea, Hcalls, Hcon. clear E.
  destruct w3 as [ses3 d3 t3 ent3 dr3 wea3 cl3 con3]. cbn in Hdb, Hwea, Hcalls, Hcon.
  subst d3 wea3 cl3 con3.
  assert (Hlone : forall d rest, weather w = d :: rest -> alone w = true -> is_race d = false).
  { intros d rest Hw Ha. now destruct (alone_tl w d rest Hw Ha). }
  destruct rows as [| row rows].
  - run. split; [reflexivity |]. split.
    + eexists. split; [rewrite <- !app_assoc; reflexivity |].
      cbn. now rewrite filter_app, warnings_of_skipped, app_nil_r.
    + exists []. split; [exact Hall |]. rewrite app_nil_r. auto.
  - unfold insert_file_attachments. run.
    destruct (weather w) as [| [| e | f] rest] eqn:Hw; cbn;
      try destruct (distinct _) eqn:Hd; cbn.
    all: split; [reflexivity |].
    all: split;
      [ eexists; split; [rewrite <- !app_assoc; reflexivity |];
        cbn; now rewrite filter_app, warnings_of_skipped, app_nil_r |].
    all: exists (row :: rows); split; [exact Hall |].
    all: split; [intros Ha | intros Hcalm Hfree]; auto; try discriminate; try congruence.
    all: specialize (Hlone _ _ eq_refl Ha); discriminate.
Qed.

(** *** The message row and what follows it (lines 256-393) *)

Lemma resolveMessageId_console message w :
  console (after (resolveMessageId message) w) = console w.
Proof.
  unfold resolveMessageId.
  destruct (ui_id message) as [id |]; [destruct (_ && _) |]; reflexivity.
Qed.

Lemma touchThread_run threadId message w :
  alone w = true ->
  result (touchThread threadId message) w = Returned tt ->
  db (after (touchThread threadId message) w)
  = snd (touch_thread threadId (createdAtOf message w) (db w)).
Proof.
  intros Ha. unfold touchThread, createdAtOf, createdAt_or_now.
  destruct (alone_cases w Ha) as [Hw | [(rest & Hw) | (e & rest & Hw)]];
    destruct w as [ses d t ent dr wea cl con]; cbn in Hw; subst wea;
    destruct (ui_createdAt message); run; try discriminate; reflexivity.
Qed.

Lemma touchThread_calm threadId message w :
  weather w = [] -> result (touchThread threadId message) w = Returned tt.
Proof.
  intros Hw. unfold touchThread, createdAt_or_now.
  destruct w as [ses d t ent dr wea cl con]; cbn in Hw; subst wea.
  destruct (ui_createdAt message); reflexivity.
Qed.

Lemma touchThread_console threadId message w :
  result (touchThread threadId message) w = Returned tt ->
  console (after (touchThread threadId message) w)
  = console w ++ [(Log, "Thread updated successfully")].
Proof.
  unfold touchThread, createdAt_or_now.
  destruct (ui_createdAt message); run; cases; try discriminate; reflexivity.
Qed.

(** Lines 317-392, after the message row is written. *)
Lemma attach_and_touch threadId user messageId message fs w :
  alone w = true ->
  let run := bind (insertFileAttachments threadId user messageId fs)
                  (fun _ => touchThread threadId message) in
  (weather w = [] -> result run w = Returned tt) /\
  (result run w = Returned tt ->
   messages (db (after run w)) = messages (db w) /\
   threads (db (after run w))
   = threads (snd (touch_thread threadId (createdAtOf message w) (db w))) /\
   (exists entries,
      console (after run w) = console w ++ entries /\
      filter is_warning entries
      = map skipped (filter (fun a => negb (has_url a)) (uploads fs))) /\
   (exists rows,
      prepared threadId user messageId (entropy w) (drawn w) rows
        (filter has_url (uploads fs)) /\
      (file_attachments (db (after run w)) = file_attachments (db w) ++ rows \/
       file_attachments (db (after run w)) = file_attachments (db w)) /\
      (weather w = [] ->
       distinct (map fa_id (file_attachments (db w) ++ rows)) = true ->
       file_attachments (db (after run w)) = file_attachments (db w) ++ rows))).
Proof.
  intros Ha run. subst run.
  destruct (insertFileAttachments_run threadId user messageId fs w)
    as (Hres & (entries & Hcon & Hwarn) & (rows & Hall & Hsome & Hcalm)).
  destruct (insertFileAttachments_leaves_messages threadId user messageId fs w Ha)
    as (Ha' & Hmsg & Hstill).
  destruct (insertFileAttachments_leaves_threads threadId user messageId fs w Ha)
    as (_ & Hthr & _).
  assert (Hnow : now (after (insertFileAttachments threadId user messageId fs) w) = now w).
  { assert (K : keeps (fun a b => now b = now a)
                      (insertFileAttachments threadId user messageId fs)).
    { unfold insertFileAttachments, keepAttachment, attachmentRow, uuidv4.
      repeat first
        [ apply keeps_bind; [intros; congruence | | intros ?]
        | apply keeps_try_catch; [intros; congruence | | intros ?]
        | apply keeps_filterM; [reflexivity | intros; congruence | intros ?]
        | apply keeps_mapM; [reflexivity | intros; congruence | intros ?]
        | match goal with
          | |- keeps _ (match ?x with _ => _ end) => destruct x
          end
        | intros ?; reflexivity ]. }
    apply K. }
  set (w' := after (insertFileAttachments threadId user messageId fs) w) in *.
  assert (E : bind (insertFileAttachments threadId user messageId fs)
                   (fun _ => touchThread threadId message) w
              = touchThread threadId message w').
  { unfold bind. now rewrite (run_eta (insertFileAttachments threadId user messageId fs) w), Hres. }
  unfold result, after. rewrite E. split.
  - intros Hw. apply touchThread_calm. auto.
  - intros Hret.
    pose proof (touchThread_run threadId message w' Ha' Hret) as Hdb.
    pose proof (touchThread_console threadId message w' Hret) as Hcon'.
    unfold after in Hdb, Hcon'. rewrite Hdb.
    assert (Hat : createdAtOf message w' = createdAtOf message w).
    { unfold createdAtOf. now rewrite Hnow. }
    split; [cbn; exact Hmsg |].
    split; [cbn; now rewrite Hthr, Hat |].
    split.
    + exists (entries ++ [(Log, "Thread updated successfully")]). split.
      * rewrite Hcon', Hcon. now rewrite app_assoc.
      * rewrite filter_app, Hwarn. cbn. now rewrite app_nil_r.
    + exists rows. split; [exact Hall |]. cbn. auto.
Qed.

Lemma resolveMessageId_drawn message w :
  drawn (after (resolveMessageId message) w) = drawnForId message w.
Proof.
  unfold resolveMessageId, drawnForId.
  destruct (ui_id message) as [id |]; [| reflexivity].
  destruct (Uuid.is_uuid id) eqn:E.
  - now rewrite (is_uuid_truthy id E).
  - now rewrite andb_false_r.
Qed.

Lemma persistMessage_run threadId user message fs w :
  alone w = true ->
  let run := persistMessage threadId user message fs in
  let row := messageRowOf threadId user message fs w in
  (weather w = [] -> result run w = Returned tt) /\
  (result run w = Returned tt ->
   messages (db (after run w)) = upsert_rows row (messages (db w)) /\
   threads (db (after run w))
   = threads (snd (touch_thread threadId (createdAtOf message w) (db w))) /\
   (exists entries,
      console (after run w) = console w ++ entries /\
      filter is_warning entries
      = map skipped (filter (fun a => negb (has_url a)) (uploads fs))) /\
   (exists rows,
      prepared threadId user (m_id row) (entropy w) (drawnForId message w) rows
        (filter has_url (uploads fs)) /\
      (file_attachments (db (after run w)) = file_attachments (db w) ++ rows \/
       file_attachments (db (after run w)) = file_attachments (db w)) /\
      (weather w = [] ->
       distinct (map fa_id (file_attachments (db w) ++ rows)) = true ->
       file_attachments (db (after run w)) = file_attachments (db w) ++ rows))).
Proof.
  intros Ha run row. subst run.
  pose proof (resolveMessageId_result message w) as Hid.
  pose proof (resolveMessageId_same_store message w)
    as (Hdb & Hwea & Hcalls & Hnow & _ & Hent).
  pose proof (resolveMessageId_drawn message w) as Hdr.
  pose proof (resolveMessageId_console message w) as Hcon.
  set (w2 := after (resolveMessageId message) w) in *.
  assert (E : forall k : string -> M unit,
            bind (resolveMessageId message) k w = k (messageIdOf message w) w2).
  { intros k. unfold bind. now rewrite (run_eta (resolveMessageId message) w), Hid. }
  unfold persistMessage, result, after. rewrite E. clear E Hid.
  destruct w2 as [ses2 d2 t2 ent2 dr2 wea2 cl2 con2].
  cbn in Hdb, Hwea, Hcalls, Hnow, Hcon, Hent, Hdr.
  subst d2 wea2 cl2 t2 con2 ent2 dr2.
  (* the world the attachments are written in, when the upsert is served *)
  set (w4 := mkWorld ses2 (snd (upsert_message row (db w))) (now w) (entropy w) (drawnForId message w)
                     (tl (weather w)) (calls w ++ [(Messages, Upsert)])
                     ((console w ++ [(Log, "Message ID validation:")])
                        ++ [(Log, "Message created successfully")])).
  assert (Ha4 : alone w4 = true).
  { unfold alone in *. cbn. destruct (weather w); cbn in *; [reflexivity |].
    apply andb_true_iff in Ha. tauto. }
  pose proof (attach_and_touch threadId user (messageIdOf message w) message fs w4 Ha4)
    as (Hcalm & Hret).
  unfold result, after in Hcalm, Hret.
  assert (Served :
    forall rest, weather w = [] \/ weather w = Calm :: rest ->
    (bind (say Log "Message ID validation:")
       (fun _ => bind (createdAt_or_now message)
          (fun created_at => bind
             (from Messages Upsert
                (upsert_message
                   (mkMessage (messageIdOf message w) threadId user
                      (updatedParts message fs) (ui_role message)
                      (ui_content message) created_at None)))
             (fun upserted =>
                match error upserted with
                | Some messageError =>
                    bind (say Error "Failed to create message:")
                      (fun _ => bind (say Error "Message creation error details:")
                         (fun _ => throw (StoreError messageError)))
                | None =>
                    bind (say Log "Message created successfully")
                      (fun _ => bind
                         (insertFileAttachments threadId user (messageIdOf message w) fs)
                         (fun _ => touchThread threadId message))
                end))))
      (mkWorld ses2 (db w) (now w) (entropy w) (drawnForId message w) (weather w) (calls w) (console w))
    = bind (insertFileAttachments threadId user (messageIdOf message w) fs)
           (fun _ => touchThread threadId message) w4).
  { intros rest Hw. subst w4 row. unfold messageRowOf, createdAtOf, createdAt_or_now.
    destruct Hw as [Hw | Hw]; rewrite ?Hw;
      destruct (ui_createdAt message); run; rewrite ?Hw; cbn; reflexivity. }
  destruct (alone_cases w Ha) as [Hw | [(rest & Hw) | (e & rest & Hw)]].
  - rewrite (Served [] (or_introl Hw)). split.
    + intros _. apply Hcalm. cbn. now rewrite Hw.
    + intros R. destruct (Hret R) as (Hm & Ht & (entries & Hc & Hwarn) & (rows & Hall & Hsome & Hfree)).
      split; [exact Hm |]. split.
      * rewrite Ht. reflexivity.
      * split.
        -- exists ([(Log, "Message ID validation:"); (Log, "Message created successfully")] ++ entries).
           split; [rewrite Hc; cbn; now rewrite <- !app_assoc | exact Hwarn].
        -- exists rows. cbn in Hsome, Hfree.
           split; [exact Hall |]. split; [exact Hsome |].
           intros _. apply Hfree. now rewrite Hw.
  - rewrite (Served rest (or_intror Hw)). split.
    + intros C. rewrite Hw in C. discriminate C.
    + intros R. destruct (Hret R) as (Hm & Ht & (entries & Hc & Hwarn) & (rows & Hall & Hsome & Hfree)).
      split; [exact Hm |]. split.
      * rewrite Ht. reflexivity.
      * split.
        -- exists ([(Log, "Message ID validation:"); (Log, "Message created successfully")] ++ entries).
           split; [rewrite Hc; cbn; now rewrite <- !app_assoc | exact Hwarn].
        -- exists rows. cbn in Hsome, Hfree.
           split; [exact Hall |]. split; [exact Hsome |].
           intros C. rewrite Hw in C. discriminate C.
  - split.
    + intros C. rewrite Hw in C. discriminate C.
    + unfold createdAt_or_now. destruct (ui_createdAt message); run; rewrite Hw; cbn;
        intros R; discriminate R.
Qed.

(** *** The whole function *)

Lemma createMessage_signed_in threadId message fs w user :
  auth_user (session w) = Some user ->
  createMessage threadId message fs w
  = bind (ensureThreadExists threadId user)
         (fun _ => persistMessage threadId user message fs)
         (after (say Log "Creating message:") w).
Proof.
  intros H. unfold createMessage, bind at 1, auth_getUser. now rewrite H.
Qed.

Lemma createMessage_signed_out threadId message fs w :
  auth_user (session w) = None ->
  createMessage threadId message fs w = (Threw (JsError "User not authenticated"), w).
Proof.
  intros H. unfold createMessage, bind at 1, auth_getUser. now rewrite H.
Qed.

Lemma touch_thread_threads threadId at_ d :
  threads (snd (touch_thread threadId at_ d)) = map (stamped threadId at_) (threads d).
Proof. reflexivity. Qed.

Lemma stamped_absent threadId at_ l :
  existsb (fun t => th_id t =? threadId) l = false -> map (stamped threadId at_) l = l.
Proof.
  induction l as [| t l IH]; cbn; [reflexivity |].
  intros H. apply orb_false_iff in H as [Ht Hl].
  unfold stamped at 1. rewrite Ht. now rewrite IH.
Qed.

(** What a successful call leaves in the store, when nobody else wrote. *)
Lemma createMessage_returned threadId message fs w user :
  auth_user (session w) = Some user ->
  alone w = true ->
  let run := createMessage threadId message fs in
  let row := messageRowOf threadId user message fs w in
  let at_ := createdAtOf message w in
  result run w = Returned tt ->
  messages (db (after run w)) = upsert_rows row (messages (db w)) /\
  ((exists r, filter (thread_owned threadId user) (threads (db w)) = [r] /\
              error (answer (select_single threads (thread_owned threadId user)) w) = None /\
              threads (db (after run w)) = map (stamped threadId at_) (threads (db w)))
   \/
   (existsb (fun t => th_id t =? threadId) (threads (db w)) = false /\
    (exists e, error (answer (select_single threads (thread_owned threadId user)) w) = Some e
               /\ code e = "PGRST116") /\
    threads (db (after run w))
    = threads (db w) ++ [mkThread threadId "New Chat" user (Some at_)])) /\
  (exists entries,
     console (after run w) = console w ++ entries /\
     filter is_warning entries
     = map skipped (filter (fun a => negb (has_url a)) (uploads fs))) /\
  (exists rows,
     prepared threadId user (m_id row) (entropy w) (drawnForId message w) rows
       (filter has_url (uploads fs)) /\
     (file_attachments (db (after run w)) = file_attachments (db w) ++ rows \/
      file_attachments (db (after run w)) = file_attachments (db w)) /\
     (weather w = [] ->
      distinct (map fa_id (file_attachments (db w) ++ rows)) = true ->
      file_attachments (db (after run w)) = file_attachments (db w) ++ rows)).
Proof.
  intros Hu Ha run row at_. subst run.
  unfold result, after. rewrite (createMessage_signed_in _ _ _ _ _ Hu).
  set (w0 := after (say Log "Creating message:") w).
  assert (Ha0 : alone w0 = true) by exact Ha.
  destruct (bind_cases (ensureThreadExists threadId user)
              (fun _ => persistMessage threadId user message fs) w0)
    as [([] & He & ->) | (t & He & ->)]; [| discriminate].
  pose proof (ensureThreadExists_threads threadId user w0 Ha0 He) as Hthreads.
  destruct (ensureThreadExists_leaves_messages threadId user w0 Ha0) as (Ha1 & Hmsg & Hcalm).
  destruct (ensureThreadExists_leaves_file_attachments threadId user w0 Ha0) as (_ & Hfa & _).
  destruct (ensureThreadExists_same_inputs threadId user w0) as (Hnow & Hses & Hent & Hdr).
  assert (Hcon : exists entries,
             console (after (ensureThreadExists threadId user) w0) = console w ++ entries /\
             filter is_warning entries = []).
  { clear. destruct w as [ses d t ent dr wea cl con].
    unfold ensureThreadExists, insert_thread, select_single. run.
    cases; eexists; (split; [rewrite <- !app_assoc; reflexivity | reflexivity]). }
  set (w1 := after (ensureThreadExists threadId user) w0) in *.
  assert (Hrow : messageRowOf threadId user message fs w1 = row).
  { subst row. unfold messageRowOf, messageIdOf, createdAtOf, nextUuid.
    now rewrite Hnow, Hent, Hdr. }
  assert (Hat : createdAtOf message w1 = at_).
  { subst at_. unfold createdAtOf. now rewrite Hnow. }
  destruct (persistMessage_run threadId user message fs w1 Ha1) as (_ & Hret).
  fold (result (persistMessage threadId user message fs) w1).
  fold (after (persistMessage threadId user message fs) w1).
  intros R. destruct (Hret R) as (Hm & Ht & (entries & Hc & Hwarn) & (rows & Hall & Hsome & Hfree)).
  rewrite Hrow, Hat in *. clear Hret.
  split; [rewrite Hm, Hmsg; reflexivity |].
  split.
  { rewrite Ht, touch_thread_threads.
    destruct Hthreads as [(r & Hone & Herr & Hsame) | (Hnone & Herr & Hadd)].
    - left. exists r. repeat split; try assumption. now rewrite Hsame.
    - right. repeat split; try assumption. rewrite Hadd, map_app.
      rewrite (stamped_absent _ _ _ Hnone). cbn. unfold stamped. cbn.
      now rewrite String.eqb_refl. }
  split.
  { destruct Hcon as (entries0 & Hc0 & Hw0). exists (entries0 ++ entries). split.
    - rewrite Hc, Hc0. now rewrite app_assoc.
    - now rewrite filter_app, Hw0, Hwarn. }
  exists rows. rewrite Hfa in *.
  assert (Hdrawn : drawnForId message w1 = drawnForId message w).
  { unfold drawnForId. now rewrite Hdr. }
  rewrite Hent, Hdrawn in Hall.
  split; [exact Hall |]. split; [exact Hsome |].
  intros Hw. apply Hfree. apply Hcalm. exact Hw.
Qed.

(** *** Upserts on a list of rows *)

Lemma rows_with_id_absent id rows :
  existsb (fun m => m_id m =? id) rows = false -> rows_with_id id rows = [].
Proof.
  unfold rows_with_id. induction rows as [| m rows IH]; cbn; [reflexivity |].
  intros H. apply orb_false_iff in H as [Hm Hr]. rewrite Hm. auto.
Qed.

Lemma rows_with_id_overwritten row rows :
  rows_with_id (m_id row)
    (map (fun m => if m_id m =? m_id row then overwrite row m else m) rows)
  = map (overwrite row) (rows_with_id (m_id row) rows).
Proof.
  unfold rows_with_id. induction rows as [| m rows IH]; cbn; [reflexivity |].
  destruct (m_id m =? m_id row) eqn:E; cbn.
  - rewrite String.eqb_refl. cbn. now rewrite IH.
  - rewrite E. exact IH.
Qed.

Lemma upsert_rows_with_id row rows :
  (List.length (rows_with_id (m_id row) rows) <= 1)%nat ->
  exists m, rows_with_id (m_id row) (upsert_rows row rows) = [m] /\
            m_id m = m_id row /\ m_content m = m_content row /\
            m_role m = m_role row /\ m_thread_id m = m_thread_id row.
Proof.
  intros H. unfold upsert_rows.
  destruct (existsb (fun m => m_id m =? m_id row) rows) eqn:E.
  - rewrite rows_with_id_overwritten.
    destruct (rows_with_id (m_id row) rows) as [| m [| m' l]] eqn:F.
    + exfalso. apply existsb_exists in E as (m & Hin & Hm).
      assert (In m (rows_with_id (m_id row) rows)) as Hin'
        by (apply filter_In; now split).
      rewrite F in Hin'. contradiction.
    + exists (overwrite row m). repeat split.
    + cbn in H. lia.
  - unfold rows_with_id. rewrite filter_app. fold (rows_with_id (m_id row) rows).
    rewrite (rows_with_id_absent _ _ E). cbn. rewrite String.eqb_refl.
    exists row. repeat split.
Qed.

(** *** Threads after a call *)

Lemma thread_owned_stamped threadId user id at_ t :
  thread_owned threadId user (stamped id at_ t) = thread_owned threadId user t.
Proof. unfold stamped. now destruct (th_id t =? id). Qed.

Lemma filter_owned_stamped threadId user id at_ l :
  filter (thread_owned threadId user) (map (stamped id at_) l)
  = map (stamped id at_) (filter (thread_owned threadId user) l).
Proof.
  induction l as [| t l IH]; cbn; [reflexivity |].
  rewrite thread_owned_stamped. destruct (thread_owned threadId user t); cbn; now rewrite IH.
Qed.

Lemma filter_owned_absent threadId user l :
  existsb (fun t => th_id t =? threadId) l = false ->
  filter (thread_owned threadId user) l = [].
Proof.
  induction l as [| t l IH]; cbn; [reflexivity |].
  intros H. apply orb_false_iff in H as [Ht Hl].
  unfold thread_owned at 1. rewrite Ht. cbn. auto.
Qed.

Lemma ensureThreadExists_found threadId user w r :
  weather w = [] ->
  filter (thread_owned threadId user) (threads (db w)) = [r] ->
  result (ensureThreadExists threadId user) w = Returned tt.
Proof.
  intros Hw Hr. destruct w as [ses d t ent dr wea cl con]. cbn in Hw, Hr. subst wea.
  unfold ensureThreadExists, select_single. run. rewrite Hr. reflexivity.
Qed.

Lemma settled_refl w : settled w w.
Proof. now repeat split. Qed.

Lemma settled_trans a b c : settled a b -> settled b c -> settled a c.
Proof.
  unfold settled. intros (? & ? & ?) (? & ? & ?).
  split; [congruence | split; auto].
Qed.

Lemma from_settled {A} t v (q : Query A) : keeps settled (from t v q).
Proof.
  intros w. split; [reflexivity |]. split.
  - cbn. now intros ->.
  - apply alone_after_from.
Qed.

Ltac settled_steps :=
  repeat first
    [ apply (keeps_bind _ settled_trans); [| intros ?]
    | apply (keeps_try_catch _ settled_trans); [| intros ?]
    | apply (keeps_filterM _ settled_refl settled_trans); intros ?
    | apply (keeps_mapM _ settled_refl settled_trans); intros ?
    | apply from_settled
    | match goal with |- keeps _ (match ?x with _ => _ end) => destruct x end
    | (intros ?; split; [reflexivity | split; intros E; exact E]) ].

Lemma createMessage_settled threadId message fs :
  keeps settled (createMessage threadId message fs).
Proof.
  unfold createMessage, ensureThreadExists, persistMessage, insertFileAttachments,
    touchThread, resolveMessageId, createdAt_or_now, keepAttachment, attachmentRow,
    uuidv4.
  settled_steps.
Qed.

(** *** The thread row comes first *)

Lemma no_thread_insert_later l :
  forallb after_thread_check l = true -> count_calls (Threads, Insert) l = 0%nat.
Proof.
  unfold count_calls. induction l as [| c l IH]; [reflexivity |].
  intros H. cbn [forallb] in H. apply andb_true_iff in H as [Hc Hl].
  cbn [filter].
  destruct c as [[] []]; vm_compute in Hc; try discriminate Hc; cbn; now apply IH.
Qed.

(** C2. [createMessage], called by a signed-in user, looks the thread up
    by id and owner before anything else. If the lookup comes back with
    the "not found" error, its next call inserts a thread row, and no
    other thread insert follows, so the insert precedes the message
    upsert; when the call goes through and nobody else writes, the
    threads are those from before and one minimal row for this thread
    and user. If the lookup finds the thread, no thread insert is issued.
    If the lookup comes back with any other error, that error is thrown,
    the lookup is the only store call, and the store is as before, so no
    message row is written. *)
Theorem createMessage_ensures_thread :
  forall w threadId message fileAttachments user,
    auth_user (session w) = Some user ->
    let lookup := answer (select_single threads (thread_owned threadId user)) w in
    let run := createMessage threadId message fileAttachments in
    (forall e, error lookup = Some e -> code e = "PGRST116" ->
       (exists rest,
          calls (after run w) = calls w ++ (Threads, Select) :: (Threads, Insert) :: rest /\
          count_calls (Threads, Insert) rest = 0%nat) /\
       (alone w = true -> result run w = Returned tt ->
        threads (db (after run w))
        = threads (db w)
            ++ [mkThread threadId "New Chat" user (Some (createdAtOf message w))])) /\
    (error lookup = None ->
       exists issued,
         calls (after run w) = calls w ++ issued /\
         count_calls (Threads, Insert) issued = 0%nat) /\
    (forall e, error lookup = Some e -> code e <> "PGRST116" ->
       result run w = Threw (StoreError e) /\
       calls (after run w) = calls w ++ [(Threads, Select)] /\
       db (after run w) = db w).
Proof.
  intros w threadId message fs user Hu lookup run.
  pose proof (createMessage_signed_in threadId message fs w user Hu) as Hcm.
  set (w0 := after (say Log "Creating message:") w) in *.
  pose proof (ensureThreadExists_run threadId user w0) as Hrun. cbv zeta in Hrun.
  change (answer (select_single threads (thread_owned threadId user)) w0) with lookup in Hrun.
  change (calls w0) with (calls w) in Hrun. change (db w0) with (db w) in Hrun.
  assert (Hafter :
    (exists l, calls (after run w) = calls (after (ensureThreadExists threadId user) w0) ++ l /\
               forallb after_thread_check l = true)).
  { unfold run, after at 1. rewrite Hcm.
    destruct (bind_cases (ensureThreadExists threadId user)
                (fun _ => persistMessage threadId user message fs) w0)
      as [([] & _ & ->) | (t & _ & ->)].
    - apply persistMessage_issues.
    - exists []. cbn. now rewrite app_nil_r. }
  destruct Hafter as (l & Hcalls & Hl).
  split; [| split].
  - intros e He Hcode. rewrite He in Hrun.
    apply String.eqb_eq in Hcode. rewrite Hcode in Hrun. split.
    + exists l. split; [| now apply no_thread_insert_later].
      rewrite Hcalls, Hrun, <- app_assoc. reflexivity.
    + intros Ha R.
      destruct (createMessage_returned threadId message fs w user Hu Ha R)
        as (_ & [(r & _ & Hnone & _) | (_ & _ & Hthreads)] & _).
      * fold lookup in Hnone. congruence.
      * exact Hthreads.
  - intros Hnone. rewrite Hnone in Hrun. destruct Hrun as (_ & Hc).
    exists ((Threads, Select) :: l). split.
    + rewrite Hcalls, Hc, <- app_assoc. reflexivity.
    + cbn. now apply no_thread_insert_later.
  - intros e He Hcode. rewrite He in Hrun.
    apply String.eqb_neq in Hcode. rewrite Hcode in Hrun.
    destruct Hrun as (Hres & Hc & Hdb).
    unfold run, result, after. rewrite Hcm.
    destruct (bind_cases (ensureThreadExists threadId user)
                (fun _ => persistMessage threadId user message fs) w0)
      as [(a & Ha & _) | (t & Ht & ->)]; [congruence |].
    cbn [fst snd]. repeat split; try assumption. congruence.
Qed.

(** C2 on three runs: the thread is missing, the thread is there, the
    store is down. *)
Lemma createMessage_ensures_thread_witness :
  threads (db (after (createMessage thread1 hello None) (world_of (Some alice) empty_store [])))
  = [mkThread thread1 "New Chat" alice (Some 1700000000000%Z)] /\
  count_calls (Threads, Insert)
    (calls (after (createMessage thread1 hello None) (world_of (Some alice) alice_store [])))
  = 0%nat /\
  result (createMessage thread1 hello None) (world_of (Some alice) alice_store [Fails outage])
  = Threw (StoreError outage).
Proof.
  split; [| split].
  - destruct (createMessage_ensures_thread (world_of (Some alice) empty_store [])
                thread1 hello None alice eq_refl) as (Hmissing & _ & _).
    destruct (Hmissing not_found eq_refl eq_refl) as (_ & Hrows).
    apply Hrows; vm_compute; reflexivity.
  - destruct (createMessage_ensures_thread (world_of (Some alice) alice_store [])
                thread1 hello None alice eq_refl) as (_ & Hfound & _).
    destruct (Hfound eq_refl) as (issued & Hcalls & Hcount).
    rewrite Hcalls. exact Hcount.
  - destruct (createMessage_ensures_thread (world_of (Some alice) alice_store [Fails outage])
                thread1 hello None alice eq_refl) as (_ & _ & Hother).
    destruct (Hother outage eq_refl) as (Hres & _).
    + vm_compute. intros E. discriminate E.
    + exact Hres.
Defined.

(** *** Retrying a call *)

Lemma messageIdOf_given message id w :
  ui_id message = Some id -> Uuid.is_uuid id = true -> messageIdOf message w = id.
Proof. unfold messageIdOf. now intros -> ->. Qed.

Lemma calm_alone w : weather w = [] -> alone w = true.
Proof. unfold alone. now intros ->. Qed.

Lemma createMessage_user threadId message fs w :
  result (createMessage threadId message fs) w = Returned tt ->
  exists user, auth_user (session w) = Some user.
Proof.
  destruct (auth_user (session w)) as [user |] eqn:Hu; [eauto |].
  unfold result. rewrite (createMessage_signed_out _ _ _ _ Hu). discriminate.
Qed.

(** C1. Take a world where nobody else writes and where [id] is a key
    of the message table, and a call of [createMessage] with a
    well-formed id that went through. Then exactly one message row has
    that id. Repeating the call with the same arguments raises no
    conflict: in a calm world the second call goes through, and whenever
    it goes through exactly one row has that id afterwards; it carries
    the content, role and thread of the message. *)
Theorem createMessage_retry_idempotent :
  forall w threadId message fileAttachments id,
    ui_id message = Some id ->
    Uuid.is_uuid id = true ->
    alone w = true ->
    (List.length (rows_with_id id (messages (db w))) <= 1)%nat ->
    let run := createMessage threadId message fileAttachments in
    result run w = Returned tt ->
    List.length (rows_with_id id (messages (db (after run w)))) = 1%nat /\
    (weather w = [] -> result run (after run w) = Returned tt) /\
    (result run (after run w) = Returned tt ->
     exists m,
       rows_with_id id (messages (db (after run (after run w)))) = [m] /\
       m_content m = ui_content message /\
       m_role m = ui_role message /\
       m_thread_id m = threadId).
Proof.
  intros w threadId message fs id Hid Huuid Ha Hkey run R.
  destruct (createMessage_user _ _ _ _ R) as (user & Hu).
  destruct (createMessage_returned threadId message fs w user Hu Ha R)
    as (Hmsg & Hthr & _ & _).
  destruct (createMessage_settled threadId message fs w) as (Hses & Hstill & Halone).
  fold run in Hmsg, Hthr, Hses, Hstill, Halone.
  set (w1 := after run w) in *.
  assert (Hu1 : auth_user (session w1) = Some user) by (now rewrite Hses).
  pose proof (Halone Ha) as Ha1.
  set (row := messageRowOf threadId user message fs w) in *.
  assert (Hrow : m_id row = id) by (apply messageIdOf_given; assumption).
  (* one row after the first call *)
  assert (Hone : exists m, rows_with_id id (messages (db w1)) = [m]).
  { rewrite <- Hrow in Hkey |- *. rewrite Hmsg.
    destruct (upsert_rows_with_id row (messages (db w)) Hkey) as (m & Hm & _). eauto. }
  split; [destruct Hone as (m & ->); reflexivity |]. split.
  - (* the thread is there for the second call, which goes through *)
    intros Hcalm. pose proof (Hstill Hcalm) as Hcalm1.
    assert (Hthread : exists r, filter (thread_owned threadId user) (threads (db w1)) = [r]).
    { destruct Hthr as [(r & Hr & _ & ->) | (Hnone & _ & ->)].
      - rewrite filter_owned_stamped, Hr. cbn. eauto.
      - rewrite filter_app, (filter_owned_absent _ user _ Hnone). cbn.
        unfold thread_owned. cbn. rewrite !String.eqb_refl. cbn. eauto. }
    destruct Hthread as (r & Hr).
    unfold run, result. rewrite (createMessage_signed_in _ _ _ _ _ Hu1).
    set (w1' := after (say Log "Creating message:") w1).
    destruct (bind_cases (ensureThreadExists threadId user)
                (fun _ => persistMessage threadId user message fs) w1')
      as [([] & He & ->) | (t & He & _)].
    + destruct (ensureThreadExists_leaves_messages threadId user w1' Ha1) as (Ha2 & _ & Hc2).
      destruct (persistMessage_run threadId user message fs
                  (after (ensureThreadExists threadId user) w1') Ha2) as (Hret & _).
      apply Hret. apply Hc2. exact Hcalm1.
    + rewrite (ensureThreadExists_found threadId user w1' r Hcalm1 Hr) in He. discriminate.
  - intros R1.
    destruct (createMessage_returned threadId message fs w1 user Hu1 Ha1 R1)
      as (Hmsg2 & _).
    fold run in Hmsg2.
    set (row1 := messageRowOf threadId user message fs w1) in *.
    assert (Hrow1 : m_id row1 = id) by (apply messageIdOf_given; assumption).
    assert (Hkey1 : (List.length (rows_with_id (m_id row1) (messages (db w1))) <= 1)%nat).
    { rewrite Hrow1. destruct Hone as (m & ->). cbn. lia. }
    destruct (upsert_rows_with_id row1 (messages (db w1)) Hkey1)
      as (m & Hm & _ & Hcontent & Hrole & Hthread).
    exists m. rewrite Hmsg2, <- Hrow1. repeat split; assumption.
Qed.

(** C1 at a first message in a new thread, sent twice. *)
Lemma createMessage_retry_idempotent_witness :
  result (createMessage thread1 hello None)
         (after (createMessage thread1 hello None) (world_of (Some alice) empty_store []))
  = Returned tt /\
  exists m,
    rows_with_id hello_id
      (messages (db (after (createMessage thread1 hello None)
                       (after (createMessage thread1 hello None)
                          (world_of (Some alice) empty_store []))))) = [m] /\
    m_content m = "hello" /\ m_role m = "user" /\ m_thread_id m = thread1.
Proof.
  destruct (createMessage_retry_idempotent (world_of (Some alice) empty_store [])
              thread1 hello None hello_id)
    as (_ & Hagain & Hone).
  - reflexivity.
  - vm_compute. reflexivity.
  - reflexivity.
  - cbn. lia.
  - vm_compute. reflexivity.
  - split; [apply Hagain; reflexivity |].
    apply Hone. apply Hagain. reflexivity.
Defined.

(** *** The id of the stored row *)

Lemma upsert_rows_contains row rows :
  exists m, In m (upsert_rows row rows) /\ m_id m = m_id row /\
            m_content m = m_content row.
Proof.
  unfold upsert_rows.
  destruct (existsb (fun m => m_id m =? m_id row) rows) eqn:E.
  - apply existsb_exists in E as (m0 & Hin & Hm0).
    exists (overwrite row m0). split; [| now split].
    apply in_map_iff. exists m0. now rewrite Hm0.
  - exists row. split; [apply in_or_app; right; now left | now split].
Qed.

(** C3. The id [createMessage] writes the message under is computed by
    [resolveMessageId], which always returns: it is the caller's id when
    that id has the UUID format, and otherwise, for an id that is absent
    or malformed, the UUID generated from the next sixteen random bytes;
    in both cases it has the UUID format. When the call goes through and
    nobody else writes, the message table holds a row with that id and
    the content of the message. *)
Theorem createMessage_message_id :
  (forall message w,
     result (resolveMessageId message) w = Returned (messageIdOf message w) /\
     Uuid.is_uuid (messageIdOf message w) = true) /\
  (forall message w given,
     ui_id message = Some given -> Uuid.is_uuid given = true ->
     messageIdOf message w = given) /\
  (forall message w,
     ui_id message = None \/
     (exists given, ui_id message = Some given /\ Uuid.is_uuid given = false) ->
     messageIdOf message w = nextUuid w) /\
  (forall w threadId message fileAttachments,
     alone w = true ->
     result (createMessage threadId message fileAttachments) w = Returned tt ->
     exists m,
       In m (messages (db (after (createMessage threadId message fileAttachments) w))) /\
       m_id m = messageIdOf message w /\
       Uuid.is_uuid (m_id m) = true /\
       m_content m = ui_content message).
Proof.
  split; [| split; [| split]].
  - intros message w. split; [apply resolveMessageId_result | apply messageIdOf_is_uuid].
  - intros message w given. apply messageIdOf_given.
  - intros message w [Hnone | (given & Hsome & Hbad)]; unfold messageIdOf.
    + now rewrite Hnone.
    + now rewrite Hsome, Hbad.
  - intros w threadId message fs Ha R.
    destruct (createMessage_user _ _ _ _ R) as (user & Hu).
    destruct (createMessage_returned threadId message fs w user Hu Ha R) as (Hmsg & _).
    destruct (upsert_rows_contains (messageRowOf threadId user message fs w)
                (messages (db w))) as (m & Hin & Hid & Hcontent).
    exists m. rewrite Hmsg. split; [exact Hin |]. split; [exact Hid |].
    split; [| exact Hcontent]. rewrite Hid. apply messageIdOf_is_uuid.
Qed.

(** C3 at a message whose id is not a UUID: the row is stored under a
    generated id. *)
Lemma createMessage_message_id_witness :
  messageIdOf reply (world_of (Some alice) alice_store [])
  = nextUuid (world_of (Some alice) alice_store []) /\
  exists m,
    In m (messages (db (after (createMessage thread1 reply None)
                          (world_of (Some alice) alice_store [])))) /\
    m_id m = messageIdOf reply (world_of (Some alice) alice_store []) /\
    Uuid.is_uuid (m_id m) = true /\
    m_content m = "hi there".
Proof.
  destruct createMessage_message_id as (_ & _ & Hfresh & Hstored).
  split.
  - apply Hfresh. right. exists "msg-42". split; [reflexivity | vm_compute; reflexivity].
  - apply (Hstored (world_of (Some alice) alice_store []) thread1 reply None).
    + reflexivity.
    + vm_compute. reflexivity.
Defined.

(** *** Attachments *)



End MessageCreation.

(** ** Pinned messages *)

Module Pins.
Import Store World Eff Queries Relations Reasoning Scenarios.

(** C10. [isPinned] answers [false], and throws nothing, when nobody is
    signed in (no store call is made then), when the lookup is served
    and no pinned row matches user, thread and message, and whenever the
    lookup comes back with the "not found" error. *)
Theorem isPinned_absorbs_missing :
  (forall w threadId messageId,
     auth_user (session w) = None ->
     result (isPinned threadId messageId) w = Returned false /\
     after (isPinned threadId messageId) w = w) /\
  (forall w threadId messageId user,
     auth_user (session w) = Some user ->
     next_disturbance w = Calm ->
     filter (pin_of user threadId messageId) (pinned_messages (db w)) = [] ->
     result (isPinned threadId messageId) w = Returned false) /\
  (forall w threadId messageId user e,
     auth_user (session w) = Some user ->
     error (answer (select_single pinned_messages (pin_of user threadId messageId)) w)
     = Some e ->
     code e = "PGRST116" ->
     result (isPinned threadId messageId) w = Returned false).
Proof.
  split; [| split].
  - intros w threadId messageId Hu. unfold isPinned. run. now rewrite Hu.
  - intros w threadId messageId user Hu Hcalm Hnone.
    unfold isPinned, select_single. run. rewrite Hu. cbn.
    unfold next_disturbance in Hcalm. rewrite Hcalm. cbn. rewrite Hnone. reflexivity.
  - intros w threadId messageId user e Hu He Hcode.
    unfold isPinned. run. rewrite Hu. cbn.
    unfold answer, next_disturbance in He. rewrite He.
    apply String.eqb_eq in Hcode. rewrite Hcode. cbn.
    destruct (weather w) as [| [| e' | f] rest]; cbn in *;
      try (unfold select_single in He; cbn in He;
           match type of He with
           | error (single ?l) = _ => destruct l as [| ? [| ? ?]]; cbn in *; try discriminate
           end);
      reflexivity.
Qed.

(** C10 with nobody signed in, and with alice signed in and no pin. *)
Lemma isPinned_absorbs_missing_witness :
  result (isPinned thread1 hello_id) (world_of None empty_store []) = Returned false /\
  result (isPinned thread1 hello_id) (world_of (Some alice) alice_store []) = Returned false.
Proof.
  destruct isPinned_absorbs_missing as (Hout & Hnone & _).
  split.
  - apply (Hout (world_of None empty_store []) thread1 hello_id). reflexivity.
  - apply (Hnone (world_of (Some alice) alice_store []) thread1 hello_id alice);
      reflexivity.
Defined.

End Pins.

(** ** User preferences *)

Module Preferences.
Import Store World Eff Queries Relations Reasoning Scenarios.

(** C8, as stated, fails: the store answers the lookup with an error that
    is neither "not found" nor "relation does not exist", and the call
    returns null instead of throwing it. *)
Lemma getUserPreferences_swallows_outage :
  code outage <> "PGRST116" /\ code outage <> "42P01" /\
  result getUserPreferences (world_of (Some alice) alice_preferences [Fails outage])
  = Returned None.
Proof.
  split; [| split].
  - intros E. discriminate E.
  - intros E. discriminate E.
  - reflexivity.
Qed.

(** C8, amended. Called by a signed-in user, [getUserPreferences] never
    throws: when the lookup comes back with an error, whichever it is
    ("not found", "relation does not exist" or any other), it returns
    null; when the lookup is answered, it returns the row. In
    particular it returns null when the lookup is served and the user has
    no row, and when the table does not exist. *)
Theorem getUserPreferences_never_throws :
  forall w user,
    auth_user (session w) = Some user ->
    let found := answer (select_user_preferences user) w in
    (exists r, result getUserPreferences w = Returned r) /\
    (forall e, error found = Some e -> result getUserPreferences w = Returned None) /\
    (error found = None -> result getUserPreferences w = Returned (data found)) /\
    (next_disturbance w = Calm ->
     (user_preferences (db w) = None \/
      exists rows, user_preferences (db w) = Some rows /\
                   filter (fun r => pref_user_id r =? user) rows = []) ->
     result getUserPreferences w = Returned None).
Proof.
  intros w user Hu found.
  assert (Hrun :
    result getUserPreferences w
    = Returned (match error found with Some _ => None | None => data found end)).
  { subst found. unfold getUserPreferences. run. rewrite Hu. cbn.
    destruct (error (fst (serve _ _ _))) as [e |] eqn:He; [| reflexivity].
    destruct (code e =? "PGRST116") eqn:E1; cbn.
    - (* a "not found" answer carries no row *)
      destruct (weather w) as [| [| e' | f] rest]; cbn in *;
        try reflexivity;
        unfold select_user_preferences in *;
        repeat match goal with
               | H : context [user_preferences ?d] |- _ =>
                   destruct (user_preferences d); cbn in *
               | |- context [user_preferences ?d] =>
                   destruct (user_preferences d); cbn in *
               | H : error (single ?l) = Some _ |- _ =>
                   destruct l as [| ? [| ? ?]]; cbn in *; try discriminate
               end; reflexivity.
    - destruct (code e =? "42P01"); reflexivity. }
  split; [eauto |]. split; [| split].
  - intros e He. rewrite Hrun, He. reflexivity.
  - intros Hnone. rewrite Hrun, Hnone. reflexivity.
  - intros Hcalm Hmissing. rewrite Hrun. subst found.
    unfold answer. rewrite Hcalm. cbn. unfold select_user_preferences.
    destruct Hmissing as [-> | (rows & -> & ->)]; reflexivity.
Qed.

(** The amended statement where the table does not exist, where the
    store is down, and where the user has a row. *)
Lemma getUserPreferences_never_throws_witness :
  result getUserPreferences (world_of (Some alice) no_preferences_table []) = Returned None /\
  result getUserPreferences (world_of (Some alice) alice_preferences [Fails outage])
  = Returned None /\
  result getUserPreferences (world_of (Some alice) alice_preferences [])
  = Returned (Some (mkUserPreferences alice "font=mono")).
Proof.
  split; [| split].
  - destruct (getUserPreferences_never_throws
                (world_of (Some alice) no_preferences_table []) alice eq_refl)
      as (_ & _ & _ & Hmissing).
    apply Hmissing; [reflexivity | left; reflexivity].
  - destruct (getUserPreferences_never_throws
                (world_of (Some alice) alice_preferences [Fails outage]) alice eq_refl)
      as (_ & Herr & _).
    apply (Herr outage). reflexivity.
  - destruct (getUserPreferences_never_throws
                (world_of (Some alice) alice_preferences []) alice eq_refl)
      as (_ & _ & Hrow & _).
    apply Hrow. reflexivity.
Defined.

End Preferences.

(** ** Updating a message *)

Module MessageUpdate.
Import Store World Eff Queries Relations Reasoning Scenarios.

#[local] Arguments applyUpdate : simpl never.
#[local] Arguments verifyUpdate : simpl never.

(** *** The second read (lines 1264-1311) *)


(** *** The scoped update (lines 1206-1311) *)




(** *** The whole function *)









(** Without the other client the same update goes through. *)
Lemma updateMessageInDatabase_own_message :
  result (updateMessageInDatabase hello_id "hello, world") (world_of (Some alice) alice_chat [])
  = Returned true /\
  map m_content
    (messages (db (after (updateMessageInDatabase hello_id "hello, world")
                     (world_of (Some alice) alice_chat []))))
  = ["hello, world"].
Proof. split; reflexivity. Qed.

End MessageUpdate.

(** ** Thread personas *)

Module Personas.
Import Store World Eff Queries Relations Reasoning Scenarios.

Lemma filter_deleted {A} (p : A -> bool) l :
  filter p (filter (fun r => negb (p r)) l) = [].
Proof.
  induction l as [| a l IH]; cbn; [reflexivity |].
  destruct (p a) eqn:E; cbn; [exact IH | now rewrite E].
Qed.

Lemma persona_of_own threadId personaId user :
  persona_of threadId user (mkThreadPersona threadId personaId user) = true.
Proof. unfold persona_of. cbn. now rewrite !String.eqb_refl. Qed.

(** In a calm world a call that goes through leaves one persona row for
    the thread and user, the one just set. *)
Lemma setThreadPersona_replaces w threadId personaId user r :
  auth_user (session w) = Some user ->
  weather w = [] ->
  result (setThreadPersona threadId personaId) w = Returned r ->
  r = Some (mkThreadPersona threadId personaId user) /\
  filter (persona_of threadId user)
    (thread_personas (db (after (setThreadPersona threadId personaId) w)))
  = [mkThreadPersona threadId personaId user].
Proof.
  intros Hu Hw.
  destruct w as [ses d t ent dr wea cl con]. cbn in Hu, Hw. subst wea.
  unfold setThreadPersona, select_single, insert_thread, delete_thread_personas,
    insert_thread_persona.
  run. rewrite Hu. cbn.
  cases; try discriminate.
  all: intros R; injection R as <-; split; [reflexivity |].
  all: rewrite filter_app, filter_deleted; cbn.
  all: now rewrite persona_of_own.
Qed.

(** Setting the persona twice in a calm world leaves the second one. *)
Lemma setThreadPersona_twice w threadId first second user r1 r2 :
  auth_user (session w) = Some user ->
  weather w = [] ->
  result (setThreadPersona threadId first) w = Returned r1 ->
  result (setThreadPersona threadId second) (after (setThreadPersona threadId first) w)
  = Returned r2 ->
  filter (persona_of threadId user)
    (thread_personas
       (db (after (setThreadPersona threadId second)
              (after (setThreadPersona threadId first) w))))
  = [mkThreadPersona threadId second user].
Proof.
  intros Hu Hw R1 R2.
  assert (Hs : session (after (setThreadPersona threadId first) w) = session w
               /\ weather (after (setThreadPersona threadId first) w) = []).
  { clear R1 R2. destruct w as [ses d t ent dr wea cl con]. cbn in Hu, Hw. subst wea.
    unfold setThreadPersona, select_single, insert_thread, delete_thread_personas,
      insert_thread_persona.
    run. rewrite Hu. cbn. cases; now split. }
  destruct Hs as (Hses & Hcalm).
  apply (setThreadPersona_replaces _ threadId second user r2); [now rewrite Hses | exact Hcalm | exact R2].
Qed.

(** An insert that is answered leaves the row as the only one of its
    thread and user. *)
Lemma insert_thread_persona_answered threadId personaId user d :
  error (fst (insert_thread_persona (mkThreadPersona threadId personaId user) d)) = None ->
  fst (insert_thread_persona (mkThreadPersona threadId personaId user) d)
  = answered (mkThreadPersona threadId personaId user) /\
  filter (persona_of threadId user)
    (thread_personas (snd (insert_thread_persona (mkThreadPersona threadId personaId user) d)))
  = [mkThreadPersona threadId personaId user].
Proof.
  unfold insert_thread_persona. cbn [tp_thread_id tp_user_id].
  destruct (existsb _ (thread_personas d)) eqn:E; cbn; [discriminate |].
  intros _. split; [reflexivity |].
  rewrite filter_app. cbn. rewrite persona_of_own.
  replace (filter (persona_of threadId user) (thread_personas d)) with (@nil ThreadPersonaRow);
    [reflexivity |].
  symmetry. clear -E. induction (thread_personas d) as [| r l IH]; cbn in *; [reflexivity |].
  apply orb_false_iff in E as (Er & El). unfold persona_of at 1. rewrite Er. auto.
Qed.

(** What the last store call of [setThreadPersona], the insert, leaves
    when the call returns. *)
Lemma setThreadPersona_insert threadId personaId user w r :
  result
    (bind (from ThreadPersonas Insert
             (insert_thread_persona (mkThreadPersona threadId personaId user)))
       (fun inserted => match error inserted with
                        | Some e => throw (StoreError e)
                        | None => ret (data inserted)
                        end)) w = Returned r ->
  r = Some (mkThreadPersona threadId personaId user) /\
  filter (persona_of threadId user)
    (thread_personas
       (db (after
              (bind (from ThreadPersonas Insert
                       (insert_thread_persona (mkThreadPersona threadId personaId user)))
                 (fun inserted => match error inserted with
                                  | Some e => throw (StoreError e)
                                  | None => ret (data inserted)
                                  end)) w)))
  = [mkThreadPersona threadId personaId user] /\
  calls
    (after
       (bind (from ThreadPersonas Insert
                (insert_thread_persona (mkThreadPersona threadId personaId user)))
          (fun inserted => match error inserted with
                           | Some e => throw (StoreError e)
                           | None => ret (data inserted)
                           end)) w)
  = calls w ++ [(ThreadPersonas, Insert)].
Proof.
  unfold result, after, bind, from.
  destruct (next_disturbance w) as [| e | others]; cbn [serve fst snd].
  - destruct (error (fst (insert_thread_persona _ (db w)))) eqn:E; [discriminate |].
    destruct (insert_thread_persona_answered threadId personaId user (db w) E) as (Ha & Hf).
    cbn. rewrite Ha. cbn. intros R. injection R as <-. now repeat split.
  - cbn. discriminate.
  - destruct (error (fst (insert_thread_persona _ (others (db w))))) eqn:E; [discriminate |].
    destruct (insert_thread_persona_answered threadId personaId user (others (db w)) E)
      as (Ha & Hf).
    cbn. rewrite Ha. cbn. intros R. injection R as <-. now repeat split.
Qed.

(** C5. Whenever a call of [setThreadPersona] returns, whatever the
    store and other clients did meanwhile, it returns the row with the
    persona supplied, and that row is then the only thread-persona row
    of the thread and the caller: no prior row of the pair is left. The
    last two store calls of the call are the delete of the rows of the
    pair and then the insert of the new row: delete, then insert, not an
    update in place. So of two calls that return one after the other,
    the row of the second is the one row left. *)
Theorem setThreadPersona_one_row :
  (forall w threadId personaId r,
     result (setThreadPersona threadId personaId) w = Returned r ->
     exists user earlier,
       auth_user (session w) = Some user /\
       r = Some (mkThreadPersona threadId personaId user) /\
       filter (persona_of threadId user)
         (thread_personas (db (after (setThreadPersona threadId personaId) w)))
       = [mkThreadPersona threadId personaId user] /\
       calls (after (setThreadPersona threadId personaId) w)
       = calls w ++ earlier ++ [(ThreadPersonas, Delete); (ThreadPersonas, Insert)]) /\
  (forall w threadId first second r1 r2,
     result (setThreadPersona threadId first) w = Returned r1 ->
     result (setThreadPersona threadId second) (after (setThreadPersona threadId first) w)
     = Returned r2 ->
     exists user,
       auth_user (session w) = Some user /\
       filter (persona_of threadId user)
         (thread_personas
            (db (after (setThreadPersona threadId second)
                   (after (setThreadPersona threadId first) w))))
       = [mkThreadPersona threadId second user]).
Proof.
  assert (Hone : forall w threadId personaId r,
     result (setThreadPersona threadId personaId) w = Returned r ->
     exists user earlier,
       auth_user (session w) = Some user /\
       session (after (setThreadPersona threadId personaId) w) = session w /\
       r = Some (mkThreadPersona threadId personaId user) /\
       filter (persona_of threadId user)
         (thread_personas (db (after (setThreadPersona threadId personaId) w)))
       = [mkThreadPersona threadId personaId user] /\
       calls (after (setThreadPersona threadId personaId) w)
       = calls w ++ earlier ++ [(ThreadPersonas, Delete); (ThreadPersonas, Insert)]).
  { intros w threadId personaId r.
    destruct (auth_user (session w)) as [user |] eqn:Hu.
    2: { unfold setThreadPersona, result, bind, auth_getUser. rewrite Hu. discriminate. }
    set (last := bind (from ThreadPersonas Insert
                         (insert_thread_persona (mkThreadPersona threadId personaId user)))
                   (fun inserted => match error inserted with
                                    | Some e => throw (StoreError e)
                                    | None => ret (data inserted)
                                    end)).
    set (ensure := bind (from Threads Select
                           (select_single threads (thread_owned threadId user)))
                     (fun existing =>
                        match error existing with
                        | Some threadCheckError =>
                            if code threadCheckError =? "PGRST116" then
                              bind (say Log "Thread doesn't exist, creating it before setting persona...")
                                (fun _ =>
                                   bind (from Threads Insert
                                           (insert_thread (mkThread threadId "New Chat" user None)))
                                     (fun created =>
                                        match error created with
                                        | Some createError =>
                                            bind (say Error "Failed to create thread:")
                                              (fun _ => throw (StoreError createError))
                                        | None => say Log "Thread created successfully"
                                        end))
                            else throw (StoreError threadCheckError)
                        | None => ret tt
                        end)).
    set (delete := from ThreadPersonas Delete
                     (delete_thread_personas (persona_of threadId user))).
    assert (E : setThreadPersona threadId personaId w
                = bind ensure (fun _ => bind delete (fun _ => last)) w).
    { unfold setThreadPersona, bind at 1, auth_getUser. now rewrite Hu. }
    unfold result, after. rewrite E.
    assert (Hensure : session (after ensure w) = session w /\
                      exists l, calls (after ensure w) = calls w ++ l).
    { clear. subst ensure. unfold after, bind, from, say, throw, ret. cbn.
      destruct (error _); [| split; [reflexivity | now eexists]].
      destruct (code _ =? _); [| split; [reflexivity | now eexists]].
      cbn. destruct (error _); cbn; (split; [reflexivity |]);
        eexists; rewrite <- app_assoc; reflexivity. }
    destruct Hensure as (Hses & l & Hcalls).
    destruct (bind_cases ensure (fun _ => bind delete (fun _ => last)) w)
      as [([] & _ & ->) | (t & _ & ->)]; [| discriminate].
    set (w1 := after ensure w) in *.
    destruct (bind_cases delete (fun _ => last) w1)
      as [(d & _ & ->) | (t & Ht & _)]; [| discriminate Ht].
    set (w2 := after delete w1).
    intros R. fold (result last w2) in R.
    destruct (setThreadPersona_insert threadId personaId user w2 r R) as (-> & Hf & Hc).
    exists user, l. fold (after last w2). fold last in Hf, Hc.
    split; [reflexivity |].
    split.
    { rewrite <- Hses. clear. subst last w2 delete. unfold after, bind, from. cbn.
      now destruct (error _). }
    split; [reflexivity |].
    split; [exact Hf |]. rewrite Hc. subst w2 delete. cbn. rewrite Hcalls.
    now rewrite <- !app_assoc. }
  split.
  - intros w threadId personaId r R.
    destruct (Hone w threadId personaId r R) as (user & earlier & Hu & _ & Hr & Hf & Hc).
    exists user, earlier. now repeat split.
  - intros w threadId first second r1 r2 R1 R2.
    destruct (Hone w threadId first r1 R1) as (user & _ & Hu & Hses & _).
    destruct (Hone _ threadId second r2 R2) as (user' & _ & Hu' & _ & _ & Hf & _).
    rewrite Hses, Hu in Hu'. injection Hu' as <-.
    exists user. now split.
Qed.

(** C5 on alice's thread with a persona set before: set once, then set
    again. *)
Lemma setThreadPersona_one_row_witness :
  thread_personas alice_persona_store = [old_persona] /\
  filter (persona_of thread1 alice)
    (thread_personas
       (db (after (setThreadPersona thread1 "persona-new")
              (world_of (Some alice) alice_persona_store []))))
  = [new_persona] /\
  filter (persona_of thread1 alice)
    (thread_personas
       (db (after (setThreadPersona thread1 "persona-old")
              (after (setThreadPersona thread1 "persona-new")
                 (world_of (Some alice) alice_persona_store [])))))
  = [old_persona].
Proof.
  destruct setThreadPersona_one_row as (Hone & Htwice).
  split; [reflexivity |]. split.
  - destruct (Hone (world_of (Some alice) alice_persona_store []) thread1 "persona-new"
                (Some new_persona) eq_refl) as (user & _ & Hu & _ & Hf & _).
    injection Hu as <-. exact Hf.
  - destruct (Htwice (world_of (Some alice) alice_persona_store []) thread1
                "persona-new" "persona-old" (Some new_persona) (Some old_persona)
                eq_refl eq_refl) as (user & Hu & Hf).
    injection Hu as <-. exact Hf.
Defined.

(** The delete is awaited without reading its answer (line 1052). When
    it fails while a row of the pair is there, the insert is refused:
    the call throws the store's duplicate-key error and the prior row
    stays. *)
Lemma setThreadPersona_delete_refused :
  result (setThreadPersona thread1 "persona-new")
         (world_of (Some alice) alice_persona_store delete_refused)
  = Threw (StoreError duplicate_key) /\
  thread_personas
    (db (after (setThreadPersona thread1 "persona-new")
           (world_of (Some alice) alice_persona_store delete_refused)))
  = [old_persona].
Proof. split; reflexivity. Qed.

End Personas.
(** ** Ordered reads *)

From Stdlib Require Import Permutation.

Module Ordering.
Import Store World Eff Queries MoreStore MoreQueries Relations Reasoning.

Lemma place_perm {A} (before : A -> A -> bool) a l :
  Permutation (place before a l) (a :: l).
Proof.
  induction l as [| b l IH]; cbn; [reflexivity |].
  destruct (before a b); [reflexivity |].
  rewrite IH. apply perm_swap.
Qed.

Lemma ordered_perm {A} (key : A -> Z) ascending l :
  Permutation (ordered key ascending l) l.
Proof.
  unfold ordered. induction l as [| a l IH]; cbn; [reflexivity |].
  rewrite place_perm. now apply perm_skip.
Qed.

Lemma ordered_In {A} (key : A -> Z) ascending l x :
  In x (ordered key ascending l) <-> In x l.
Proof.
  split; apply Permutation_in; [| symmetry]; apply ordered_perm.
Qed.

Lemma place_rising {A} (key : A -> Z) a l :
  rising key l ->
  rising key (place (fun a b => in_order true (key a) (key b)) a l).
Proof.
  induction l as [| b l IH]; cbn; [now split |].
  intros (Hb & Hl). destruct (key a <=? key b)%Z eqn:E; cbn.
  - apply Z.leb_le in E. split; [| now split].
    intros c [<- | Hc]; [exact E |]. specialize (Hb c Hc). lia.
  - apply Z.leb_gt in E. split; [| now apply IH].
    intros c Hc. apply (Permutation_in _ (place_perm _ a l)) in Hc.
    destruct Hc as [<- | Hc]; [lia | now apply Hb].
Qed.

Lemma place_falling {A} (key : A -> Z) a l :
  falling key l ->
  falling key (place (fun a b => in_order false (key a) (key b)) a l).
Proof.
  induction l as [| b l IH]; cbn; [now split |].
  intros (Hb & Hl). destruct (key b <=? key a)%Z eqn:E; cbn.
  - apply Z.leb_le in E. split; [| now split].
    intros c [<- | Hc]; [exact E |]. specialize (Hb c Hc). lia.
  - apply Z.leb_gt in E. split; [| now apply IH].
    intros c Hc. apply (Permutation_in _ (place_perm _ a l)) in Hc.
    destruct Hc as [<- | Hc]; [lia | now apply Hb].
Qed.

Lemma ordered_rising {A} (key : A -> Z) l : rising key (ordered key true l).
Proof.
  unfold ordered. induction l as [| a l IH]; cbn; [exact I |].
  now apply place_rising.
Qed.

Lemma ordered_falling {A} (key : A -> Z) l : falling key (ordered key false l).
Proof.
  unfold ordered. induction l as [| a l IH]; cbn; [exact I |].
  now apply place_falling.
Qed.

Lemma ordered_nil {A} (key : A -> Z) ascending l :
  ordered key ascending l = [] -> l = [].
Proof.
  intros H. apply Permutation_nil. rewrite <- H. apply ordered_perm.
Qed.

(** A call that is served, or fails, when nobody else writes. *)
Lemma from_alone {A} t v (q : Query A) w :
  alone w = true ->
  (from t v q w
   = (Returned (fst (q (db w))),
      mkWorld (session w) (snd (q (db w))) (now w) (entropy w) (drawn w)
        (tl (weather w)) (calls w ++ [(t, v)]) (console w))
   /\ forall e, next_disturbance w <> Fails e)
  \/ exists e, next_disturbance w = Fails e /\
       from t v q w
       = (Returned (failed e),
          mkWorld (session w) (db w) (now w) (entropy w) (drawn w)
            (tl (weather w)) (calls w ++ [(t, v)]) (console w)).
Proof.
  unfold alone, from, next_disturbance.
  destruct (weather w) as [| [| e | f] rest]; cbn.
  - left. split; [reflexivity | discriminate].
  - left. split; [reflexivity | discriminate].
  - right. now exists e.
  - discriminate.
Qed.

(** A function that reads rows in order and throws the store's error. *)
Lemma ordered_read {A} t (table : DB -> list A) p key ascending w :
  alone w = true ->
  let run := bind (from t Select (select_ordered table p key ascending))
               (fun found => match error found with
                             | Some e => throw (StoreError e)
                             | None => ret (or_empty (data found))
                             end) in
  (forall e, next_disturbance w = Fails e -> result run w = Threw (StoreError e)) /\
  ((forall e, next_disturbance w <> Fails e) ->
   result run w = Returned (ordered key ascending (filter p (table (db w))))) /\
  db (after run w) = db w /\
  calls (after run w) = calls w ++ [(t, Select)] /\
  console (after run w) = console w /\
  alone (after run w) = true.
Proof.
  intros Hw run. subst run.
  pose proof (alone_after_from t Select (select_ordered table p key ascending) w Hw) as Ha.
  unfold result, after, bind in *.
  destruct (from_alone t Select (select_ordered table p key ascending) w Hw)
    as [(E & Hn) | (e & Hn & E)]; rewrite E in *; cbn.
  - repeat split; try assumption. intros e He. exfalso. now apply (Hn e).
  - repeat split; try assumption.
    + intros e0 He. rewrite Hn in He. now injection He as <-.
    + intros Hnot. exfalso. now apply (Hnot e).
Qed.

End Ordering.

(** ** Attachment rows of a message and of a thread *)

Module AttachmentReads.
Import Store World Eff Queries MoreStore MoreQueries Relations Reasoning Ordering
  Scenarios MoreScenarios.

(** X1. [getFileAttachmentsByMessageId] and [getFileAttachmentsByThreadId],
    when nobody else writes: if the store fails the call, the store's
    error is thrown; otherwise the call returns exactly the attachment
    rows of that message (of that thread), each as often as the table
    holds it, oldest first. The table is left as it was and one call is
    made. *)
Theorem getFileAttachments_oldest_first :
  forall (w : World) (id : string),
    alone w = true ->
    let byMessage := getFileAttachmentsByMessageId id in
    let byThread := getFileAttachmentsByThreadId id in
    (forall e, next_disturbance w = Fails e ->
       result byMessage w = Threw (StoreError e) /\
       result byThread w = Threw (StoreError e)) /\
    ((forall e, next_disturbance w <> Fails e) ->
       exists rows rows',
         result byMessage w = Returned rows /\
         result byThread w = Returned rows' /\
         Permutation rows
           (filter (fun f => fa_message_id f =? id) (file_attachments (db w))) /\
         Permutation rows'
           (filter (fun f => fa_thread_id f =? id) (file_attachments (db w))) /\
         rising fa_created_at rows /\ rising fa_created_at rows') /\
    db (after byMessage w) = db w /\ db (after byThread w) = db w /\
    calls (after byMessage w) = calls w ++ [(FileAttachments, Select)] /\
    calls (after byThread w) = calls w ++ [(FileAttachments, Select)].
Proof.
  intros w id Hw byMessage byThread.
  destruct (ordered_read FileAttachments file_attachments
              (fun f => fa_message_id f =? id) fa_created_at true w Hw)
    as (Hm1 & Hm2 & Hm3 & Hm4 & _).
  destruct (ordered_read FileAttachments file_attachments
              (fun f => fa_thread_id f =? id) fa_created_at true w Hw)
    as (Ht1 & Ht2 & Ht3 & Ht4 & _).
  repeat split; try assumption.
  - now apply Hm1.
  - now apply Ht1.
  - intros Hn. do 2 eexists.
    split; [apply Hm2, Hn |]. split; [apply Ht2, Hn |].
    repeat split; first [apply ordered_perm | apply ordered_rising].
Qed.

(** X1 on a store whose table holds the later row first. *)
Lemma getFileAttachments_oldest_first_witness :
  exists rows rows',
    result (getFileAttachmentsByMessageId hello_id) (world_of (Some alice) filed_store [])
    = Returned rows /\
    result (getFileAttachmentsByThreadId "thread-2") (world_of (Some alice) filed_store [])
    = Returned rows' /\
    Permutation rows [late_file; early_file] /\
    rising fa_created_at rows /\
    Permutation rows' [other_file].
Proof.
  pose proof (getFileAttachments_oldest_first (world_of (Some alice) filed_store [])
                hello_id eq_refl) as H.
  pose proof (getFileAttachments_oldest_first (world_of (Some alice) filed_store [])
                "thread-2" eq_refl) as H'.
  cbv zeta in H, H'. destruct H as (_ & H & _). destruct H' as (_ & H' & _).
  destruct H as (rows & x & Hr & _ & Hp & _ & Hs & _); [discriminate |].
  destruct H' as (y & rows' & _ & Hr' & _ & Hp' & _); [discriminate |].
  exists rows, rows'. repeat split; assumption.
Defined.

(** The rows stored for a message are rows of that message. *)
Lemma stored_rows_of_message threadId user id rows uploads :
  Forall2 (stored_for threadId user id) rows uploads ->
  filter (fun f => fa_message_id f =? id) rows = rows.
Proof.
  induction 1 as [| r a rows uploads (Hid & _) _ IH]; cbn; [reflexivity |].
  apply String.eqb_eq in Hid. now rewrite Hid, IH.
Qed.

(** X13. Attachments written and read back. After a call of
    [createMessage] in a calm world that went through,
    [getFileAttachmentsByMessageId] for the message's id returns, oldest
    first. When the ids of the new rows (the id each upload with a URL
    carries, or a generated one) were free, so that the store took them,
    it returns the rows the message had before together with exactly one
    row for each upload that has a URL, under that id and with the
    columns of the upload, and no other. *)
Theorem createMessage_attachments_read_back :
  forall (w : World) (threadId user : string) (message : UIMessage)
         (fs : option (list FileUploadResult)),
    weather w = [] ->
    auth_user (session w) = Some user ->
    result (createMessage threadId message fs) w = Returned tt ->
    let w1 := after (createMessage threadId message fs) w in
    let id := messageIdOf message w in
    let kept := filter has_url (uploads fs) in
    let ids := attachmentIds (entropy w) (drawnForId message w) kept in
    exists found,
      result (getFileAttachmentsByMessageId id) w1 = Returned found /\
      rising fa_created_at found /\
      (distinct (map fa_id (file_attachments (db w)) ++ ids) = true ->
       exists rows,
         List.length rows = List.length kept /\
         map fa_id rows = ids /\
         Forall2 (stored_for threadId user id) rows kept /\
         Permutation found
           (filter (fun f => fa_message_id f =? id) (file_attachments (db w)) ++ rows)).
Proof.
  intros w threadId user message fs Hcalm Hu Hr w1 id kept ids.
  pose proof (MessageCreation.calm_alone w Hcalm) as Hw.
  destruct (MessageCreation.createMessage_returned threadId message fs w user Hu Hw Hr)
    as (_ & _ & _ & (rows & (Hall & Hids) & _ & Hfree)).
  destruct (MessageCreation.createMessage_settled threadId message fs w)
    as (_ & Hcalm1 & _).
  fold w1 in Hfree, Hcalm1. specialize (Hcalm1 Hcalm). specialize (Hfree Hcalm).
  fold kept in Hall, Hids. fold ids in Hids.
  change (Forall2 (stored_for threadId user id) rows kept) in Hall.
  pose proof (MessageCreation.calm_alone w1 Hcalm1) as Hw1.
  destruct (ordered_read FileAttachments file_attachments
              (fun f => fa_message_id f =? id) fa_created_at true w1 Hw1)
    as (_ & Hread & _).
  assert (Hserved : forall e, next_disturbance w1 <> Fails e).
  { intros e. unfold next_disturbance. rewrite Hcalm1. discriminate. }
  specialize (Hread Hserved).
  exists (ordered fa_created_at true
            (filter (fun f => fa_message_id f =? id) (file_attachments (db w1)))).
  split; [exact Hread |]. split; [apply ordered_rising |].
  intros Hdistinct. exists rows.
  split; [exact (Forall2_length Hall) |]. split; [exact Hids |]. split; [exact Hall |].
  rewrite ordered_perm, Hfree, filter_app.
  - now rewrite (stored_rows_of_message _ _ _ _ _ Hall).
  - rewrite map_app, Hids. exact Hdistinct.
Qed.

(** X13 on alice's first message, sent with one upload that has a URL
    and one that has none: one row is read back, the row of the first
    upload. *)
Lemma createMessage_attachments_read_back_witness :
  exists found row,
    result (getFileAttachmentsByMessageId
              (messageIdOf hello (world_of (Some alice) alice_store [])))
      (after (createMessage thread1 hello (Some [notes; ghost]))
         (world_of (Some alice) alice_store []))
    = Returned found /\
    Permutation found [row] /\
    fa_id row = "file-1" /\
    fa_file_name row = "notes.txt" /\
    fa_file_url row = "https://files.example/notes.txt".
Proof.
  assert (Hr : result (createMessage thread1 hello (Some [notes; ghost]))
                 (world_of (Some alice) alice_store []) = Returned tt)
    by (vm_compute; reflexivity).
  pose proof (createMessage_attachments_read_back (world_of (Some alice) alice_store [])
                thread1 alice hello (Some [notes; ghost]) eq_refl eq_refl Hr) as H.
  cbv zeta in H. destruct H as (found & Hfound & _ & Hrows).
  destruct Hrows as (rows & Hlen & Hids & Hall & Hperm); [vm_compute; reflexivity |].
  destruct rows as [| row [| ? ?]]; try discriminate Hlen.
  exists found, row. split; [exact Hfound |]. split; [exact Hperm |].
  split; [now injection Hids |].
  apply Forall2_cons_iff in Hall as ((_ & _ & _ & Hname & Hurl & _) & _).
  split; [exact Hname |]. now injection Hurl.
Defined.

End AttachmentReads.

(** ** Cutting a thread at a message *)

Module TrailingMessages.
Import Store World Eff Queries MoreStore MoreQueries Relations Reasoning Scenarios
  MoreScenarios Ordering.

(** What the delete makes of the table, when nobody else writes. *)
Lemma deleteTrailingMessages_run threadId createdAt gte w :
  alone w = true ->
  let run := deleteTrailingMessages threadId (ValidDate createdAt) gte in
  (forall e, next_disturbance w = Fails e ->
     result run w = Threw (StoreError e) /\ db (after run w) = db w) /\
  ((forall e, next_disturbance w <> Fails e) ->
     result run w = Returned tt /\
     messages (db (after run w))
     = filter (fun m => negb (trailing threadId createdAt gte m)) (messages (db w))) /\
  (result run w = Returned tt -> forall e, next_disturbance w <> Fails e).
Proof.
  intros Hw run. subst run. unfold deleteTrailingMessages, toISOString, result, after, bind.
  cbn [ret].
  destruct (from_alone Messages Delete
              (delete_messages (trailing threadId createdAt gte)) w Hw)
    as [(E & Hn) | (e & Hn & E)]; rewrite E; cbn; (split; [| split]).
  - intros e He. exfalso. now apply (Hn e).
  - intros _. now split.
  - intros _. exact Hn.
  - intros e0 He. rewrite Hn in He. injection He as <-. now split.
  - intros Hnot. exfalso. now apply (Hnot e).
  - discriminate.
Qed.

(** X2. [deleteTrailingMessages]. Called with the Invalid Date it throws
    the RangeError of [toISOString] before any store call, and the world
    is as before. Called with a valid date, when nobody else writes: if
    the store fails the delete, its error is thrown and the store is as
    before; otherwise the call returns and the message table keeps, in
    their order, exactly the rows that are not cut: a row of the thread
    stays only if it is older than the date, or, when [gte] is false, as
    old as the date; rows of other threads and older rows all stay. *)
Theorem deleteTrailingMessages_cuts :
  forall (w : World) (threadId : string) (createdAt : Z) (gte : option bool),
    alone w = true ->
    let run := deleteTrailingMessages threadId (ValidDate createdAt) gte in
    let before := messages (db w) in
    let left := messages (db (after run w)) in
    deleteTrailingMessages threadId InvalidDate gte w
    = (Threw (JsError "Invalid time value"), w) /\
    (forall e, next_disturbance w = Fails e ->
       result run w = Threw (StoreError e) /\ db (after run w) = db w) /\
    ((forall e, next_disturbance w <> Fails e) ->
       result run w = Returned tt /\
       left = filter (fun m => negb (trailing threadId createdAt gte m)) before /\
       (forall m, In m left -> m_thread_id m = threadId ->
          (m_created_at m < createdAt)%Z \/
          (gte = Some false /\ m_created_at m = createdAt)) /\
       (forall m, In m before -> m_thread_id m <> threadId -> In m left) /\
       (forall m, In m before -> (m_created_at m < createdAt)%Z -> In m left) /\
       (forall m, In m before -> m_created_at m = createdAt ->
          gte = Some false -> In m left)).
Proof.
  intros w threadId createdAt gte Hw run before left.
  destruct (deleteTrailingMessages_run threadId createdAt gte w Hw) as (Hfail & Hok & _).
  split; [reflexivity |].
  split; [exact Hfail |]. intros Hn. destruct (Hok Hn) as (Hr & Hm).
  subst left before run. rewrite Hm. repeat split; try assumption.
  - intros m Hin Ht. apply filter_In in Hin as (_ & Hcut).
    apply negb_true_iff in Hcut. unfold trailing in Hcut.
    apply String.eqb_eq in Ht. rewrite Ht in Hcut. cbn in Hcut.
    destruct gte as [[|] |].
    + apply Z.leb_gt in Hcut. now left.
    + apply Z.ltb_ge in Hcut.
      destruct (Z.eq_dec (m_created_at m) createdAt) as [E | N]; [now right | left; lia].
    + apply Z.leb_gt in Hcut. now left.
  - intros m Hin Ht. apply filter_In. split; [exact Hin |].
    apply String.eqb_neq in Ht. unfold trailing. now rewrite Ht.
  - intros m Hin Hlt. apply filter_In. split; [exact Hin |].
    unfold trailing. apply negb_true_iff, andb_false_iff. right.
    destruct gte as [[|] |]; first [apply Z.leb_gt | apply Z.ltb_ge]; lia.
  - intros m Hin He ->. apply filter_In. split; [exact Hin |].
    unfold trailing. apply negb_true_iff, andb_false_iff. right.
    apply Z.ltb_ge. lia.
Qed.

(** X2 on alice's chat of four messages, cut at the third: the two
    older ones stay, and so does the message of the other thread; and
    with the Invalid Date, which reaches no store. *)
Lemma deleteTrailingMessages_cuts_witness :
  result (deleteTrailingMessages thread1 (ValidDate second_at) None)
    (world_of (Some alice) long_chat [])
  = Returned tt /\
  messages (db (after (deleteTrailingMessages thread1 (ValidDate second_at) None)
                  (world_of (Some alice) long_chat [])))
  = [first_message; greeting_message; elsewhere_message] /\
  deleteTrailingMessages thread1 InvalidDate None (world_of (Some alice) long_chat [])
  = (Threw (JsError "Invalid time value"), world_of (Some alice) long_chat []).
Proof.
  destruct (deleteTrailingMessages_cuts (world_of (Some alice) long_chat [])
              thread1 second_at None eq_refl) as (Hinvalid & _ & Hok).
  destruct Hok as (Hr & Hm & _); [discriminate |].
  split; [exact Hr |]. split; [| exact Hinvalid]. rewrite Hm. reflexivity.
Defined.

(** The rows an upsert leaves under the id carry the thread and the
    date of the row that was handed in. *)
Lemma upsert_rows_stamp row rows m :
  In m (upsert_rows row rows) -> m_id m = m_id row ->
  m_thread_id m = m_thread_id row /\ m_created_at m = m_created_at row.
Proof.
  unfold upsert_rows.
  destruct (existsb (fun m => m_id m =? m_id row) rows) eqn:E.
  - intros Hin Hid. apply in_map_iff in Hin as (m0 & <- & Hin).
    destruct (m_id m0 =? m_id row) eqn:F; [now split |].
    apply String.eqb_neq in F. contradiction.
  - intros Hin Hid. apply in_app_or in Hin as [Hin | [<- | []]]; [| now split].
    exfalso. assert (existsb (fun m => m_id m =? m_id row) rows = true) as C.
    { apply existsb_exists. exists m. split; [exact Hin |]. now apply String.eqb_eq. }
    congruence.
Qed.

Lemma rows_with_id_filter id p rows :
  (forall m, In m rows -> m_id m = id -> p m = true) ->
  rows_with_id id (filter p rows) = rows_with_id id rows.
Proof.
  unfold rows_with_id. induction rows as [| m rows IH]; cbn; [reflexivity |].
  intros H. destruct (m_id m =? id) eqn:E.
  - rewrite (H m (or_introl eq_refl)) by now apply String.eqb_eq.
    cbn. rewrite E. f_equal. apply IH. intros m' Hin. apply H. now right.
  - destruct (p m); cbn; [rewrite E |]; apply IH; intros m' Hin; apply H; now right.
Qed.

Lemma rows_with_id_cut id p rows :
  (forall m, In m rows -> m_id m = id -> p m = false) ->
  rows_with_id id (filter p rows) = [].
Proof.
  unfold rows_with_id. induction rows as [| m rows IH]; cbn; [reflexivity |].
  intros H. destruct (p m) eqn:P; cbn.
  - destruct (m_id m =? id) eqn:E.
    + apply String.eqb_eq in E. rewrite (H m (or_introl eq_refl) E) in P. discriminate.
    + apply IH. intros m' Hin. apply H. now right.
  - apply IH. intros m' Hin. apply H. now right.
Qed.

(** X3. Editing from a message on: after a call of [createMessage] that
    went through, with nobody else writing, [deleteTrailingMessages] for
    the same thread and the date the message was stored with removes the
    message itself, when [gte] is left out or true, and whenever that
    delete goes through; with [gte] false the message stays. *)
Theorem deleteTrailingMessages_from_created :
  forall (w : World) (threadId : string) (message : UIMessage)
         (fs : option (list FileUploadResult)),
    alone w = true ->
    result (createMessage threadId message fs) w = Returned tt ->
    let w1 := after (createMessage threadId message fs) w in
    let id := messageIdOf message w in
    let cut := deleteTrailingMessages threadId (ValidDate (createdAtOf message w)) in
    rows_with_id id (messages (db w1)) <> [] /\
    (forall gte, gte <> Some false ->
       result (cut gte) w1 = Returned tt ->
       rows_with_id id (messages (db (after (cut gte) w1))) = []) /\
    (result (cut (Some false)) w1 = Returned tt ->
     rows_with_id id (messages (db (after (cut (Some false)) w1)))
     = rows_with_id id (messages (db w1))) /\
    (weather w = [] -> forall gte, result (cut gte) w1 = Returned tt).
Proof.
  intros w threadId message fs Hw Hr w1 id cut.
  destruct (MessageCreation.createMessage_user _ _ _ _ Hr) as (user & Hu).
  destruct (MessageCreation.createMessage_returned threadId message fs w user Hu Hw Hr)
    as (Hm & _).
  destruct (MessageCreation.createMessage_settled threadId message fs w)
    as (_ & Hcalm & Halone).
  fold w1 in Hm, Hcalm, Halone. specialize (Halone Hw).
  set (row := messageRowOf threadId user message fs w) in *.
  assert (Hstamp : forall m, In m (messages (db w1)) -> m_id m = id ->
                     m_thread_id m = threadId /\ m_created_at m = createdAtOf message w).
  { intros m Hin Hid. rewrite Hm in Hin.
    exact (upsert_rows_stamp row _ m Hin Hid). }
  split.
  { rewrite Hm. destruct (MessageCreation.upsert_rows_contains row (messages (db w)))
      as (m & Hin & Hid & _).
    intros Hnone. assert (In m (rows_with_id id (upsert_rows row (messages (db w))))) as C.
    { apply filter_In. split; [exact Hin |]. apply String.eqb_eq. exact Hid. }
    rewrite Hnone in C. contradiction. }
  split; [| split].
  - intros gte Hgte Hcut. subst cut.
    destruct (deleteTrailingMessages_run threadId (createdAtOf message w) gte w1 Halone)
      as (_ & Hok & Hserved).
    destruct (Hok (Hserved Hcut)) as (_ & ->).
    apply rows_with_id_cut. intros m Hin Hid.
    destruct (Hstamp m Hin Hid) as (Ht & Hc). apply negb_false_iff.
    unfold trailing. rewrite Ht, Hc, String.eqb_refl. cbn.
    destruct gte as [[|] |]; [apply Z.leb_refl | congruence | apply Z.leb_refl].
  - intros Hcut. subst cut.
    destruct (deleteTrailingMessages_run threadId (createdAtOf message w) (Some false)
                w1 Halone) as (_ & Hok & Hserved).
    destruct (Hok (Hserved Hcut)) as (_ & ->).
    apply rows_with_id_filter. intros m Hin Hid.
    destruct (Hstamp m Hin Hid) as (Ht & Hc). apply negb_true_iff.
    unfold trailing. rewrite Ht, Hc, String.eqb_refl. cbn. apply Z.ltb_irrefl.
  - intros Hcalm0 gte. subst cut.
    destruct (deleteTrailingMessages_run threadId (createdAtOf message w) gte w1 Halone)
      as (_ & Hok & _).
    apply Hok. intros e. unfold next_disturbance. rewrite (Hcalm Hcalm0). discriminate.
Qed.

(** X3 on alice's first message in an empty store. *)
Lemma deleteTrailingMessages_from_created_witness :
  let w1 := after (createMessage thread1 hello None) (world_of (Some alice) empty_store []) in
  let cut := deleteTrailingMessages thread1 (ValidDate 1700000000000%Z) in
  rows_with_id hello_id (messages (db w1)) <> [] /\
  rows_with_id hello_id (messages (db (after (cut None) w1))) = [] /\
  rows_with_id hello_id (messages (db (after (cut (Some false)) w1)))
  = rows_with_id hello_id (messages (db w1)).
Proof.
  destruct (deleteTrailingMessages_from_created (world_of (Some alice) empty_store [])
              thread1 hello None eq_refl eq_refl) as (Hthere & Hgone & Hstays & _).
  split; [exact Hthere |]. split.
  - apply (Hgone None); [discriminate | reflexivity].
  - apply Hstays. reflexivity.
Defined.

End TrailingMessages.

(** ** The first message of a user in a thread *)

Module FirstUserMessage.
Import Store World Eff Queries MoreStore MoreQueries Relations Reasoning Scenarios
  MoreScenarios Ordering.

(** The first row of an ordered list is the least. *)
Lemma first_of_ordered {A} (key : A -> Z) l :
  l <> [] ->
  exists a rest, In a l /\ ordered key true l = a :: rest /\
                 forall b, In b l -> (key a <= key b)%Z.
Proof.
  intros Hl. pose proof (ordered_rising key l) as Hr.
  destruct (ordered key true l) as [| a rest] eqn:E.
  - apply ordered_nil in E. contradiction.
  - exists a, rest. split; [apply (ordered_In key true); rewrite E; now left |].
    split; [reflexivity |].
    intros b Hb. apply (ordered_In key true) in Hb. rewrite E in Hb.
    destruct Hb as [<- | Hb]; [lia |]. now apply (proj1 Hr).
Qed.

(** X4. [getFirstUserMessage]. When the lookup is served: with no user
    message in the thread the call returns null; otherwise it returns
    the id, content and date of a user message of the thread that no
    other user message of the thread precedes. When the lookup fails,
    the "not found" code gives null and any other error is thrown. *)
Theorem getFirstUserMessage_earliest :
  forall (w : World) (threadId : string),
    let mine := filter (user_message_of threadId) (messages (db w)) in
    let run := getFirstUserMessage threadId in
    (next_disturbance w = Calm -> mine = [] -> result run w = Returned None) /\
    (next_disturbance w = Calm -> mine <> [] ->
     exists m, In m (messages (db w)) /\
               m_thread_id m = threadId /\ m_role m = "user" /\
               result run w = Returned (Some (first_columns m)) /\
               forall m', In m' (messages (db w)) ->
                          m_thread_id m' = threadId -> m_role m' = "user" ->
                          (m_created_at m <= m_created_at m')%Z) /\
    (forall e, next_disturbance w = Fails e ->
       result run w
       = if code e =? "PGRST116" then Returned None else Threw (StoreError e)).
Proof.
  intros w threadId mine run. subst run. unfold getFirstUserMessage, select_first.
  unfold result, bind, from. repeat split.
  - intros -> Hnone. cbn. fold mine. rewrite Hnone. reflexivity.
  - intros -> Hsome. cbn. fold mine.
    destruct (first_of_ordered m_created_at mine Hsome) as (m & rest & Hin & -> & Hleast).
    cbn.
    apply filter_In in Hin as (Hin & Hmine).
    unfold user_message_of in Hmine. apply andb_true_iff in Hmine as (Ht & Hrole).
    apply String.eqb_eq in Ht, Hrole.
    exists m. repeat split; try assumption.
    intros m' Hin' Ht' Hr'. apply Hleast. apply filter_In. split; [exact Hin' |].
    unfold user_message_of. now rewrite Ht', Hr', !String.eqb_refl.
  - intros e ->. cbn. now destruct (code e =? "PGRST116").
Qed.

(** X4 on alice's chat, stored newest first and opened by the
    assistant, and on a thread without messages. *)
Lemma getFirstUserMessage_earliest_witness :
  (exists m, In m (messages long_chat) /\ m_thread_id m = thread1 /\ m_role m = "user" /\
             result (getFirstUserMessage thread1) (world_of (Some alice) long_chat [])
             = Returned (Some (first_columns m)) /\
             forall m', In m' (messages long_chat) ->
                        m_thread_id m' = thread1 -> m_role m' = "user" ->
                        (m_created_at m <= m_created_at m')%Z) /\
  result (getFirstUserMessage "thread-9") (world_of (Some alice) long_chat [])
  = Returned None.
Proof.
  destruct (getFirstUserMessage_earliest (world_of (Some alice) long_chat []) thread1)
    as (_ & Hsome & _).
  destruct (getFirstUserMessage_earliest (world_of (Some alice) long_chat []) "thread-9")
    as (Hnone & _).
  split; [| apply Hnone; reflexivity].
  apply Hsome; [reflexivity | discriminate].
Defined.

End FirstUserMessage.

(** ** Deletes of owned rows *)

Module OwnedDeletes.
Import Store World Eff Queries MoreStore MoreQueries Relations Reasoning Scenarios
  MoreScenarios Ordering.

#[local] Arguments pin_of : simpl never.

Lemma filter_twice {A} (p q : A -> bool) l :
  (forall a, q a = true -> p a = false) ->
  filter q (filter (fun a => negb (p a)) l) = filter q l.
Proof.
  intros H. induction l as [| a l IH]; cbn; [reflexivity |].
  destruct (p a) eqn:P; cbn.
  - destruct (q a) eqn:Q; [| exact IH]. rewrite (H a Q) in P. discriminate.
  - now rewrite IH.
Qed.

(** The functions that ask who is signed in first. *)
Lemma as_user {A} (k : string -> M A) w user :
  auth_user (session w) = Some user ->
  bind auth_getUser
    (fun auth => match auth_user auth with
                 | None => throw (JsError "User not authenticated")
                 | Some user => k user
                 end) w
  = k user w.
Proof. intros Hu. unfold bind, auth_getUser. now rewrite Hu. Qed.

(** X5. [removeThreadPersona] by a signed-in user, when nobody else
    writes. If the store fails the delete, the error is thrown and the
    store is as before (the delete inside [setThreadPersona] is not
    checked in this way). Otherwise the call returns, no persona row of
    the thread and user is left, however many there were, and the rows
    of other threads and users stay in their order. Signed out, the call
    throws before any store call. *)
Theorem removeThreadPersona_clears :
  forall (w : World) (threadId : string),
    alone w = true ->
    let run := removeThreadPersona threadId in
    (auth_user (session w) = None ->
     run w = (Threw (JsError "User not authenticated"), w)) /\
    (forall user, auth_user (session w) = Some user ->
       (forall e, next_disturbance w = Fails e ->
          result run w = Threw (StoreError e) /\ db (after run w) = db w) /\
       ((forall e, next_disturbance w <> Fails e) ->
          result run w = Returned tt /\
          filter (persona_of threadId user) (thread_personas (db (after run w))) = [] /\
          thread_personas (db (after run w))
          = filter (fun r => negb (persona_of threadId user r)) (thread_personas (db w)))).
Proof.
  intros w threadId Hw run. subst run.
  split.
  - intros Hu. unfold removeThreadPersona, bind, auth_getUser. now rewrite Hu.
  - intros user Hu. unfold result, after, removeThreadPersona.
    rewrite (as_user _ w user Hu). unfold bind.
    destruct (from_alone ThreadPersonas Delete
                (delete_thread_personas (persona_of threadId user)) w Hw)
      as [(E & Hn) | (e & Hn & E)]; rewrite E; cbn; split.
    + intros e He. exfalso. now apply (Hn e).
    + intros _. split; [reflexivity |]. split; [| reflexivity].
      apply Personas.filter_deleted.
    + intros e0 He. rewrite Hn in He. injection He as <-. now split.
    + intros Hnot. exfalso. now apply (Hnot e).
Qed.

(** X5 on a thread for which alice and bob have each set a persona:
    alice's row is removed, bob's stays. *)
Lemma removeThreadPersona_clears_witness :
  thread_personas shared_personas = [old_persona; bobs_persona] /\
  result (removeThreadPersona thread1) (world_of (Some alice) shared_personas [])
  = Returned tt /\
  thread_personas
    (db (after (removeThreadPersona thread1) (world_of (Some alice) shared_personas [])))
  = [bobs_persona].
Proof.
  split; [reflexivity |].
  destruct (removeThreadPersona_clears (world_of (Some alice) shared_personas [])
              thread1 eq_refl) as (_ & Hin).
  destruct (Hin alice eq_refl) as (_ & Hok).
  destruct Hok as (Hr & _ & Hrows); [discriminate |].
  split; [exact Hr |]. rewrite Hrows. reflexivity.
Defined.

Lemma pin_of_other user threadId messageId t m r :
  (t =? threadId) && (m =? messageId) = false ->
  pin_of user t m r = true -> pin_of user threadId messageId r = false.
Proof.
  unfold pin_of. intros Hd H.
  apply andb_true_iff in H as (H & Hm). apply andb_true_iff in H as (Hu & Ht).
  apply String.eqb_eq in Hm, Ht. subst t m.
  rewrite Hu. exact Hd.
Qed.

Lemma unpinMessage_calm threadId messageId w user :
  auth_user (session w) = Some user -> weather w = [] ->
  unpinMessage threadId messageId w
  = (Returned tt,
     mkWorld (session w)
       (with_pinned_messages
          (filter (fun r => negb (pin_of user threadId messageId r))
             (pinned_messages (db w))) (db w))
       (now w) (entropy w) (drawn w) [] (calls w ++ [(PinnedMessages, Delete)])
       (console w)).
Proof.
  intros Hu Hcalm. unfold unpinMessage. rewrite (as_user _ w user Hu).
  unfold bind, from, next_disturbance. rewrite Hcalm. reflexivity.
Qed.

Lemma isPinned_calm threadId messageId w user :
  auth_user (session w) = Some user -> weather w = [] ->
  result (isPinned threadId messageId) w
  = Returned (match filter (pin_of user threadId messageId) (pinned_messages (db w)) with
              | [_] => true
              | _ => false
              end).
Proof.
  intros Hu Hcalm. unfold isPinned, result, bind at 1, auth_getUser. rewrite Hu.
  unfold bind, from, next_disturbance, select_single. rewrite Hcalm. cbn.
  now destruct (filter _ _) as [| r [| r' l]].
Qed.

(** X6. [unpinMessage] and [isPinned]. In a calm world a signed-in
    user's [unpinMessage] returns, [isPinned] for the same thread and
    message then answers false, and its answer for every other thread or
    message is what it was before; the pins of other users stay. When
    nobody else writes and the store fails the delete, the error is
    thrown and the store is as before. *)
Theorem unpinMessage_unpins :
  forall (w : World) (threadId messageId user : string),
    auth_user (session w) = Some user ->
    let run := unpinMessage threadId messageId in
    let w1 := after run w in
    (weather w = [] ->
     result run w = Returned tt /\
     result (isPinned threadId messageId) w1 = Returned false /\
     (forall t m, (t =? threadId) && (m =? messageId) = false ->
        result (isPinned t m) w1 = result (isPinned t m) w) /\
     (forall r, In r (pinned_messages (db w)) -> pin_user_id r <> user ->
        In r (pinned_messages (db w1)))) /\
    (alone w = true -> forall e, next_disturbance w = Fails e ->
     result run w = Threw (StoreError e) /\ db w1 = db w).
Proof.
  intros w threadId messageId user Hu run w1. split.
  - intros Hcalm. subst w1 run. unfold result at 1, after.
    rewrite (unpinMessage_calm threadId messageId w user Hu Hcalm). cbn [fst snd].
    match goal with |- context [result (isPinned _ _) ?x] => set (w1 := x) end.
    assert (Hu1 : auth_user (session w1) = Some user) by exact Hu.
    assert (Hc1 : weather w1 = []) by reflexivity.
    split; [reflexivity |]. split; [| split].
    + rewrite (isPinned_calm threadId messageId w1 user Hu1 Hc1). cbn.
      now rewrite Personas.filter_deleted.
    + intros t0 m Hd.
      rewrite (isPinned_calm t0 m w1 user Hu1 Hc1), (isPinned_calm t0 m w user Hu Hcalm).
      cbn. rewrite filter_twice; [reflexivity |].
      intros r. now apply pin_of_other.
    + intros r Hin Hr. cbn. apply filter_In. split; [exact Hin |].
      unfold pin_of. apply String.eqb_neq in Hr. now rewrite Hr.
  - intros Hw e He. subst w1 run. unfold result, after, unpinMessage.
    rewrite (as_user _ w user Hu). unfold bind.
    destruct (from_alone PinnedMessages Delete
                (delete_pinned_messages (pin_of user threadId messageId)) w Hw)
      as [(E & Hn) | (e0 & Hn & E)]; rewrite E; cbn.
    + exfalso. now apply (Hn e).
    + rewrite Hn in He. injection He as <-. now split.
Qed.

(** X6 on a store where alice has pinned two messages and bob one. *)
Lemma unpinMessage_unpins_witness :
  let w := world_of (Some alice) pinned_store [] in
  let w1 := after (unpinMessage thread1 "m-1") w in
  result (isPinned thread1 "m-1") w = Returned true /\
  result (isPinned thread1 "m-1") w1 = Returned false /\
  result (isPinned thread1 "m-2") w1 = Returned true /\
  In bobs_pin (pinned_messages (db w1)).
Proof.
  intros w w1.
  destruct (unpinMessage_unpins w thread1 "m-1" alice eq_refl) as (Hcalm & _).
  destruct (Hcalm eq_refl) as (_ & Hgone & Hothers & Hbob).
  split; [reflexivity |]. split; [exact Hgone |]. split.
  - unfold w1. rewrite (Hothers thread1 "m-2" eq_refl). reflexivity.
  - apply Hbob; [cbn; tauto | discriminate].
Defined.

Lemma deleteUserPreferences_served w user :
  auth_user (session w) = Some user -> next_disturbance w = Calm ->
  deleteUserPreferences w
  = match user_preferences (db w) with
    | None =>
        (Threw (StoreError undefined_table),
         mkWorld (session w) (db w) (now w) (entropy w) (drawn w) (tl (weather w))
           (calls w ++ [(UserPreferences, Delete)]) (console w))
    | Some rows =>
        (Returned tt,
         mkWorld (session w)
           (with_user_preferences
              (Some (filter (fun r => negb (pref_user_id r =? user)) rows)) (db w))
           (now w) (entropy w) (drawn w) (tl (weather w))
           (calls w ++ [(UserPreferences, Delete)]) (console w))
    end.
Proof.
  intros Hu Hnext. unfold deleteUserPreferences. rewrite (as_user _ w user Hu).
  unfold bind, from, delete_user_preferences. rewrite Hnext. cbn.
  now destruct (user_preferences (db w)).
Qed.

Lemma getUserPreferences_served w user :
  auth_user (session w) = Some user -> next_disturbance w = Calm ->
  result getUserPreferences w
  = Returned match user_preferences (db w) with
             | None => None
             | Some rows => data (single (filter (fun r => pref_user_id r =? user) rows))
             end.
Proof.
  intros Hu Hnext. unfold getUserPreferences, result. rewrite (as_user _ w user Hu).
  unfold try_catch, bind, from, select_user_preferences. rewrite Hnext. cbn.
  destruct (user_preferences (db w)) as [rows |]; cbn; [| reflexivity].
  now destruct (filter _ rows) as [| r [| r' l]].
Qed.

(** X7. [deleteUserPreferences] by a signed-in user whose call is
    served. If the preferences table was never created, the store's
    "relation does not exist" error is thrown, where [getUserPreferences]
    returns null. If the table is there, the call returns, the user's
    rows are gone and the rows of other users stay in their order; in a
    calm world [getUserPreferences] then returns null. *)
Theorem deleteUserPreferences_clears :
  forall (w : World) (user : string),
    auth_user (session w) = Some user ->
    next_disturbance w = Calm ->
    let run := deleteUserPreferences in
    (user_preferences (db w) = None ->
     result run w = Threw (StoreError undefined_table) /\
     result getUserPreferences w = Returned None) /\
    (forall rows, user_preferences (db w) = Some rows ->
       result run w = Returned tt /\
       user_preferences (db (after run w))
       = Some (filter (fun r => negb (pref_user_id r =? user)) rows) /\
       (weather w = [] -> result getUserPreferences (after run w) = Returned None)).
Proof.
  intros w user Hu Hnext run. subst run. unfold result at 1 3, after.
  rewrite (deleteUserPreferences_served w user Hu Hnext).
  rewrite (getUserPreferences_served w user Hu Hnext).
  split.
  - intros ->. now split.
  - intros rows ->. cbn [fst snd]. split; [reflexivity |]. split; [reflexivity |].
    intros Hcalm.
    match goal with |- result _ ?x = _ => set (w1 := x) end.
    assert (Hu1 : auth_user (session w1) = Some user) by exact Hu.
    assert (Hc1 : next_disturbance w1 = Calm).
    { unfold next_disturbance, w1. cbn. now rewrite Hcalm. }
    rewrite (getUserPreferences_served w1 user Hu1 Hc1). cbn.
    now rewrite (Personas.filter_deleted (fun r => pref_user_id r =? user) rows).
Qed.

(** X7 on a store without the table, and on one where alice and bob
    have preferences. *)
Lemma deleteUserPreferences_clears_witness :
  result deleteUserPreferences (world_of (Some alice) no_preferences_table [])
  = Threw (StoreError undefined_table) /\
  user_preferences
    (db (after deleteUserPreferences (world_of (Some alice) shared_preferences [])))
  = Some [mkUserPreferences bob "font=serif"].
Proof.
  destruct (deleteUserPreferences_clears (world_of (Some alice) no_preferences_table [])
              alice eq_refl eq_refl) as (Hnone & _).
  destruct (deleteUserPreferences_clears (world_of (Some alice) shared_preferences [])
              alice eq_refl eq_refl) as (_ & Hsome).
  split; [apply Hnone; reflexivity |].
  destruct (Hsome _ eq_refl) as (_ & Hrows & _). rewrite Hrows. reflexivity.
Defined.

End OwnedDeletes.

(** ** What tokens and hashes keep of their input *)

Module Encodings.
Import Text Base64 Facts Store World Eff Queries MoreQueries.
Local Open Scope N_scope.

#[local] Hint Resolve sextet_1 sextet_2 sextet_2' sextet_3 sextet_3' sextet_4 : sextets.

Lemma plain_url_char n : n < 64 -> plain_char (url_char (b64char n)) = b64char n.
Proof.
  intros Hn. apply Ascii.eqb_eq.
  exact (below 64 (fun n => Ascii.eqb (plain_char (url_char (b64char n))) (b64char n))
           eq_refl n Hn).
Qed.

Lemma url_char_inj n m :
  n < 64 -> m < 64 -> url_char (b64char n) = url_char (b64char m) -> b64char n = b64char m.
Proof.
  intros Hn Hm E. rewrite <- (plain_url_char n Hn), <- (plain_url_char m Hm), E.
  reflexivity.
Qed.

Lemma url_safe_pad1 : url_safe (String pad "") = "".
Proof. reflexivity. Qed.

Lemma url_safe_nil : url_safe "" = "".
Proof. reflexivity. Qed.

Ltac url_chars_equal :=
  repeat match goal with
  | H : url_char (b64char _) = url_char (b64char _) |- _ =>
      apply url_char_inj in H; [| auto with sextets ..]
  end.

Ltac empty_clash :=
  match goal with
  | H : String _ _ = EmptyString |- _ => discriminate H
  | H : EmptyString = String _ _ |- _ => discriminate H
  end.

(** The three replacements lose nothing of what [btoa] wrote. *)
Lemma url_safe_btoa_inj : forall xs ys,
  url_safe (btoa xs) = url_safe (btoa ys) -> btoa xs = btoa ys.
Proof.
  induction xs as [|a|a b|a b c xs IH] using list_ind3;
    intros ys E;
    destruct ys as [|a' [|b' [|c' ys]]]; cbn [btoa] in E |- *;
    rewrite ?url_safe_b64char, ?url_safe_padding, ?url_safe_pad1, ?url_safe_nil in E
      by auto with sextets;
    split_text; try empty_clash; url_chars_equal.
  - reflexivity.
  - congruence.
  - congruence.
  - rewrite (IH ys) by assumption. congruence.
Qed.

Lemma shareTokenOf_inj xs ys : shareTokenOf xs = shareTokenOf ys -> xs = ys.
Proof.
  rewrite !shareTokenOf_url_safe. intros E. now apply btoa_inj, url_safe_btoa_inj.
Qed.

(** X8. [generateShareToken] keeps all of its randomness: two calls
    return the same token exactly when they drew the same sixteen bytes.
    Each call draws sixteen bytes the random source has not given out
    before, and changes nothing else. *)
Theorem generateShareToken_keeps_entropy :
  forall w w' : World,
    (result generateShareToken w = result generateShareToken w' <->
     map (entropy w) (seq (drawn w) 16) = map (entropy w') (seq (drawn w') 16)) /\
    drawn (after generateShareToken w) = (drawn w + 16)%nat /\
    db (after generateShareToken w) = db w /\
    calls (after generateShareToken w) = calls w.
Proof.
  intros w w'.
  assert (R : forall v, result generateShareToken v
                        = Returned (shareTokenOf (map (entropy v) (seq (drawn v) 16))))
    by reflexivity.
  split; [| split; [| split]]; try reflexivity.
  rewrite !R. split.
  - intros E. injection E as E. now apply shareTokenOf_inj.
  - now intros ->.
Qed.

(** The text [btoa] makes of bytes that leave two over when taken by
    threes. *)
Lemma btoa_two_over : forall (k : nat) (bs : list byte),
  List.length bs = (3 * k + 2)%nat ->
  exists body, btoa bs = (body ++ "=")%string /\
               String.length body = (4 * k + 3)%nat /\
               forall_chars is_b64 body = true.
Proof.
  induction k as [| k IH]; intros bs L.
  - destruct bs as [| a [| b [| c bs]]]; try discriminate L.
    exists (String (b64char (u8 a / 4))
              (String (b64char ((u8 a mod 4) * 16 + u8 b / 16))
                 (String (b64char ((u8 b mod 16) * 4)) ""))).
    split; [reflexivity |]. split; [reflexivity |].
    cbn [forall_chars]. rewrite !b64char_is_b64 by auto with sextets. reflexivity.
  - destruct bs as [| a [| b [| c bs]]]; try (cbn in L; lia).
    destruct (IH bs) as (body & E & Hlen & Hchars); [cbn in L; lia |].
    exists (String (b64char (u8 a / 4))
              (String (b64char ((u8 a mod 4) * 16 + u8 b / 16))
                 (String (b64char ((u8 b mod 16) * 4 + u8 c / 64))
                    (String (b64char (u8 c mod 64)) body)))).
    split; [| split].
    + cbn [btoa String.append]. now rewrite E.
    + cbn [String.length]. lia.
    + cbn [forall_chars]. rewrite !b64char_is_b64 by auto with sextets. exact Hchars.
Qed.

Lemma length_append_pad body :
  String.length (body ++ "=")%string = S (String.length body).
Proof. induction body as [| c body IH]; cbn; [reflexivity | now rewrite IH]. Qed.

(** X9. Whatever the password, [hashPassword] returns a text of 44
    characters: 43 characters of the standard base64 alphabet (which has
    [+] and [/], unlike a share token) and one [=] of padding. *)
Theorem hashPassword_format :
  forall password : Js.jsstring,
  exists body : string,
    hashPassword password = (body ++ "=")%string /\
    String.length body = 43%nat /\
    String.length (hashPassword password) = 44%nat /\
    forall_chars is_b64 body = true.
Proof.
  intros password. unfold hashPassword.
  destruct (btoa_two_over 10 (Sha256.sha256 (Js.encode password))
              (Passwords.sha256_length _)) as (body & E & L & C).
  exists body. rewrite E, length_append_pad, L.
  split; [reflexivity |]. split; [reflexivity |]. split; [reflexivity | exact C].
Qed.

End Encodings.

(** ** What a stored message carries *)

Module StoredMessage.
Import Store World Eff Queries MoreStore MoreQueries Relations Reasoning Scenarios
  MoreScenarios.

(** The rows an upsert leaves under the id carry the parts that were
    handed in. *)
Lemma upsert_rows_parts row rows m :
  In m (upsert_rows row rows) -> m_id m = m_id row -> m_parts m = m_parts row.
Proof.
  unfold upsert_rows.
  destruct (existsb (fun m => m_id m =? m_id row) rows) eqn:E.
  - intros Hin Hid. apply in_map_iff in Hin as (m0 & <- & Hin).
    destruct (m_id m0 =? m_id row) eqn:F; [reflexivity |].
    apply String.eqb_neq in F. contradiction.
  - intros Hin Hid. apply in_app_or in Hin as [Hin | [<- | []]]; [| reflexivity].
    exfalso. assert (existsb (fun m => m_id m =? m_id row) rows = true) as C.
    { apply existsb_exists. exists m. split; [exact Hin |]. now apply String.eqb_eq. }
    congruence.
Qed.

(** X10. The parts of a stored message. After a call of [createMessage]
    that went through, with nobody else writing, the row stored under
    the message's id carries the parts of the message, followed, when
    uploads were handed in, by one fragment that lists every upload in
    order, also the uploads without any URL, for which no attachment row
    is written. The address of an entry is the upload's [url]; an upload
    that has only [fileUrl] is listed without an address. With no
    uploads the parts are the message's own. *)
Theorem createMessage_lists_every_upload :
  forall (w : World) (threadId : string) (message : UIMessage)
         (fs : option (list FileUploadResult)),
    alone w = true ->
    result (createMessage threadId message fs) w = Returned tt ->
    let stored := rows_with_id (messageIdOf message w)
                    (messages (db (after (createMessage threadId message fs) w))) in
    let given := match ui_parts message with Some p => p | None => [] end in
    stored <> [] /\
    forall m, In m stored ->
      (uploads fs = [] -> m_parts m = given) /\
      (uploads fs <> [] ->
       exists entries,
         m_parts m = given ++ [FileAttachmentsPart entries] /\
         map ap_fileName entries = map fu_fileName (uploads fs) /\
         map ap_fileUrl entries = map fu_url (uploads fs) /\
         map ap_content entries = map fu_content (uploads fs)).
Proof.
  intros w threadId message fs Hw Hr stored given.
  destruct (MessageCreation.createMessage_user _ _ _ _ Hr) as (user & Hu).
  destruct (MessageCreation.createMessage_returned threadId message fs w user Hu Hw Hr)
    as (Hm & _).
  set (row := messageRowOf threadId user message fs w) in *.
  subst stored. rewrite Hm. split.
  { destruct (MessageCreation.upsert_rows_contains row (messages (db w)))
      as (m & Hin & Hid & _).
    intros Hnone.
    assert (In m (rows_with_id (m_id row) (upsert_rows row (messages (db w))))) as C.
    { apply filter_In. split; [exact Hin |]. apply String.eqb_eq. exact Hid. }
    change (m_id row) with (messageIdOf message w) in C.
    rewrite Hnone in C. contradiction. }
  intros m Hin. apply filter_In in Hin as (Hin & Hid). apply String.eqb_eq in Hid.
  rewrite (upsert_rows_parts row _ m Hin Hid).
  change (m_parts row) with (updatedParts message fs).
  unfold updatedParts. fold given. split.
  - intros Hnone. destruct fs as [[| f l] |]; [reflexivity | discriminate | reflexivity].
  - intros Hsome. destruct fs as [[| f l] |]; [now contradiction Hsome | | now contradiction Hsome].
    cbn [has_uploads]. eexists. split; [reflexivity |].
    rewrite !map_map. now repeat split.
Qed.

(** X10 on a message sent with two uploads, the second without URL:
    both are listed, one attachment row is written. *)
Lemma createMessage_lists_every_upload_witness :
  exists entries,
    In (messageRowOf thread1 alice hello (Some [notes; ghost])
          (world_of (Some alice) alice_store []))
       (rows_with_id (messageIdOf hello (world_of (Some alice) alice_store []))
          (messages (db (after (createMessage thread1 hello (Some [notes; ghost]))
                           (world_of (Some alice) alice_store []))))) /\
    m_parts (messageRowOf thread1 alice hello (Some [notes; ghost])
               (world_of (Some alice) alice_store []))
    = [FileAttachmentsPart entries] /\
    map ap_fileName entries = ["notes.txt"; "ghost.txt"] /\
    List.length
      (file_attachments
         (db (after (createMessage thread1 hello (Some [notes; ghost]))
                (world_of (Some alice) alice_store [])))) = 1%nat.
Proof.
  assert (Hin : In (messageRowOf thread1 alice hello (Some [notes; ghost])
                      (world_of (Some alice) alice_store []))
                   (rows_with_id (messageIdOf hello (world_of (Some alice) alice_store []))
                      (messages (db (after (createMessage thread1 hello (Some [notes; ghost]))
                                       (world_of (Some alice) alice_store []))))))
    by (vm_compute; now left).
  assert (Hr : result (createMessage thread1 hello (Some [notes; ghost])) (world_of (Some alice) alice_store []) = Returned tt) by (vm_compute; reflexivity).
  pose proof (createMessage_lists_every_upload (world_of (Some alice) alice_store [])
              thread1 hello (Some [notes; ghost]) eq_refl Hr) as H.
  cbv zeta in H.
  destruct H as (_ & Hparts).
  pose proof (Hparts _ Hin) as H.
  destruct H as (_ & Hsome).
  destruct Hsome as (entries & Hp & Hn & _); [discriminate |].
  exists entries. split; [exact Hin |]. split; [exact Hp |]. split; [exact Hn |].
  vm_compute. reflexivity.
Defined.

Lemma stamped_other threadId at_ t :
  th_id t <> threadId -> stamped threadId at_ t = t.
Proof. intros H. apply String.eqb_neq in H. unfold stamped. now rewrite H. Qed.

Lemma stamped_this threadId at_ t :
  th_id t = threadId ->
  th_last_message_at (stamped threadId at_ t) = Some at_ /\
  th_id (stamped threadId at_ t) = threadId.
Proof. intros H. apply String.eqb_eq in H. unfold stamped. rewrite H. cbn. now apply String.eqb_eq in H. Qed.

(** The thread rows after a call that went through, in terms of the
    one reading of the clock the model has. *)
Lemma createMessage_threads_after :
  forall (w : World) (threadId : string) (message : UIMessage)
         (fs : option (list FileUploadResult)),
    alone w = true ->
    result (createMessage threadId message fs) w = Returned tt ->
    let left := threads (db (after (createMessage threadId message fs) w)) in
    (exists t, In t left /\ th_id t = threadId) /\
    (forall t, In t left -> th_id t = threadId ->
       th_last_message_at t = Some (createdAtOf message w)) /\
    (forall t, th_id t <> threadId -> (In t left <-> In t (threads (db w)))).
Proof.
  intros w threadId message fs Hw Hr left.
  destruct (MessageCreation.createMessage_user _ _ _ _ Hr) as (user & Hu).
  destruct (MessageCreation.createMessage_returned threadId message fs w user Hu Hw Hr)
    as (_ & Ht & _).
  subst left.
  destruct Ht as [(r & Hone & _ & ->) | (Hnone & _ & ->)].
  - assert (Hr0 : In r (threads (db w)) /\ thread_owned threadId user r = true).
    { apply filter_In. rewrite Hone. now left. }
    destruct Hr0 as (Hin & Hown). unfold thread_owned in Hown.
    apply andb_true_iff in Hown as (Hid & _). apply String.eqb_eq in Hid.
    split; [| split].
    + exists (stamped threadId (createdAtOf message w) r). split.
      * apply in_map. exact Hin.
      * now apply stamped_this.
    + intros t Hin' Hid'. apply in_map_iff in Hin' as (t0 & <- & Hin0).
      destruct (String.eqb_spec (th_id t0) threadId) as [E | N].
      * now apply stamped_this.
      * rewrite (stamped_other _ _ _ N) in Hid'. contradiction.
    + intros t Hid'. split.
      * intros Hin'. apply in_map_iff in Hin' as (t0 & <- & Hin0).
        destruct (String.eqb_spec (th_id t0) threadId) as [E | N].
        -- destruct (stamped_this threadId (createdAtOf message w) t0 E) as (_ & C).
           contradiction.
        -- now rewrite (stamped_other _ _ _ N).
      * intros Hin'. apply in_map_iff. exists t. split; [now apply stamped_other | exact Hin'].
  - split; [| split].
    + eexists. split; [apply in_or_app; right; now left | reflexivity].
    + intros t Hin' Hid'. apply in_app_or in Hin' as [Hin' | [<- | []]]; [| reflexivity].
      exfalso.
      assert (existsb (fun t => th_id t =? threadId) (threads (db w)) = true) as C.
      { apply existsb_exists. exists t. split; [exact Hin' |]. now apply String.eqb_eq. }
      congruence.
    + intros t Hid'. split.
      * intros Hin'. apply in_app_or in Hin' as [Hin' | [<- | []]]; [exact Hin' |].
        now contradiction Hid'.
      * intros Hin'. apply in_or_app. now left.
Qed.

(** X11. The thread's last activity. After a call of [createMessage]
    that went through, with nobody else writing, the thread has a row
    and every row of the thread carries a [last_message_at]. When the
    message has a [createdAt], that date is the one carried, whatever
    the row carried before: a message dated in the past moves the
    thread's last activity back. The rows of other threads are the same
    as before. *)
Theorem createMessage_stamps_thread :
  forall (w : World) (threadId : string) (message : UIMessage)
         (fs : option (list FileUploadResult)),
    alone w = true ->
    result (createMessage threadId message fs) w = Returned tt ->
    let left := threads (db (after (createMessage threadId message fs) w)) in
    (exists t, In t left /\ th_id t = threadId) /\
    (forall t, In t left -> th_id t = threadId -> th_last_message_at t <> None) /\
    (forall d, ui_createdAt message = Some d ->
       forall t, In t left -> th_id t = threadId -> th_last_message_at t = Some d) /\
    (forall t, th_id t <> threadId -> (In t left <-> In t (threads (db w)))).
Proof.
  intros w threadId message fs Hw Hr left.
  destruct (createMessage_threads_after w threadId message fs Hw Hr)
    as (Hrow & Hstamp & Hother).
  fold left in Hrow, Hstamp, Hother.
  split; [exact Hrow |]. split; [| split; [| exact Hother]].
  - intros t Hin Hid. rewrite (Hstamp t Hin Hid). discriminate.
  - intros d Hd t Hin Hid. rewrite (Hstamp t Hin Hid).
    unfold createdAtOf. now rewrite Hd.
Qed.

(** X11 on a message dated before the thread's last activity. *)
Lemma createMessage_stamps_thread_witness :
  threads active_store = [mkThread thread1 "Plans" alice (Some 1699999999000%Z)] /\
  ui_createdAt backdated = Some 1600000000000%Z /\
  forall t,
    In t (threads (db (after (createMessage thread1 backdated None)
                         (world_of (Some alice) active_store [])))) ->
    th_id t = thread1 ->
    th_last_message_at t = Some 1600000000000%Z.
Proof.
  split; [reflexivity |]. split; [reflexivity |].
  assert (Hr : result (createMessage thread1 backdated None)
                 (world_of (Some alice) active_store []) = Returned tt)
    by (vm_compute; reflexivity).
  pose proof (createMessage_stamps_thread (world_of (Some alice) active_store [])
                thread1 backdated None eq_refl Hr) as H.
  cbv zeta in H. destruct H as (_ & _ & H & _). exact (H _ eq_refl).
Defined.

End StoredMessage.

(** ** An update that goes through *)

Module MessageRewrite.
Import Store World Eff Queries MoreStore MoreQueries Relations Reasoning Scenarios
  MoreScenarios.

Lemma filter_conj {A} (p q : A -> bool) l :
  filter (fun a => p a && q a) l = filter q (filter p l).
Proof.
  induction l as [| a l IH]; cbn; [reflexivity |].
  destruct (p a); cbn; [| exact IH]. destruct (q a); now rewrite IH.
Qed.

Lemma filter_id_rewritten id p content at_ l :
  filter (fun r => m_id r =? id) (map (fun r => if p r : bool then rewrite content at_ r else r) l)
  = map (fun r => if p r then rewrite content at_ r else r)
        (filter (fun r => m_id r =? id) l).
Proof.
  induction l as [| r l IH]; cbn; [reflexivity |].
  assert (E : m_id (if p r then rewrite content at_ r else r) = m_id r)
    by now destruct (p r).
  rewrite E. destruct (m_id r =? id); cbn; now rewrite IH.
Qed.

(** The rows an update scoped by [p] rewrites, when [p] holds of the one
    row with the id. *)
Lemma scoped_rewrite id (p : MessageRow -> bool) content at_ l m :
  filter (fun r => m_id r =? id) l = [m] ->
  p m = true ->
  filter (fun r => (m_id r =? id) && p r) l = [m] /\
  map (fun r => if (m_id r =? id) && p r then rewrite content at_ r else r) l
  = map (fun r => if m_id r =? id then rewrite content at_ r else r) l.
Proof.
  intros Hrows Hp. split.
  - rewrite filter_conj, Hrows. cbn. now rewrite Hp.
  - apply map_ext_in. intros r Hin. destruct (m_id r =? id) eqn:E; [| reflexivity].
    assert (Hr : In r (filter (fun r => m_id r =? id) l)) by (apply filter_In; now split).
    rewrite Hrows in Hr. destruct Hr as [<- | []]. now rewrite Hp.
Qed.

(** X12. An update that goes through. In a calm world, let a signed-in
    user call [updateMessageInDatabase] for an id that exactly one
    message row carries, where the row is the user's own, or is an
    assistant's and its thread is the user's. Then the call returns
    true; the row carries the new content and the time of the call as
    [updated_at], its other columns unchanged; every other message row
    and the threads are as before. *)
Theorem updateMessageInDatabase_rewrites :
  forall (w : World) (messageId newContent user : string) (m : MessageRow),
    weather w = [] ->
    auth_error (session w) = None ->
    auth_user (session w) = Some user ->
    rows_with_id messageId (messages (db w)) = [m] ->
    (m_user_id m = user \/
     (m_role m = "assistant" /\
      exists t, filter (thread_owned (m_thread_id m) user) (threads (db w)) = [t])) ->
    let run := updateMessageInDatabase messageId newContent in
    result run w = Returned true /\
    messages (db (after run w))
    = map (fun r => if m_id r =? messageId then rewrite newContent (now w) r else r)
          (messages (db w)) /\
    rows_with_id messageId (messages (db (after run w)))
    = [rewrite newContent (now w) m] /\
    threads (db (after run w)) = threads (db w).
Proof.
  intros w messageId newContent user m Hcalm He Hu Hrows Hmay run. subst run.
  destruct w as [ses d t ent dr wea cl con]. cbn in Hcalm, He, Hu, Hrows, Hmay |- *.
  subst wea. unfold rows_with_id in *.
  assert (Hafter : forall p : MessageRow -> bool,
             p m = true ->
             filter (fun r => m_id r =? messageId)
               (map (fun r => if (m_id r =? messageId) && p r
                              then rewrite newContent t r else r) (messages d))
             = [rewrite newContent t m]).
  { intros p Hp. rewrite filter_id_rewritten, Hrows. cbn.
    assert (Hid : (m_id m =? messageId) = true).
    { assert (Hin : In m (filter (fun r => m_id r =? messageId) (messages d)))
        by (rewrite Hrows; now left).
      now apply filter_In in Hin. }
    now rewrite Hid, Hp. }
  unfold updateMessageInDatabase, checkAndUpdate, checkRow, select_single.
  run. rewrite He, Hu. cbn. rewrite Hrows. cbn.
  unfold applyUpdate, verifyUpdate, update_messages, select_single. run.
  destruct (m_user_id m =? user) eqn:Hown; cbn.
  - destruct (scoped_rewrite messageId (fun r => m_user_id r =? user) newContent t
                (messages d) m Hrows Hown) as (Hsel & Hmap).
    rewrite Hsel. cbn. rewrite (Hafter _ Hown). cbn. rewrite String.eqb_refl. cbn.
    rewrite Hmap, filter_id_rewritten, Hrows. cbn.
    assert (Hid : (m_id m =? messageId) = true).
    { assert (Hin : In m (filter (fun r => m_id r =? messageId) (messages d)))
        by (rewrite Hrows; now left).
      now apply filter_In in Hin. }
    rewrite Hid. now repeat split.
  - destruct Hmay as [Hmine | (Hrole & t0 & Hthread)].
    { apply String.eqb_eq in Hmine. congruence. }
    apply String.eqb_eq in Hrole. rewrite Hrole. cbn. rewrite Hthread. cbn.
    assert (Hsame : (m_thread_id m =? m_thread_id m) = true) by apply String.eqb_refl.
    destruct (scoped_rewrite messageId (fun r => m_thread_id r =? m_thread_id m)
                newContent t (messages d) m Hrows Hsame) as (Hsel & Hmap).
    rewrite Hsel. cbn. rewrite (Hafter _ Hsame). cbn. rewrite String.eqb_refl. cbn.
    rewrite Hmap, filter_id_rewritten, Hrows. cbn.
    assert (Hid : (m_id m =? messageId) = true).
    { assert (Hin : In m (filter (fun r => m_id r =? messageId) (messages d)))
        by (rewrite Hrows; now left).
      now apply filter_In in Hin. }
    rewrite Hid. now repeat split.
Qed.

(** X12 on alice's chat: she rewrites her own message, and the reply of
    the assistant in her thread. *)
Lemma updateMessageInDatabase_rewrites_witness :
  result (updateMessageInDatabase "m-2" "to Porto") (world_of (Some alice) long_chat [])
  = Returned true /\
  rows_with_id "m-2"
    (messages (db (after (updateMessageInDatabase "m-2" "to Porto")
                     (world_of (Some alice) long_chat []))))
  = [rewrite "to Porto" 1700000000000%Z second_message] /\
  result (updateMessageInDatabase "m-3" "In June?") (world_of (Some bob) assisted_chat [])
  = Returned true.
Proof.
  destruct (updateMessageInDatabase_rewrites (world_of (Some alice) long_chat [])
              "m-2" "to Porto" alice second_message eq_refl eq_refl eq_refl eq_refl
              (or_introl eq_refl)) as (Hr & _ & Hrow & _).
  destruct (updateMessageInDatabase_rewrites (world_of (Some bob) assisted_chat [])
              "m-3" "In June?" bob third_message eq_refl eq_refl eq_refl eq_refl
              (or_intror (conj eq_refl
                 (ex_intro _ (mkThread thread1 "Plans" bob None) eq_refl))))
    as (Hr' & _).
  split; [exact Hr |]. split; [exact Hrow | exact Hr'].
Defined.

End MessageRewrite.

(** ** Reads that fetch file contents *)

Module ContentReads.
Import Store World Eff Queries MoreStore MoreQueries Relations Reasoning Scenarios
  MoreScenarios Ordering.

(** A list handled element by element, each element returning. *)
Lemma mapM_returns {A B} (f : A -> M B) (R : A -> B -> Prop) :
  (forall a w, exists b, result (f a) w = Returned b /\ R a b) ->
  forall l w, exists l', result (mapM f l) w = Returned l' /\ Forall2 R l l'.
Proof.
  intros Hf. induction l as [| a l IH]; intros w; cbn [mapM].
  - exists []. now split.
  - destruct (Hf a w) as (b & Hb & Rb). unfold result in *.
    destruct (bind_cases (f a) (fun b => bind (mapM f l) (fun bs => ret (b :: bs))) w)
      as [(b0 & Hb0 & ->) | (t & Ht & _)]; [| unfold result in Ht; congruence].
    unfold result in Hb0. rewrite Hb in Hb0. injection Hb0 as <-.
    destruct (IH (after (f a) w)) as (l' & Hl & Rl).
    destruct (bind_cases (mapM f l) (fun bs => ret (b :: bs)) (after (f a) w))
      as [(l0 & Hl0 & ->) | (t & Ht & _)]; [| unfold result in Ht; congruence].
    unfold result in Hl0. rewrite Hl in Hl0. injection Hl0 as <-.
    exists (b :: l'). split; [reflexivity | now constructor].
Qed.

Lemma each_returns {A} (f : A -> M unit) :
  (forall a w, result (f a) w = Returned tt) ->
  forall l w, result (each f l) w = Returned tt.
Proof.
  intros Hf. induction l as [| a l IH]; intros w; cbn [each]; [reflexivity |].
  unfold result in *.
  destruct (bind_cases (f a) (fun _ => each f l) w)
    as [([] & _ & ->) | (t & Ht & _)]; [apply IH |].
  unfold result in Ht. rewrite Hf in Ht. discriminate.
Qed.

Lemma each_same_store {A} (f : A -> M unit) l :
  (forall a, keeps same_store (f a)) -> keeps same_store (each f l).
Proof.
  intros Hf. induction l as [| a l IH]; cbn [each].
  - apply same_store_ret.
  - apply same_store_bind; [apply Hf | intros _; exact IH].
Qed.

Section Fetching.
Variable fetch : string -> Fetched.

Lemma announce_same_store a : keeps same_store (announce a).
Proof. unfold announce. kept. Qed.

Lemma announce_returns a w : result (announce a) w = Returned tt.
Proof. unfold announce. now destruct (_ && _). Qed.

Lemma withContent_same_store a : keeps same_store (withContent fetch a).
Proof. unfold withContent. kept. Qed.

Lemma withContent_handed a w :
  exists a', result (withContent fetch a) w = Returned a' /\ handed fetch a a'.
Proof.
  unfold withContent. destruct (has_content a) eqn:Hc.
  { exists a. split; [reflexivity |]. constructor. now left. }
  destruct (ap_fileUrl a) as [url |] eqn:Hurl.
  2: { exists a. split; [reflexivity |]. constructor. right. left. now rewrite Hurl. }
  destruct (truthy (Some url)) eqn:Ht.
  2: { exists a. split; [reflexivity |]. constructor. right. left. now rewrite Hurl. }
  destruct (fetch url) as [| [|] text] eqn:Hf.
  - exists a. split; [reflexivity |]. constructor. right. right.
    intros url0 text0 E. rewrite Hurl in E. injection E as <-. congruence.
  - exists (filled text a). split; [reflexivity |].
    apply handed_filled with (url := url); try assumption.
    intros ->. discriminate Ht.
  - exists a. split; [reflexivity |]. constructor. right. right.
    intros url0 text0 E. rewrite Hurl in E. injection E as <-. congruence.
Qed.

Lemma partWithContent_same_store p : keeps same_store (partWithContent fetch p).
Proof.
  destruct p as [type body | l]; cbn [partWithContent]; [apply same_store_ret |].
  apply same_store_bind; [| intros ?; apply same_store_ret].
  apply same_store_mapM. intros a. apply withContent_same_store.
Qed.

Lemma partWithContent_handed p w :
  exists p', result (partWithContent fetch p) w = Returned p' /\ handed_part fetch p p'.
Proof.
  destruct p as [type body | l]; cbn [partWithContent].
  - eexists. split; [reflexivity | constructor].
  - destruct (mapM_returns (withContent fetch) (handed fetch) withContent_handed l w)
      as (l' & Hl & Rl).
    unfold result in *.
    destruct (bind_cases (mapM (withContent fetch) l)
                (fun l' => ret (FileAttachmentsPart l')) w)
      as [(l0 & Hl0 & ->) | (t & Ht & _)]; [| unfold result in Ht; congruence].
    unfold result in Hl0. rewrite Hl in Hl0. injection Hl0 as <-.
    eexists. split; [reflexivity | now constructor].
Qed.

Lemma messageWithContent_same_store m : keeps same_store (messageWithContent fetch m).
Proof.
  unfold messageWithContent.
  apply same_store_bind; [| intros ?; apply same_store_ret].
  apply same_store_mapM. intros p. apply partWithContent_same_store.
Qed.

Lemma messageWithContent_handed m w :
  exists m', result (messageWithContent fetch m) w = Returned m' /\
             handed_message fetch m m'.
Proof.
  unfold messageWithContent.
  destruct (mapM_returns (partWithContent fetch) (handed_part fetch)
              partWithContent_handed (m_parts m) w) as (l' & Hl & Rl).
  unfold result in *.
  destruct (bind_cases (mapM (partWithContent fetch) (m_parts m))
              (fun parts => ret (mkMessage (m_id m) (m_thread_id m) (m_user_id m) parts
                                   (m_role m) (m_content m) (m_created_at m)
                                   (m_updated_at m))) w)
    as [(l0 & Hl0 & ->) | (t & Ht & _)]; [| unfold result in Ht; congruence].
  unfold result in Hl0. rewrite Hl in Hl0. injection Hl0 as <-.
  eexists. split; [reflexivity |]. unfold handed_message. cbn. now repeat split.
Qed.

(** What follows the read of the rows in [getMessagesByThreadId]. *)
Lemma hand_on_messages rows w :
  let rest := bind (each announce (flat_map (fun m => attachments_of (m_parts m)) rows))
                (fun _ => mapM (messageWithContent fetch) rows) in
  (exists found, result rest w = Returned found /\
                 Forall2 (handed_message fetch) rows found) /\
  same_store w (after rest w).
Proof.
  intros rest. split.
  - subst rest. unfold result.
    destruct (bind_cases (each announce (flat_map (fun m => attachments_of (m_parts m)) rows))
                (fun _ => mapM (messageWithContent fetch) rows) w)
      as [([] & _ & ->) | (t & Ht & _)].
    + apply (mapM_returns (messageWithContent fetch) (handed_message fetch)
               messageWithContent_handed).
    + rewrite (each_returns announce announce_returns) in Ht. discriminate.
  - subst rest. apply same_store_bind.
    + apply each_same_store. intros a. apply announce_same_store.
    + intros _. apply same_store_mapM. intros m. apply messageWithContent_same_store.
Qed.

(** X14. [getMessagesByThreadId], when nobody else writes, whatever the
    network answers. If the store fails the read, its error is thrown.
    Otherwise the call returns the messages of the thread, oldest first,
    each with its columns as stored and its parts one for one; in a
    part, the attachments are handed on one for one, an attachment
    either as it is stored or, when it has neither content nor extracted
    text, has an address and the fetch of the address answers ok, filled
    with the fetched text as content and extracted text. A fetch that is
    rejected or answers not ok leaves the attachment as stored and never
    fails the call. One store call is made and the store is left as it
    was. *)
Theorem getMessagesByThreadId_hands_on :
  forall (w : World) (threadId : string),
    alone w = true ->
    let run := getMessagesByThreadId fetch threadId in
    (forall e, next_disturbance w = Fails e -> result run w = Threw (StoreError e)) /\
    ((forall e, next_disturbance w <> Fails e) ->
     exists stored found,
       Permutation stored
         (filter (fun m => m_thread_id m =? threadId) (messages (db w))) /\
       rising m_created_at stored /\
       result run w = Returned found /\
       Forall2 (handed_message fetch) stored found) /\
    db (after run w) = db w /\
    calls (after run w) = calls w ++ [(Messages, Select)].
Proof.
  intros w threadId Hw run. subst run. unfold result, after.
  set (q := select_ordered messages (fun m => m_thread_id m =? threadId) m_created_at true).
  destruct (from_alone Messages Select q w Hw) as [(E & Hn) | (e & Hn & E)].
  - set (rows := ordered m_created_at true
                   (filter (fun m => m_thread_id m =? threadId) (messages (db w)))).
    set (w1 := mkWorld (session w) (db w) (now w) (entropy w) (drawn w)
                 (tl (weather w)) (calls w ++ [(Messages, Select)]) (console w)).
    assert (Erun : getMessagesByThreadId fetch threadId w
                   = bind (each announce (flat_map (fun m => attachments_of (m_parts m)) rows))
                       (fun _ => mapM (messageWithContent fetch) rows) w1).
    { unfold getMessagesByThreadId. fold q. unfold bind at 1. rewrite E. reflexivity. }
    rewrite Erun.
    destruct (hand_on_messages rows w1)
      as ((found & Hfound & Hall) & (Hdb & _ & Hcalls & _)).
    unfold result, after in Hfound, Hdb, Hcalls.
    split; [intros e He; exfalso; now apply (Hn e) |].
    split; [| split].
    + intros _. exists rows, found. split; [apply ordered_perm |].
      split; [apply ordered_rising |]. split; [exact Hfound | exact Hall].
    + rewrite Hdb. reflexivity.
    + rewrite Hcalls. reflexivity.
  - assert (Erun : getMessagesByThreadId fetch threadId w
                   = (Threw (StoreError e),
                      mkWorld (session w) (db w) (now w) (entropy w) (drawn w)
                        (tl (weather w)) (calls w ++ [(Messages, Select)]) (console w))).
    { unfold getMessagesByThreadId. fold q. unfold bind at 1. rewrite E. reflexivity. }
    rewrite Erun. cbn. split; [| split; [| split]].
    + intros e0 He. rewrite Hn in He. now injection He as <-.
    + intros Hnot. exfalso. now apply (Hnot e).
    + reflexivity.
    + reflexivity.
Qed.

(** How [getFileAttachmentsWithContent] hands on a row. *)
Lemma rowWithContent_run r w :
  result (rowWithContent fetch r) w = Returned (handedOn r (content_of fetch r)).
Proof.
  unfold rowWithContent, content_of.
  destruct (truthy (Some (fa_file_url r))); [| reflexivity].
  now destruct (fetch (fa_file_url r)) as [| [|] text].
Qed.

Lemma rowWithContent_same_store r : keeps same_store (rowWithContent fetch r).
Proof. unfold rowWithContent. kept. Qed.

(** X15. [getFileAttachmentsWithContent], when nobody else writes,
    whatever the network answers. If the store fails the read, its error
    is thrown. Otherwise the call returns one item for each attachment
    row of the message, oldest first, with the row's id, name, type,
    size, address and thumbnail; an item has content, equal to its
    extracted text, exactly when the row's address is not empty and the
    fetch of it answers ok, and the content is then the fetched text. A
    failed fetch never fails the call. One store call is made and the
    store is left as it was. *)
Theorem getFileAttachmentsWithContent_hands_on :
  forall (w : World) (messageId : string),
    alone w = true ->
    let run := getFileAttachmentsWithContent fetch messageId in
    (forall e, next_disturbance w = Fails e -> result run w = Threw (StoreError e)) /\
    ((forall e, next_disturbance w <> Fails e) ->
     exists rows,
       Permutation rows
         (filter (fun f => fa_message_id f =? messageId) (file_attachments (db w))) /\
       rising fa_created_at rows /\
       result run w = Returned (map (fun r => handedOn r (content_of fetch r)) rows) /\
       forall r text,
         In r rows ->
         (content_of fetch r = Some text <->
          fa_file_url r <> "" /\ fetch (fa_file_url r) = Responded true text)) /\
    db (after run w) = db w /\
    calls (after run w) = calls w ++ [(FileAttachments, Select)].
Proof.
  intros w messageId Hw run. subst run. unfold result, after.
  set (q := select_ordered file_attachments (fun f => fa_message_id f =? messageId)
              fa_created_at true).
  destruct (from_alone FileAttachments Select q w Hw) as [(E & Hn) | (e & Hn & E)].
  - set (rows := ordered fa_created_at true
                   (filter (fun f => fa_message_id f =? messageId) (file_attachments (db w)))).
    set (w1 := mkWorld (session w) (db w) (now w) (entropy w) (drawn w)
                 (tl (weather w)) (calls w ++ [(FileAttachments, Select)]) (console w)).
    assert (Erun : getFileAttachmentsWithContent fetch messageId w
                   = mapM (rowWithContent fetch) rows w1).
    { unfold getFileAttachmentsWithContent. fold q. unfold bind at 1. rewrite E. reflexivity. }
    rewrite Erun.
    destruct (mapM_returns (rowWithContent fetch)
                (fun r a => a = handedOn r (content_of fetch r))
                (fun r w => ex_intro _ _ (conj (rowWithContent_run r w) eq_refl)) rows w1)
      as (found & Hfound & Hall).
    assert (Hmap : found = map (fun r => handedOn r (content_of fetch r)) rows).
    { clear -Hall. induction Hall as [| r a l l' -> _ IH]; cbn; [reflexivity | now rewrite IH]. }
    pose proof (same_store_mapM (rowWithContent fetch) rows rowWithContent_same_store w1)
      as (Hdb & _ & Hcalls & _).
    unfold result, after in Hfound, Hdb, Hcalls.
    split; [intros e He; exfalso; now apply (Hn e) |].
    split; [| split].
    + intros _. exists rows. split; [apply ordered_perm |].
      split; [apply ordered_rising |]. split; [now rewrite Hfound, Hmap |].
      intros r text _. unfold content_of, truthy.
      destruct (String.eqb_spec (fa_file_url r) "") as [E0 | N0]; cbn.
      * split; [discriminate | intros (C & _); contradiction].
      * destruct (fetch (fa_file_url r)) as [| [|] text0].
        -- split; [discriminate | intros (_ & C); discriminate].
        -- split; [intros C; injection C as <-; now split
                  | intros (_ & C); now injection C as <-].
        -- split; [discriminate | intros (_ & C); discriminate].
    + rewrite Hdb. reflexivity.
    + rewrite Hcalls. reflexivity.
  - assert (Erun : getFileAttachmentsWithContent fetch messageId w
                   = (Threw (StoreError e),
                      mkWorld (session w) (db w) (now w) (entropy w) (drawn w)
                        (tl (weather w)) (calls w ++ [(FileAttachments, Select)])
                        (console w))).
    { unfold getFileAttachmentsWithContent. fold q. unfold bind at 1. rewrite E. reflexivity. }
    rewrite Erun. cbn. split; [| split; [| split]].
    + intros e0 He. rewrite Hn in He. now injection He as <-.
    + intros Hnot. exfalso. now apply (Hnot e).
    + reflexivity.
    + reflexivity.
Qed.

End Fetching.

(** X14 on a thread whose message lists a file without content, with a
    network that serves the file, and with one that is down. *)
Lemma getMessagesByThreadId_hands_on_witness :
  result (getMessagesByThreadId serving thread1) (world_of (Some alice) attached_chat [])
  = Returned [attached_message_filled] /\
  result (getMessagesByThreadId unreachable thread1) (world_of (Some alice) attached_chat [])
  = Returned [attached_message] /\
  exists stored found,
    result (getMessagesByThreadId serving thread1) (world_of (Some alice) attached_chat [])
    = Returned found /\
    Forall2 (handed_message serving) stored found.
Proof.
  split; [vm_compute; reflexivity |]. split; [vm_compute; reflexivity |].
  pose proof (getMessagesByThreadId_hands_on serving
                (world_of (Some alice) attached_chat []) thread1 eq_refl) as H.
  cbv zeta in H. destruct H as (_ & H & _).
  destruct H as (stored & found & _ & _ & Hr & Hall); [discriminate |].
  exists stored, found. now split.
Defined.

(** X15 on the attachment rows of alice's first message. *)
Lemma getFileAttachmentsWithContent_hands_on_witness :
  exists rows,
    Permutation rows [late_file; early_file] /\
    result (getFileAttachmentsWithContent serving hello_id)
      (world_of (Some alice) filed_store [])
    = Returned (map (fun r => handedOn r (content_of serving r)) rows) /\
    content_of serving early_file = Some "buy milk" /\
    content_of serving late_file = None.
Proof.
  pose proof (getFileAttachmentsWithContent_hands_on serving
                (world_of (Some alice) filed_store []) hello_id eq_refl) as H.
  cbv zeta in H. destruct H as (_ & H & _).
  destruct H as (rows & Hp & _ & Hr & _); [discriminate |].
  exists rows. split; [exact Hp |]. split; [exact Hr |]. split; reflexivity.
Defined.

End ContentReads.

(** ** A user's files with the titles of their threads *)

Module FileTitles.
Import Store World Eff Queries MoreStore MoreQueries Relations Reasoning Scenarios
  MoreScenarios Ordering.

(** The own property a key has after the titles of the rows were
    assigned, in order, on top of [titles]: the title of the last row
    with that id. *)
Lemma own_assigned key : key <> "__proto__" ->
  forall rows titles,
    own key (fold_left (fun titles thread => assign (th_id thread) (th_title thread) titles)
               rows titles)
    = match rev (filter (fun t => th_id t =? key) rows) with
      | t :: _ => Some (th_title t)
      | [] => own key titles
      end.
Proof.
  intros Hkey. induction rows as [| t rows IH]; intros titles; cbn [fold_left filter];
    [reflexivity |].
  rewrite IH. destruct (String.eqb_spec (th_id t) key) as [E | N].
  - cbn [rev]. destruct (rev (filter (fun t => th_id t =? key) rows)) as [| t' l];
      cbn [app]; [| reflexivity].
    unfold assign. rewrite E. apply String.eqb_neq in Hkey. rewrite Hkey.
    cbn [own]. now rewrite String.eqb_refl.
  - destruct (rev (filter (fun t => th_id t =? key) rows)) as [| t' l]; [| reflexivity].
    unfold assign. destruct (th_id t =? "__proto__"); [reflexivity |].
    cbn [own]. apply String.eqb_neq in N. now rewrite N.
Qed.

Lemma inherited_proto key : inherited key = false -> key <> "__proto__".
Proof. intros H ->. discriminate H. Qed.

(** The title found for a key that names no inherited property. *)
Lemma thread_title_of rows key :
  inherited key = false ->
  thread_title (threadTitlesOf (Some rows)) key
  = match rev (filter (fun t => th_id t =? key) rows) with
    | t :: _ => Title (if th_title t =? "" then "Unknown Thread" else th_title t)
    | [] => Title "Unknown Thread"
    end.
Proof.
  intros Hkey. unfold thread_title, look, threadTitlesOf. cbn [or_empty].
  rewrite (own_assigned key (inherited_proto key Hkey)). cbn [own]. rewrite Hkey.
  destruct (rev (filter (fun t => th_id t =? key) rows)) as [| t l]; [reflexivity |].
  unfold or_string, or_else, truthy. now destruct (th_title t =? "").
Qed.

Lemma getAllFileAttachments_calm w user :
  auth_user (session w) = Some user -> weather w = [] ->
  result getAllFileAttachments w
  = Returned
      (map (fun file =>
              (file,
               thread_title
                 (threadTitlesOf (Some (filter (fun t => th_user_id t =? user) (threads (db w)))))
                 (fa_thread_id file)))
           (ordered fa_created_at false
              (filter (fun f => fa_user_id f =? user) (file_attachments (db w))))).
Proof.
  intros Hu Hcalm. unfold getAllFileAttachments, result.
  rewrite (OwnedDeletes.as_user _ w user Hu).
  unfold bind, from, next_disturbance, select_rows, select_ordered. rewrite Hcalm.
  reflexivity.
Qed.

(** X16. [getAllFileAttachments] by a signed-in user in a calm world
    returns the user's attachment rows, newest first, each with a thread
    title. For a row whose thread id names no property that plain
    objects inherit, the title is that of the user's thread with this
    id; it is "Unknown Thread" when the user has no thread with this id
    (the file's thread may be another user's) and when the thread's
    title is empty. *)
Theorem getAllFileAttachments_titles :
  forall (w : World) (user : string),
    auth_user (session w) = Some user ->
    weather w = [] ->
    exists files,
      result getAllFileAttachments w = Returned files /\
      Permutation (map fst files)
        (filter (fun f => fa_user_id f =? user) (file_attachments (db w))) /\
      falling fa_created_at (map fst files) /\
      forall file title,
        In (file, title) files ->
        inherited (fa_thread_id file) = false ->
        let mine := filter (fun t => (th_user_id t =? user) && (th_id t =? fa_thread_id file))
                      (threads (db w)) in
        (mine = [] -> title = Title "Unknown Thread") /\
        (forall t, mine = [t] ->
           title = Title (if th_title t =? "" then "Unknown Thread" else th_title t)).
Proof.
  intros w user Hu Hcalm. eexists. split; [apply (getAllFileAttachments_calm w user Hu Hcalm) |].
  rewrite map_map. cbn [fst]. rewrite map_id.
  split; [apply ordered_perm |]. split; [apply ordered_falling |].
  intros file title Hin Hkey.
  apply in_map_iff in Hin as (f & E & _). injection E as -> <-.
  rewrite (thread_title_of _ _ Hkey).
  rewrite MessageRewrite.filter_conj. split.
  - intros ->. reflexivity.
  - intros t ->. reflexivity.
Qed.

(** X16 on a store where alice has a file in her thread and bob a file
    in a thread without title. *)
Lemma getAllFileAttachments_titles_witness :
  result getAllFileAttachments (world_of (Some alice) filed_store [])
  = Returned [(late_file, Title "Plans"); (early_file, Title "Plans")] /\
  result getAllFileAttachments (world_of (Some bob) filed_store [])
  = Returned [(other_file, Title "Unknown Thread")] /\
  exists files,
    result getAllFileAttachments (world_of (Some alice) filed_store []) = Returned files /\
    falling fa_created_at (map fst files).
Proof.
  split; [vm_compute; reflexivity |]. split; [vm_compute; reflexivity |].
  destruct (getAllFileAttachments_titles (world_of (Some alice) filed_store []) alice
              eq_refl eq_refl) as (files & Hr & _ & Hf & _).
  exists files. now split.
Defined.

End FileTitles.

(** ** Threads of other users, and personas in a calm world *)

Module ThreadOwnership.
Import Store World Eff Queries MoreStore MoreQueries Relations Reasoning Scenarios
  MoreScenarios.

#[local] Arguments persona_of : simpl never.
#[local] Arguments thread_owned : simpl never.

(** The check of the thread, when the id is taken and the thread is not
    the caller's: the lookup finds nothing, the insert is refused. *)
Lemma ensureThreadExists_refused threadId user w :
  weather w = [] ->
  existsb (fun t => th_id t =? threadId) (threads (db w)) = true ->
  filter (thread_owned threadId user) (threads (db w)) = [] ->
  result (ensureThreadExists threadId user) w = Threw (StoreError duplicate_key) /\
  db (after (ensureThreadExists threadId user) w) = db w /\
  calls (after (ensureThreadExists threadId user) w)
  = calls w ++ [(Threads, Select); (Threads, Insert)].
Proof.
  intros Hcalm Htaken Hnone.
  destruct w as [ses d t ent dr wea cl con]. cbn in Hcalm, Htaken, Hnone. subst wea.
  unfold ensureThreadExists, select_single, insert_thread. run.
  rewrite Hnone. cbn. rewrite Htaken. cbn. rewrite <- app_assoc. now repeat split.
Qed.

(** X17. A thread id that is taken by another user's thread. In a calm
    world, when a thread with the id exists and the signed-in caller
    owns no thread with it, [createMessage] and [setThreadPersona] look
    the thread up, find nothing of the caller's, try to create the
    thread and throw the store's duplicate-key error; no message and no
    persona row is written, the store is as before. *)
Theorem thread_of_another_user_refused :
  forall (w : World) (threadId user : string),
    auth_user (session w) = Some user ->
    weather w = [] ->
    existsb (fun t => th_id t =? threadId) (threads (db w)) = true ->
    filter (thread_owned threadId user) (threads (db w)) = [] ->
    (forall message fs,
       let run := createMessage threadId message fs in
       result run w = Threw (StoreError duplicate_key) /\
       db (after run w) = db w /\
       calls (after run w) = calls w ++ [(Threads, Select); (Threads, Insert)]) /\
    (forall personaId,
       let run := setThreadPersona threadId personaId in
       result run w = Threw (StoreError duplicate_key) /\
       db (after run w) = db w /\
       calls (after run w) = calls w ++ [(Threads, Select); (Threads, Insert)]).
Proof.
  intros w threadId user Hu Hcalm Htaken Hnone. split.
  - intros message fs run. subst run. unfold result, after.
    rewrite (MessageCreation.createMessage_signed_in threadId message fs w user Hu).
    set (w0 := after (say Log "Creating message:") w).
    destruct (ensureThreadExists_refused threadId user w0 Hcalm Htaken Hnone)
      as (Hr & Hdb & Hcalls).
    rewrite (bind_threw _ _ w0 (StoreError duplicate_key)
               (after (ensureThreadExists threadId user) w0)).
    + cbn [fst snd]. now repeat split.
    + rewrite (run_eta (ensureThreadExists threadId user) w0). now rewrite Hr.
  - intros personaId run. subst run.
    destruct w as [ses d t ent dr wea cl con]. cbn in Hu, Hcalm, Htaken, Hnone. subst wea.
    unfold setThreadPersona, select_single, insert_thread. run. rewrite Hu. cbn.
    rewrite Hnone. cbn. rewrite Htaken. cbn. rewrite <- app_assoc. now repeat split.
Qed.

(** X17 with bob writing into alice's thread. *)
Lemma thread_of_another_user_refused_witness :
  result (createMessage thread1 hello None) (world_of (Some bob) alice_store [])
  = Threw (StoreError duplicate_key) /\
  result (setThreadPersona thread1 "persona-new") (world_of (Some bob) alice_store [])
  = Threw (StoreError duplicate_key) /\
  db (after (createMessage thread1 hello None) (world_of (Some bob) alice_store []))
  = alice_store.
Proof.
  destruct (thread_of_another_user_refused (world_of (Some bob) alice_store [])
              thread1 bob eq_refl eq_refl eq_refl eq_refl) as (Hm & Hp).
  destruct (Hm hello None) as (Hr & Hdb & _).
  destruct (Hp "persona-new") as (Hr' & _).
  split; [exact Hr |]. split; [exact Hr' | exact Hdb].
Defined.

(** X18. [setThreadPersona] in a calm world. When the signed-in caller
    owns the thread, or no thread has the id yet, the call returns the
    new row; afterwards the thread and user have exactly that persona
    row, the persona rows of other threads and users are as before, and
    the thread exists: as it was, or created with the title "New Chat"
    for the caller. *)
Theorem setThreadPersona_calm :
  forall (w : World) (threadId personaId user : string),
    auth_user (session w) = Some user ->
    weather w = [] ->
    let run := setThreadPersona threadId personaId in
    let row := mkThreadPersona threadId personaId user in
    let personas := thread_personas (db (after run w)) in
    ((exists t, filter (thread_owned threadId user) (threads (db w)) = [t]) ->
     result run w = Returned (Some row) /\
     filter (persona_of threadId user) personas = [row] /\
     filter (fun r => negb (persona_of threadId user r)) personas
     = filter (fun r => negb (persona_of threadId user r)) (thread_personas (db w)) /\
     threads (db (after run w)) = threads (db w)) /\
    (existsb (fun t => th_id t =? threadId) (threads (db w)) = false ->
     result run w = Returned (Some row) /\
     filter (persona_of threadId user) personas = [row] /\
     filter (fun r => negb (persona_of threadId user r)) personas
     = filter (fun r => negb (persona_of threadId user r)) (thread_personas (db w)) /\
     threads (db (after run w))
     = threads (db w) ++ [mkThread threadId "New Chat" user None]).
Proof.
  intros w threadId personaId user Hu Hcalm run row personas. subst run row personas.
  assert (Hrows : forall l,
            filter (persona_of threadId user)
              (filter (fun r => negb (persona_of threadId user r)) l
               ++ [mkThreadPersona threadId personaId user])
            = [mkThreadPersona threadId personaId user] /\
            filter (fun r => negb (persona_of threadId user r))
              (filter (fun r => negb (persona_of threadId user r)) l
               ++ [mkThreadPersona threadId personaId user])
            = filter (fun r => negb (persona_of threadId user r)) l).
  { intros l. rewrite !filter_app, Personas.filter_deleted. cbn.
    rewrite Personas.persona_of_own. cbn. rewrite app_nil_r. split; [reflexivity |].
    induction l as [| r l IH]; cbn; [reflexivity |].
    destruct (persona_of threadId user r) eqn:E; cbn; [exact IH |].
    rewrite E. cbn. now rewrite IH. }
  assert (Hgone : forall l,
            existsb (fun r => (tp_thread_id r =? threadId) && (tp_user_id r =? user))
              (filter (fun r => negb (persona_of threadId user r)) l) = false).
  { intros l. induction l as [| r l IH]; cbn; [reflexivity |].
    destruct (persona_of threadId user r) eqn:E; cbn; [exact IH |].
    unfold persona_of in E. now rewrite E, IH. }
  destruct w as [ses d t ent dr wea cl con]. cbn in Hu, Hcalm. subst wea.
  unfold setThreadPersona, select_single, insert_thread, delete_thread_personas,
    insert_thread_persona.
  split.
  - intros (t0 & Hone). cbn in Hone. run. rewrite Hu. cbn. rewrite Hone. cbn.
    rewrite Hgone. cbn.
    destruct (Hrows (thread_personas d)) as (H1 & H2). now rewrite H1, H2.
  - intros Hfree. cbn in Hfree. run. rewrite Hu. cbn.
    rewrite (MessageCreation.filter_owned_absent threadId user _ Hfree). cbn.
    rewrite Hfree. cbn. rewrite Hgone. cbn.
    destruct (Hrows (thread_personas d)) as (H1 & H2). now rewrite H1, H2.
Qed.

(** X18 on alice's thread with a persona set before, and on a thread
    that does not exist yet. *)
Lemma setThreadPersona_calm_witness :
  thread_personas
    (db (after (setThreadPersona thread1 "persona-new")
           (world_of (Some alice) alice_persona_store [])))
  = [new_persona] /\
  threads
    (db (after (setThreadPersona "thread-7" "persona-new")
           (world_of (Some alice) alice_persona_store [])))
  = [mkThread thread1 "Plans" alice None; mkThread "thread-7" "New Chat" alice None] /\
  result (setThreadPersona thread1 "persona-new")
    (world_of (Some alice) alice_persona_store [])
  = Returned (Some new_persona).
Proof.
  pose proof (setThreadPersona_calm (world_of (Some alice) alice_persona_store [])
                thread1 "persona-new" alice eq_refl eq_refl) as H.
  pose proof (setThreadPersona_calm (world_of (Some alice) alice_persona_store [])
                "thread-7" "persona-new" alice eq_refl eq_refl) as H'.
  cbv zeta in H, H'. destruct H as (H & _). destruct H' as (_ & H').
  destruct H as (Hr & _); [now eexists |].
  destruct H' as (_ & _ & _ & Ht); [reflexivity |].
  split; [reflexivity |]. split; [exact Ht | exact Hr].
Defined.

(** X19. [isPinned] by a signed-in user whose lookup is served answers
    true when exactly one pinned row matches user, thread and message,
    and false otherwise: also when the message is pinned twice, since
    the lookup asks for a single row. *)
Theorem isPinned_exactly_one :
  forall (w : World) (threadId messageId user : string),
    auth_user (session w) = Some user ->
    next_disturbance w = Calm ->
    let pins := filter (pin_of user threadId messageId) (pinned_messages (db w)) in
    (List.length pins = 1%nat -> result (isPinned threadId messageId) w = Returned true) /\
    (List.length pins <> 1%nat -> result (isPinned threadId messageId) w = Returned false).
Proof.
  intros w threadId messageId user Hu Hnext pins.
  assert (E : result (isPinned threadId messageId) w
              = Returned match pins with [_] => true | _ => false end).
  { subst pins. unfold isPinned, result, bind at 1, auth_getUser. rewrite Hu.
    unfold bind, from, select_single. rewrite Hnext. cbn.
    now destruct (filter _ _) as [| r [| r' l]]. }
  rewrite E. split; intros H; destruct pins as [| r [| r' l]]; cbn in H; try reflexivity;
    try discriminate; now contradiction H.
Qed.

(** X19 on a message pinned once and on one pinned twice. *)
Lemma isPinned_exactly_one_witness :
  result (isPinned thread1 "m-1") (world_of (Some alice) pinned_store []) = Returned true /\
  result (isPinned thread1 "m-1") (world_of (Some alice) pinned_twice []) = Returned false.
Proof.
  destruct (isPinned_exactly_one (world_of (Some alice) pinned_store []) thread1 "m-1" alice
              eq_refl eq_refl) as (Hone & _).
  destruct (isPinned_exactly_one (world_of (Some alice) pinned_twice []) thread1 "m-1" alice
              eq_refl eq_refl) as (_ & Hmany).
  split; [apply Hone; reflexivity | apply Hmany; discriminate].
Defined.

End ThreadOwnership.

(** ** Messages written, cut and read back *)

Module ReadBack.
Import Store World Eff Queries MoreStore MoreQueries Relations Reasoning Scenarios
  MoreScenarios Ordering.

Lemma Forall2_left {A B} (R : A -> B -> Prop) l l' a :
  Forall2 R l l' -> In a l -> exists b, In b l' /\ R a b.
Proof.
  induction 1 as [| x y l l' Hxy _ IH]; intros Hin; [contradiction |].
  destruct Hin as [<- | Hin].
  - exists y. split; [now left | exact Hxy].
  - destruct (IH Hin) as (b & Hb & Rb). exists b. split; [now right | exact Rb].
Qed.

Lemma Forall2_right {A B} (R : A -> B -> Prop) l l' b :
  Forall2 R l l' -> In b l' -> exists a, In a l /\ R a b.
Proof.
  induction 1 as [| x y l l' Hxy _ IH]; intros Hin; [contradiction |].
  destruct Hin as [<- | Hin].
  - exists x. split; [now left | exact Hxy].
  - destruct (IH Hin) as (a & Ha & Ra). exists a. split; [now right | exact Ra].
Qed.

(** The read of a thread in a calm world. *)
Lemma getMessagesByThreadId_calm fetch threadId w :
  weather w = [] ->
  exists found,
    result (getMessagesByThreadId fetch threadId) w = Returned found /\
    Forall2 (handed_message fetch)
      (ordered m_created_at true
         (filter (fun m => m_thread_id m =? threadId) (messages (db w))))
      found.
Proof.
  intros Hcalm.
  set (q := select_ordered messages (fun m => m_thread_id m =? threadId) m_created_at true).
  set (rows := ordered m_created_at true
                 (filter (fun m => m_thread_id m =? threadId) (messages (db w)))).
  destruct (from_alone Messages Select q w (MessageCreation.calm_alone w Hcalm))
    as [(E & _) | (e & Hn & _)].
  2: { unfold next_disturbance in Hn. rewrite Hcalm in Hn. discriminate. }
  unfold result, getMessagesByThreadId. fold q. unfold bind at 1. rewrite E.
  cbn [error data fst snd answered or_empty q select_ordered]. fold rows.
  match goal with |- context [bind _ _ ?x] => set (w1 := x) end.
  destruct (ContentReads.hand_on_messages fetch rows w1) as (H & _). exact H.
Qed.

(** The row an upsert leaves for the row handed in: it differs at most
    in [updated_at]. *)
Lemma upsert_rows_row row rows :
  exists m, In m (upsert_rows row rows) /\
            m_id m = m_id row /\ m_thread_id m = m_thread_id row /\
            m_parts m = m_parts row /\ m_role m = m_role row /\
            m_content m = m_content row /\ m_created_at m = m_created_at row.
Proof.
  unfold upsert_rows.
  destruct (existsb (fun m => m_id m =? m_id row) rows) eqn:E.
  - apply existsb_exists in E as (m0 & Hin & Hm0).
    exists (overwrite row m0). split; [| now repeat split].
    apply in_map_iff. exists m0. now rewrite Hm0.
  - exists row. split; [apply in_or_app; right; now left | now repeat split].
Qed.

(** X20. A message written and read back. After a call of
    [createMessage] in a calm world that went through,
    [getMessagesByThreadId] for the thread returns, whatever the network
    answers, and among the messages it returns is one with the id,
    role, content and date the message was stored with; its parts are
    the stored parts, one for one, with attachments handed on as stored
    or filled with fetched text. *)
Theorem createMessage_read_back :
  forall (fetch : string -> Fetched) (w : World) (threadId : string)
         (message : UIMessage) (fs : option (list FileUploadResult)),
    weather w = [] ->
    result (createMessage threadId message fs) w = Returned tt ->
    let w1 := after (createMessage threadId message fs) w in
    exists found m,
      result (getMessagesByThreadId fetch threadId) w1 = Returned found /\
      In m found /\
      m_id m = messageIdOf message w /\
      m_role m = ui_role message /\
      m_content m = ui_content message /\
      m_created_at m = createdAtOf message w /\
      Forall2 (handed_part fetch) (updatedParts message fs) (m_parts m).
Proof.
  intros fetch w threadId message fs Hcalm Hr w1.
  pose proof (MessageCreation.calm_alone w Hcalm) as Hw.
  destruct (MessageCreation.createMessage_user _ _ _ _ Hr) as (user & Hu).
  destruct (MessageCreation.createMessage_returned threadId message fs w user Hu Hw Hr)
    as (Hm & _).
  destruct (MessageCreation.createMessage_settled threadId message fs w)
    as (_ & Hcalm1 & _).
  fold w1 in Hm, Hcalm1. specialize (Hcalm1 Hcalm).
  destruct (getMessagesByThreadId_calm fetch threadId w1 Hcalm1) as (found & Hfound & Hall).
  destruct (upsert_rows_row (messageRowOf threadId user message fs w) (messages (db w)))
    as (m0 & Hin & Hid & Hthread & Hparts & Hrole & Hcontent & Hdate).
  cbn in Hid, Hthread, Hparts, Hrole, Hcontent, Hdate.
  assert (Hin0 : In m0 (ordered m_created_at true
                          (filter (fun m => m_thread_id m =? threadId) (messages (db w1))))).
  { apply ordered_In. apply filter_In. split; [now rewrite Hm |].
    rewrite Hthread. apply String.eqb_refl. }
  destruct (Forall2_left _ _ _ m0 Hall Hin0)
    as (m & Hfoundm & (Hi & _ & _ & Hro & Hco & Hda & _ & Hpa)).
  exists found, m. split; [exact Hfound |]. split; [exact Hfoundm |].
  rewrite Hi, Hro, Hco, Hda. repeat split; try assumption.
  now rewrite <- Hparts.
Qed.

(** X20 on alice's first message, sent with her notes, with a network
    that serves them. *)
Lemma createMessage_read_back_witness :
  exists found m,
    result (getMessagesByThreadId serving thread1)
      (after (createMessage thread1 hello (Some [notes]))
         (world_of (Some alice) alice_store []))
    = Returned found /\
    In m found /\
    m_content m = ui_content hello /\
    Forall2 (handed_part serving) (updatedParts hello (Some [notes])) (m_parts m).
Proof.
  assert (Hr : result (createMessage thread1 hello (Some [notes]))
                 (world_of (Some alice) alice_store []) = Returned tt)
    by (vm_compute; reflexivity).
  pose proof (createMessage_read_back serving (world_of (Some alice) alice_store [])
                thread1 hello (Some [notes]) eq_refl Hr) as H.
  cbv zeta in H. destruct H as (found & m & Hfound & Hin & _ & _ & Hc & _ & Hp).
  exists found, m. now repeat split.
Defined.

(** X21. A thread cut and read back. After [deleteTrailingMessages] in
    a calm world, with [gte] left out or true, [getMessagesByThreadId]
    for the thread returns only messages older than the date of the cut;
    with [gte] false, only messages not newer than it. Every message of
    the thread that is older than the date is still returned. *)
Theorem deleteTrailingMessages_read_back :
  forall (fetch : string -> Fetched) (w : World) (threadId : string)
         (createdAt : Z) (gte : option bool),
    weather w = [] ->
    let w1 := after (deleteTrailingMessages threadId (ValidDate createdAt) gte) w in
    exists found,
      result (getMessagesByThreadId fetch threadId) w1 = Returned found /\
      (forall m, In m found ->
         m_thread_id m = threadId /\
         (m_created_at m <= createdAt)%Z /\
         (gte <> Some false -> (m_created_at m < createdAt)%Z)) /\
      (forall m0, In m0 (messages (db w)) -> m_thread_id m0 = threadId ->
         (m_created_at m0 < createdAt)%Z ->
         exists m, In m found /\ m_id m = m_id m0 /\ m_content m = m_content m0).
Proof.
  intros fetch w threadId createdAt gte Hcalm w1.
  pose proof (MessageCreation.calm_alone w Hcalm) as Hw.
  destruct (TrailingMessages.deleteTrailingMessages_run threadId createdAt gte w Hw)
    as (_ & Hok & _).
  assert (Hserved : forall e, next_disturbance w <> Fails e).
  { intros e. unfold next_disturbance. rewrite Hcalm. discriminate. }
  destruct (Hok Hserved) as (_ & Hm). fold w1 in Hm.
  assert (Hcalm1 : weather w1 = []).
  { subst w1. unfold after, deleteTrailingMessages, toISOString, bind, from. cbn.
    destruct (error _); cbn; now rewrite Hcalm. }
  destruct (getMessagesByThreadId_calm fetch threadId w1 Hcalm1) as (found & Hfound & Hall).
  exists found. split; [exact Hfound |]. split.
  - intros m Hin.
    destruct (Forall2_right _ _ _ m Hall Hin) as (m0 & Hin0 & (_ & Ht & _ & _ & _ & Hd & _)).
    apply ordered_In in Hin0. apply filter_In in Hin0 as (Hin0 & Hthread).
    apply String.eqb_eq in Hthread.
    rewrite Hm in Hin0. apply filter_In in Hin0 as (_ & Hcut).
    apply negb_true_iff in Hcut. unfold trailing in Hcut.
    rewrite Hthread, String.eqb_refl in Hcut. cbn in Hcut. rewrite Ht, Hd.
    split; [exact Hthread |].
    destruct gte as [[|] |].
    + apply Z.leb_gt in Hcut. split; [lia | intros _; exact Hcut].
    + apply Z.ltb_ge in Hcut. split; [exact Hcut | intros C; now contradiction C].
    + apply Z.leb_gt in Hcut. split; [lia | intros _; exact Hcut].
  - intros m0 Hin0 Hthread Hold.
    assert (Hkept : In m0 (ordered m_created_at true
                             (filter (fun m => m_thread_id m =? threadId)
                                (messages (db w1))))).
    { apply ordered_In. apply filter_In. split.
      - rewrite Hm. apply filter_In. split; [exact Hin0 |].
        unfold trailing. apply negb_true_iff, andb_false_iff. right.
        destruct gte as [[|] |]; first [apply Z.leb_gt | apply Z.ltb_ge]; lia.
      - rewrite Hthread. apply String.eqb_refl. }
    destruct (Forall2_left _ _ _ m0 Hall Hkept) as (m & Hin & (Hi & _ & _ & _ & Hc & _)).
    exists m. now repeat split.
Qed.

(** X21 on alice's chat, cut at her second message. *)
Lemma deleteTrailingMessages_read_back_witness :
  result (getMessagesByThreadId unreachable thread1)
    (after (deleteTrailingMessages thread1 (ValidDate second_at) None)
       (world_of (Some alice) long_chat []))
  = Returned [greeting_message; first_message] /\
  exists found,
    result (getMessagesByThreadId unreachable thread1)
      (after (deleteTrailingMessages thread1 (ValidDate second_at) None)
         (world_of (Some alice) long_chat []))
    = Returned found /\
    forall m, In m found -> (m_created_at m < second_at)%Z.
Proof.
  split; [vm_compute; reflexivity |].
  pose proof (deleteTrailingMessages_read_back unreachable
                (world_of (Some alice) long_chat []) thread1 second_at None eq_refl) as H.
  cbv zeta in H. destruct H as (found & Hfound & Hold & _).
  exists found. split; [exact Hfound |].
  intros m Hin. apply (Hold m Hin). discriminate.
Defined.

End ReadBack.

